(** * get_version.py: the firmware version resolver of ESP32Clock

    A shallow embedding of the PlatformIO pre-build script
    [get_version.py] and the proofs of its contract.

    Modelling conventions.
    - A Python [str] is a list of Unicode code points ([list N]); a Python
      [bytes] value is a [list byte].
    - The script is a linear sequence of effects.  Its inputs (process
      environment, SCons construction variables, clock, result of the git
      call, working directory) are gathered in the record [world]; what it
      changes (file system, standard output) is the record [state],
      threaded through a state-and-exception monad [M].
    - The platform is POSIX, with the limits of Linux: [os.path] is
      [posixpath]; a path goes to the kernel in the file-system encoding
      of Python, with the surrogateescape handler, within PATH_MAX and
      NAME_MAX.  A file's content is its bytes; a text file is written
      without newline translation in the text encoding of the locale, an
      input of the run.  Symbolic links, permissions and a full disk are
      outside the model, and standard output takes every line.
    - Library routines the script calls ([str.lower], [bytes.strip],
      [bytes.decode], [strftime], [os.path.join], [os.path.isdir],
      [os.makedirs], [open]) are modelled after their CPython
      implementation or documentation, each next to its use.
    - [env.Exit(status)] is the [Exit] of SCons: it leaves the interpreter
      with that status, so nothing after it runs.  An exception that no
      [except] clause of the script catches is a third way for a run to
      end; it is kept apart from [env.Exit]. *)

From Stdlib Require Import NArith ZArith List Ascii String Lia Bool.
From Stdlib Require Import Numbers.DecimalString Init.Byte.
From stdpp Require Import gmap list.

Local Open Scope N_scope.

(** ** Strings *)

(** A Python [str]: the sequence of its code points. *)
Abbreviation str := (list N).

(** A string literal of the script, as code points. *)
Definition lit (s : string) : str := map N_of_ascii (list_ascii_of_string s).
#[global] Arguments lit : simpl never.

Definition NL : str := [10].     (* the newline *)
Definition DQ : str := [34].     (* the double quote *)
Definition SEP : N := 47.        (* posixpath.sep, the slash *)

Section Script.

(** [str.lower] works code point by code point.  On ASCII it maps [A-Z] to
    [a-z] and leaves the rest alone; outside ASCII it follows the Unicode
    lower-case mapping, which may give several code points.  That table is
    a parameter of the development. *)
Variable unicode_lower : N -> str.

(** What the development uses of the Unicode table: a lower-case mapping is
    never empty, and the only non-ASCII code points whose mapping contains
    an ASCII one are U+0130 (mapping to [i] and U+0307) and U+212A, the
    Kelvin sign (mapping to [k]). *)
Hypothesis unicode_lower_nonempty :
  forall c, 128 <= c -> unicode_lower c <> [].
Hypothesis unicode_lower_ascii :
  forall c d, 128 <= c -> In d (unicode_lower c) -> d < 128 ->
    (c = 304 /\ d = 105) \/ (c = 8490 /\ d = 107).

Definition is_upper (c : N) : bool := (65 <=? c) && (c <=? 90).

Definition lower_cp (c : N) : str :=
  if is_upper c then [c + 32]
  else if c <? 128 then [c]
  else unicode_lower c.

(** [s.lower()] *)
Definition lower (s : str) : str := flat_map lower_cp s.

(** ** The inputs of a run *)

(** Exceptions that the calls of the script can raise. *)
Inductive exn :=
| CalledProcessError (returncode : Z) (shown : str)
| FileNotFoundError
| NotADirectoryError
| FileExistsError
| IsADirectoryError
| PermissionError
| UnicodeDecodeError
| UnicodeEncodeError
| ValueError
| OSError_ENAMETOOLONG      (* OSError with the errno ENAMETOOLONG *)
| RecursionError.

(** What [subprocess.check_output] does: it returns the bytes the command
    printed, or raises.  [CalledProcessError] carries the exit status and
    its rendering by [str(e)]. *)
Inductive call_result :=
| Returned (out : list byte)
| Failed (e : exn).

(** [datetime.datetime], a naive local date and time. *)
Record datetime := {
  year : N; month : N; day : N;
  hour : N; minute : N; second : N; microsecond : N
}.

(** The text encodings of the usual locales: what [open] takes when it
    is given no [encoding] argument. *)
Inductive encoding := UTF8 | Latin1 | ASCII.

Record world := {
  environ : gmap str str;            (* os.environ *)
  construction_vars : gmap str str;  (* the SCons environment [env] *)
  clock : datetime;                  (* what datetime.now() returns *)
  git_describe : call_result;        (* git describe --tags --exact-match,
                                        run in the working directory *)
  cwd : list str;                    (* working directory, as segments *)
  text_encoding : encoding;          (* the encoding of the locale *)
  stack_room : nat                   (* the nested calls of os.makedirs the
                                        interpreter stack has room for,
                                        after the first *)
}.

(** [os.getenv(key, default)] *)
Definition getenv (w : world) (key dflt : str) : str :=
  default dflt (environ w !! key).

(** [env.get(key, default)] *)
Definition env_get (w : world) (key dflt : str) : str :=
  default dflt (construction_vars w !! key).

(** Line 11: [is_ci = os.getenv("CI", "false").lower() == "true"]. *)
Definition is_ci (w : world) : bool :=
  bool_decide (lower (getenv w (lit "CI") (lit "false")) = lit "true").

(** Case-insensitive comparison, as the specification words it: the two
    strings have the same length and, position by position, the same
    character or the two cases of one of the letters [a] to [z]. *)
Definition same_letter (c d : N) : Prop :=
  c = d \/ (97 <= c <= 122 /\ d + 32 = c) \/ (97 <= d <= 122 /\ c + 32 = d).

Definition equal_ignoring_case (a b : str) : Prop := Forall2 same_letter a b.

(** ** The git output: [bytes.strip] and [bytes.decode] *)

(** Removal of the trailing elements that satisfy [P]. *)
Fixpoint rstrip_by {A} (P : A -> bool) (l : list A) : list A :=
  match l with
  | [] => []
  | x :: l' =>
      match rstrip_by P l' with
      | [] => if P x then [] else [x]
      | r => x :: r
      end
  end.

(** Removal of the leading elements that satisfy [P]. *)
Fixpoint lstrip_by {A} (P : A -> bool) (l : list A) : list A :=
  match l with
  | [] => []
  | x :: l' => if P x then lstrip_by P l' else l
  end.

Definition strip_by {A} (P : A -> bool) (l : list A) : list A :=
  lstrip_by P (rstrip_by P l).

(** ASCII whitespace, the default set of [bytes.strip]: space, tab, line
    feed, carriage return, vertical tab, form feed. *)
Definition is_whitespace (c : N) : bool :=
  (c =? 32) || ((9 <=? c) && (c <=? 13)).

(** [b.strip()] on bytes. *)
Definition strip (b : list byte) : list byte :=
  strip_by (fun x => is_whitespace (Byte.to_N x)) b.

(** "Trimmed of surrounding whitespace", as the specification words it:
    [v] is [tag] without a stretch of whitespace at its start and one at
    its end, and has no whitespace left at either end.  The whitespace is
    that of ASCII: tab, line feed, vertical tab, form feed, carriage
    return, space. *)
Definition whitespace : list N := [9; 10; 11; 12; 13; 32].

Definition trimming (tag v : str) : Prop :=
  exists l r, tag = l ++ v ++ r /\
    Forall (fun c => c ∈ whitespace) l /\
    Forall (fun c => c ∈ whitespace) r /\
    (forall c, head v = Some c -> c ∉ whitespace) /\
    (forall c, last v = Some c -> c ∉ whitespace).

(** A continuation byte of UTF-8. *)
Definition is_cont (n : N) : bool := (128 <=? n) && (n <=? 191).

(** [b.decode("utf-8")] with the default strict error handler: the
    well-formed sequences of the Unicode standard (no overlong forms, no
    surrogates, nothing above U+10FFFF); [None] is [UnicodeDecodeError]. *)
Fixpoint decode_utf8 (bs : list byte) : option str :=
  match bs with
  | [] => Some []
  | b0 :: r0 =>
    let n0 := Byte.to_N b0 in
    if n0 <? 128 then cons n0 <$> decode_utf8 r0
    else
    match r0 with
    | [] => None
    | b1 :: r1 =>
      let n1 := Byte.to_N b1 in
      if (194 <=? n0) && (n0 <=? 223) then
        if is_cont n1
        then cons ((n0 - 192) * 64 + (n1 - 128)) <$> decode_utf8 r1
        else None
      else
      match r1 with
      | [] => None
      | b2 :: r2 =>
        let n2 := Byte.to_N b2 in
        if (224 <=? n0) && (n0 <=? 239) then
          let lo := if n0 =? 224 then 160 else 128 in
          let hi := if n0 =? 237 then 159 else 191 in
          if (lo <=? n1) && (n1 <=? hi) && is_cont n2
          then cons ((n0 - 224) * 4096 + (n1 - 128) * 64 + (n2 - 128))
                 <$> decode_utf8 r2
          else None
        else
        match r2 with
        | [] => None
        | b3 :: r3 =>
          let n3 := Byte.to_N b3 in
          if (240 <=? n0) && (n0 <=? 244) then
            let lo := if n0 =? 240 then 144 else 128 in
            let hi := if n0 =? 244 then 143 else 191 in
            if (lo <=? n1) && (n1 <=? hi) && is_cont n2 && is_cont n3
            then cons ((n0 - 240) * 262144 + (n1 - 128) * 4096
                       + (n2 - 128) * 64 + (n3 - 128))
                   <$> decode_utf8 r3
            else None
          else None
        end
      end
    end
  end.

(** ** The clock: [datetime.now] and [strftime] *)

Definition is_leap (y : N) : bool :=
  ((y mod 4 =? 0) && negb (y mod 100 =? 0)) || (y mod 400 =? 0).

Definition days_in_month (y m : N) : N :=
  if m =? 2 then (if is_leap y then 29 else 28)
  else if (m =? 4) || (m =? 6) || (m =? 9) || (m =? 11) then 30
  else 31.

(** The values a [datetime] can hold (MINYEAR = 1, MAXYEAR = 9999). *)
Definition valid_datetime (t : datetime) : bool :=
  (1 <=? year t) && (year t <=? 9999) &&
  (1 <=? month t) && (month t <=? 12) &&
  (1 <=? day t) && (day t <=? days_in_month (year t) (month t)) &&
  (hour t <? 24) && (minute t <? 60) && (second t <? 60) &&
  (microsecond t <? 1000000).

(** Decimal notation of a number. *)
Definition decimal (n : N) : str := lit (NilZero.string_of_uint (N.to_uint n)).

(** Zero padding on the left up to the width [w]. *)
Definition zero_pad (w : nat) (s : str) : str :=
  repeat 48 (w - length s)%nat ++ s.

(** One conversion of [strftime], which CPython hands to the C library.
    The script uses [%Y], the year in decimal (glibc does not pad it, so
    it has four digits from the year 1000 on), and [%m %d %H %M %S] (two
    digits, zero padded). *)
Definition directive (t : datetime) (d : N) : str :=
  if d =? 89 then decimal (year t)                       (* %Y *)
  else if d =? 109 then zero_pad 2 (decimal (month t))   (* %m *)
  else if d =? 100 then zero_pad 2 (decimal (day t))     (* %d *)
  else if d =? 72 then zero_pad 2 (decimal (hour t))     (* %H *)
  else if d =? 77 then zero_pad 2 (decimal (minute t))   (* %M *)
  else if d =? 83 then zero_pad 2 (decimal (second t))   (* %S *)
  else if d =? 37 then [37]                              (* %% *)
  else [37; d].

(** [t.strftime(fmt)] *)
Fixpoint strftime (t : datetime) (fmt : str) : str :=
  match fmt with
  | [] => []
  | c :: rest =>
      if c =? 37 then
        match rest with
        | [] => [37]
        | d :: rest' => directive t d ++ strftime t rest'
        end
      else c :: strftime t rest
  end.

(** Line 40: [now.strftime("dev-%Y%m%d-%H%M%S")], the local-mode version. *)
Definition dev_version (now : datetime) : str :=
  strftime now (lit "dev-%Y%m%d-%H%M%S").

(** Lines 43-46: the f-string of the header. *)
Definition header_content (version : str) : str :=
  lit "#pragma once" ++ NL ++ NL ++
  lit "#define FIRMWARE_VERSION " ++ DQ ++ version ++ DQ ++ NL.

(** ** Encoding text: [str.encode] and [os.fsencode] *)

(** The byte of a number below 256. *)
Definition byte_of (n : N) : byte := default x00%byte (Byte.of_N n).

(** The bytes of one code point; [None] where the strict error handler
    raises [UnicodeEncodeError]. *)
Definition encode_cp (enc : encoding) (c : N) : option (list byte) :=
  match enc with
  | ASCII => if c <? 128 then Some [byte_of c] else None
  | Latin1 => if c <? 256 then Some [byte_of c] else None
  | UTF8 =>
      if c <? 128 then Some [byte_of c]
      else if c <? 2048 then
        Some [byte_of (192 + c / 64); byte_of (128 + c mod 64)]
      else if c <? 65536 then
        if (55296 <=? c) && (c <=? 57343) then None
        else Some [byte_of (224 + c / 4096); byte_of (128 + c / 64 mod 64);
                   byte_of (128 + c mod 64)]
      else if c <? 1114112 then
        Some [byte_of (240 + c / 262144); byte_of (128 + c / 4096 mod 64);
              byte_of (128 + c / 64 mod 64); byte_of (128 + c mod 64)]
      else None
  end.

(** [s.encode(enc)] *)
Fixpoint encode (enc : encoding) (s : str) : option (list byte) :=
  match s with
  | [] => Some []
  | c :: s' =>
      match encode_cp enc c, encode enc s' with
      | Some b, Some r => Some (b ++ r)
      | _, _ => None
      end
  end.

(** The file-system encoding of Python, [sys.getfilesystemencoding()]:
    UTF-8 in the UTF-8 mode of the interpreter, the encoding of the
    locale it started in otherwise.  It is a parameter of the
    development. *)
Variable fs_encoding : encoding.

(** [os.fsencode(s)]: the file-system encoding, where the surrogateescape
    handler turns U+DC80 ... U+DCFF into the bytes 80 ... FF. *)
Definition fsencode_cp (c : N) : option (list byte) :=
  if (56448 <=? c) && (c <=? 56575) then Some [byte_of (c - 56320)]
  else encode_cp fs_encoding c.

Fixpoint fsencode (s : str) : option (list byte) :=
  match s with
  | [] => Some []
  | c :: s' =>
      match fsencode_cp c, fsencode s' with
      | Some b, Some r => Some (b ++ r)
      | _, _ => None
      end
  end.

(** ** The file system *)

(** A file system maps the absolute location of each entry, the list of
    its segments from the root, to a directory or to a regular file with
    its bytes.  The root, the empty list, is always a directory. *)
Inductive node := Dir | File (content : list byte).

#[global] Instance byte_eq_dec : EqDecision byte := Byte.byte_eq_dec.

#[global] Instance node_eq_dec : EqDecision node.
Proof. solve_decision. Defined.

Abbreviation filesystem := (gmap (list str) node).

Definition dir_at (fs : filesystem) (p : list str) : bool :=
  match p with
  | [] => true
  | _ => bool_decide (fs !! p = Some Dir)
  end.

(** The components of a path: the pieces between the separators. *)
Fixpoint components (s : str) : list str :=
  match s with
  | [] => [[]]
  | c :: s' =>
      if c =? SEP then [] :: components s'
      else match components s' with
           | [] => [[c]]
           | x :: xs => (c :: x) :: xs
           end
  end.

(** Why a path names nothing: the errno of the kernel, or the refusal of
    Python to hand the path to the kernel (it has a null character, or
    the file-system encoding has no bytes for it). *)
Inductive errno := ENOENT | ENOTDIR | ENAMETOOLONG | NullCharacter | Unencodable.

(** The limits of Linux, in bytes: of a name, and of a path with the
    null byte that ends it. *)
Definition NAME_MAX : N := 255.
Definition PATH_MAX : N := 4096.

Definition name_too_long (c : str) : bool :=
  match fsencode c with
  | Some b => NAME_MAX <? N.of_nat (length b)
  | None => false
  end.

(** What stops a path before resolution starts. *)
Definition refusal (path : str) : option errno :=
  match fsencode path with
  | None => Some Unencodable
  | Some b =>
      if existsb (N.eqb 0) path then Some NullCharacter
      else if PATH_MAX <=? N.of_nat (length b) then Some ENAMETOOLONG
      else None
  end.

(** Where path resolution stands after some components: at a directory,
    at a regular file, at a name missing from an existing directory (the
    flag tells whether separators followed the name), or failed. *)
Inductive lookup_state :=
| AtDir (p : list str)
| AtFile (p : list str) (slash : bool)
| AtMissing (parent : list str) (name : str) (slash : bool)
| Stuck (e : errno).

(** One component of path resolution, as the kernel does it: an empty
    component and [.] stay, [..] goes up, a name within NAME_MAX is
    looked up in the current directory; nothing but separators may follow
    a regular file or a missing name. *)
Definition namei_step (fs : filesystem) (st : lookup_state) (c : str)
  : lookup_state :=
  match st with
  | AtDir p =>
      if bool_decide (c = []) || bool_decide (c = lit ".") then AtDir p
      else if bool_decide (c = lit "..") then AtDir (removelast p)
      else if name_too_long c then Stuck ENAMETOOLONG
      else match fs !! (p ++ [c]) with
           | Some Dir => AtDir (p ++ [c])
           | Some (File _) => AtFile (p ++ [c]) false
           | None => AtMissing p c false
           end
  | AtFile p _ => if bool_decide (c = []) then AtFile p true else Stuck ENOTDIR
  | AtMissing p n _ =>
      if bool_decide (c = []) then AtMissing p n true else Stuck ENOENT
  | Stuck e => Stuck e
  end.

Definition startswith_sep (p : str) : bool :=
  match p with
  | c :: _ => c =? SEP
  | [] => false
  end.

(** Where resolution starts: an absolute path starts at the root, a
    relative one at the working directory. *)
Definition namei_start (fs : filesystem) (wd : list str) (path : str)
  : lookup_state :=
  if startswith_sep path then AtDir []
  else if dir_at fs wd then AtDir wd else Stuck ENOENT.

(** The walk along a path, component by component; the empty path names
    nothing. *)
Definition walk (fs : filesystem) (wd : list str) (path : str)
  : lookup_state :=
  match path with
  | [] => Stuck ENOENT
  | _ => fold_left (namei_step fs) (components path) (namei_start fs wd path)
  end.

(** Resolution of a path that Python hands to a system call. *)
Definition namei (fs : filesystem) (wd : list str) (path : str)
  : lookup_state :=
  match refusal path with
  | Some e => Stuck e
  | None => walk fs wd path
  end.

(** ** Effects *)

Record state := {
  fs : filesystem;       (* the file system *)
  stdout : list str      (* the lines printed so far *)
}.

(** How a piece of the script ends: normally with a value, with an
    exception that propagates, or in [env.Exit(status)], which leaves the
    interpreter at once. *)
Inductive result (A : Type) :=
| Normal (a : A)
| Raise (e : exn)
| Exit (status : Z).
#[global] Arguments Normal {A} a.
#[global] Arguments Raise {A} e.
#[global] Arguments Exit {A} status.

Definition M (A : Type) : Type := state -> result A * state.

#[global] Instance M_ret : MRet M := fun A a s => (Normal a, s).

#[global] Instance M_bind : MBind M := fun A B f m s =>
  match m s with
  | (Normal a, s') => f a s'
  | (Raise e, s') => (Raise e, s')
  | (Exit c, s') => (Exit c, s')
  end.

Definition raise {A} (e : exn) : M A := fun s => (Raise e, s).

(** [env.Exit(status)] *)
Definition env_Exit {A} (status : Z) : M A := fun s => (Exit status, s).

(** [print(line)] *)
Definition print (line : str) : M unit := fun s =>
  (Normal tt, {| fs := fs s; stdout := stdout s ++ [line] |}).

(** [try: body except ...: handler]: the handler table says which
    exceptions a clause of the statement catches. *)
Definition try_except {A} (body : M A) (handler : exn -> option (M A)) : M A :=
  fun s =>
    match body s with
    | (Raise e, s') =>
        match handler e with
        | Some h => h s'
        | None => (Raise e, s')
        end
    | r => r
    end.

Definition raise_errno {A} (e : errno) : M A :=
  match e with
  | ENOENT => raise FileNotFoundError
  | ENOTDIR => raise NotADirectoryError
  | ENAMETOOLONG => raise OSError_ENAMETOOLONG
  | NullCharacter => raise ValueError
  | Unencodable => raise UnicodeEncodeError
  end.

(** ** [os.path] and [os] *)

Definition endswith_sep (p : str) : bool := startswith_sep (rev p).

(** [os.path.join(a, b)] of posixpath, for one [b]. *)
Definition join (a b : str) : str :=
  if startswith_sep b then b
  else if bool_decide (a = []) || endswith_sep a then a ++ b
  else a ++ [SEP] ++ b.

(** [p.rfind(sep)]: the highest index of a separator, or -1. *)
Fixpoint rfind_sep (p : str) : Z :=
  match p with
  | [] => (-1)%Z
  | c :: p' =>
      let r := rfind_sep p' in
      if (0 <=? r)%Z then (r + 1)%Z
      else if c =? SEP then 0%Z
      else (-1)%Z
  end.

(** [os.path.split(p)] of posixpath: cut after the last separator, then
    strip the trailing separators of the head unless it is made of
    separators only. *)
Definition split (p : str) : str * str :=
  let i := Z.to_nat (rfind_sep p + 1) in
  let head := take i p in
  let tail := drop i p in
  if negb (bool_decide (head = [])) && negb (forallb (N.eqb SEP) head)
  then (rstrip_by (N.eqb SEP) head, tail)
  else (head, tail).

(** [os.path.exists(path)]: [os.stat] succeeds. *)
Definition exists_ (fs : filesystem) (wd : list str) (path : str) : bool :=
  match namei fs wd path with
  | AtDir _ | AtFile _ false => true
  | _ => false
  end.

(** [os.path.isdir(path)]: [os.stat] succeeds and finds a directory. *)
Definition isdir (fs : filesystem) (wd : list str) (path : str) : bool :=
  match namei fs wd path with
  | AtDir _ => true
  | _ => false
  end.

(** [os.mkdir(path)]: the name must be new and its parent a directory. *)
Definition mkdir (wd : list str) (path : str) : M unit := fun s =>
  match namei (fs s) wd path with
  | AtDir _ | AtFile _ _ => (Raise FileExistsError, s)
  | AtMissing parent name _ =>
      (Normal tt,
       {| fs := <[parent ++ [name] := Dir]> (fs s); stdout := stdout s |})
  | Stuck e => raise_errno e s
  end.

(** [os.makedirs(name)] with [exist_ok=False], after CPython's [os.py]:
    the missing head is made first, recursively, and the leaf with
    [mkdir].  [fuel] is the number of nested calls the interpreter stack
    has room for; a call beyond it raises [RecursionError]. *)
Fixpoint makedirs (fuel : nat) (wd : list str) (name : str) : M unit :=
  match fuel with
  | O => raise RecursionError
  | S fuel' =>
      let '(head, tail) := split name in
      let '(head, tail) :=
        if bool_decide (tail = []) then split head else (head, tail) in
      if negb (bool_decide (head = [])) && negb (bool_decide (tail = []))
      then
        fun s =>
          if exists_ (fs s) wd head then mkdir wd name s
          else
            (try_except (makedirs fuel' wd head)
               (fun e => match e with
                         | FileExistsError => Some (mret tt)
                         | _ => None
                         end) ;;
             if bool_decide (tail = lit ".") then mret tt
             else mkdir wd name) s
      else mkdir wd name
  end.

(** [open(path, "w")]: the file is created or truncated; the file object
    is represented by the location of the file.  A path that ends in a
    separator is refused as a directory. *)
Definition open_w (wd : list str) (path : str) : M (list str) := fun s =>
  let created p :=
    (Normal p, {| fs := <[p := File []]> (fs s); stdout := stdout s |}) in
  match namei (fs s) wd path with
  | AtDir _ => (Raise IsADirectoryError, s)
  | AtFile p false => created p
  | AtFile _ true => (Raise IsADirectoryError, s)
  | AtMissing parent name false => created (parent ++ [name])
  | AtMissing _ _ true => (Raise IsADirectoryError, s)
  | Stuck e => raise_errno e s
  end.

(** [f.write(text)] on a file opened without [encoding] argument: the
    text is encoded in the encoding of the locale, with the strict error
    handler, and its bytes are added at the end of the file; when the
    text cannot be encoded nothing is added. *)
Definition write (enc : encoding) (f : list str) (text : str) : M unit :=
  fun s =>
    match encode enc text with
    | None => (Raise UnicodeEncodeError, s)
    | Some b =>
        match fs s !! f with
        | Some (File c) =>
            (Normal tt,
             {| fs := <[f := File (c ++ b)]> (fs s); stdout := stdout s |})
        | _ => (Normal tt, s)
        end
    end.

(** ** The script *)

(** [subprocess.check_output(["git", "describe", "--tags",
    "--exact-match"])] *)
Definition check_output (w : world) : M (list byte) :=
  match git_describe w with
  | Returned out => mret out
  | Failed e => raise e
  end.

(** [.decode("utf-8")] as a call that may raise. *)
Definition decode (b : list byte) : M str :=
  match decode_utf8 b with
  | Some s => mret s
  | None => raise UnicodeDecodeError
  end.

(** Lines 13-40: the value of [version].  The initial value, the empty
    string of line 13, is never read: each branch assigns [version] or
    ends the run. *)
Definition version (w : world) : M str :=
  if is_ci w then
    print (lit "CI environment detected. Getting version from git tag.") ;;
    try_except
      (out ← check_output w ;
       decode (strip out))
      (fun e =>
         match e with
         | CalledProcessError _ shown =>
             Some (print (lit "Error: Not on a git tag. 'git describe' failed: "
                          ++ shown) ;;
                   print (lit "CI builds must be performed on a commit with a version tag.") ;;
                   env_Exit 1)
         | FileNotFoundError =>
             Some (print (lit "Error: git command not found. Is git installed and in the PATH?") ;;
                   env_Exit 1)
         | _ => None
         end)
  else
    print (lit "Local build detected. Creating dev version string.") ;;
    mret (dev_version (clock w)).

(** Line 49: [include_dir = env.get("PROJECT_INCLUDE_DIR", "include")]. *)
Definition include_dir (w : world) : str :=
  env_get w (lit "PROJECT_INCLUDE_DIR") (lit "include").

(** Line 50: [version_file_path = os.path.join(include_dir, "version.h")]. *)
Definition version_file_path (w : world) : str :=
  join (include_dir w) (lit "version.h").

(** Lines 42-60: rendering and writing the header for a given version. *)
Definition emit (w : world) (version : str) : M unit :=
  let header_content := header_content version in
  let include_dir := include_dir w in
  let version_file_path := version_file_path w in
  (fun s =>
     if negb (isdir (fs s) (cwd w) include_dir)
     then makedirs (S (stack_room w)) (cwd w) include_dir s
     else (Normal tt, s)) ;;
  f ← open_w (cwd w) version_file_path ;
  write (text_encoding w) f header_content ;;
  print (lit "Generated " ++ version_file_path
         ++ lit " with FIRMWARE_VERSION: " ++ version).

(** The whole script. *)
Definition get_version (w : world) : M unit :=
  v ← version w ;
  emit w v.

(** ** Vocabulary of the specification *)


(** The bytes of the regular file a path names, if it names one. *)
Definition read_file (fs : filesystem) (wd : list str) (path : str)
  : option (list byte) :=
  match namei fs wd path with
  | AtFile p false =>
      match fs !! p with
      | Some (File c) => Some c
      | _ => None
      end
  | _ => None
  end.

(** A line of text: its characters and the newline that ends it. *)
Definition line (s : str) : str := s ++ NL.

(** Patterns whose atoms match one character each: a given character, or
    a decimal digit ([\d]). *)
Inductive atom := Chr (c : N) | Digit.

Definition is_digit (c : N) : bool := (48 <=? c) && (c <=? 57).

Definition atom_matches (a : atom) (c : N) : bool :=
  match a with
  | Chr x => c =? x
  | Digit => is_digit c
  end.

Fixpoint fullmatch (pat : list atom) (s : str) : bool :=
  match pat, s with
  | [], [] => true
  | a :: pat', c :: s' => atom_matches a c && fullmatch pat' s'
  | _, _ => false
  end.

(** The pattern [dev-\d{8}-\d{6}]. *)
Definition dev_pattern : list atom :=
  map Chr (lit "dev-") ++ repeat Digit 8 ++ map Chr (lit "-") ++ repeat Digit 6.

(** The number a string of decimal digits denotes. *)
Definition digits_value (s : str) : N :=
  fold_left (fun a c => 10 * a + (c - 48)) s 0.

(** [s] is the numeral of [n] on exactly [w] decimal digits. *)
Definition numeral (w : nat) (n : N) (s : str) : Prop :=
  length s = w /\ forallb is_digit s = true /\ digits_value s = n.

(** Lexicographic comparison of sequences of numbers: the order of Python
    on [str] (by code point) and on tuples. *)
Fixpoint lex_compare (a b : list N) : comparison :=
  match a, b with
  | [], [] => Eq
  | [], _ :: _ => Lt
  | _ :: _, [] => Gt
  | x :: a', y :: b' =>
      match x ?= y with
      | Eq => lex_compare a' b'
      | c => c
      end
  end.

Definition lex_le (a b : list N) : Prop := lex_compare a b <> Gt.
Definition lex_lt (a b : list N) : Prop := lex_compare a b = Lt.

(** A clock reading down to the second, and in full; [datetime] values
    compare as these tuples. *)
Definition to_second (t : datetime) : list N :=
  [year t; month t; day t; hour t; minute t; second t].

Definition reading (t : datetime) : list N := to_second t ++ [microsecond t].

(** [t1 <= t2] on clock readings: [t2] is not earlier than [t1]. *)
Definition not_earlier (t2 t1 : datetime) : Prop :=
  lex_le (reading t1) (reading t2).

(** ** Vocabulary of the proofs *)

(** The folding of [A-Z] onto [a-z] that [str.lower] does on ASCII. *)
Definition fold_case (c : N) : N := if is_upper c then c + 32 else c.

(** [bytes.strip] carried over to text. *)
Definition trimmed (s : str) : str := strip_by is_whitespace s.

(** The letters of [true]. *)
Definition true_letter (c : N) : Prop := c = 116 \/ c = 114 \/ c = 117 \/ c = 101.

(** Boolean tests of the code, as arithmetic facts. *)
Ltac bool_facts :=
  repeat match goal with
  | H : _ && _ = true |- _ => apply andb_prop in H; destruct H
  | H : (_ <=? _) = true |- _ => apply N.leb_le in H
  | H : (_ <? _) = true |- _ => apply N.ltb_lt in H
  | H : (_ =? _) = true |- _ => apply N.eqb_eq in H
  | H : (_ =? _) = false |- _ => apply N.eqb_neq in H
  | H : (_ <=? _) = false |- _ => apply N.leb_gt in H
  | H : (_ <? _) = false |- _ => apply N.ltb_ge in H
  end.

Ltac bool_goal :=
  cbn [forallb]; rewrite ?andb_true_iff, ?N.leb_le, ?N.ltb_lt;
  repeat split; try lia; try done.

(** The diagnostics of the two [except] clauses. *)
Definition untagged_diagnostic (shown : str) : list str :=
  [lit "Error: Not on a git tag. 'git describe' failed: " ++ shown;
   lit "CI builds must be performed on a commit with a version tag."].

Definition no_git_diagnostic : list str :=
  [lit "Error: git command not found. Is git installed and in the PATH?"].


Ltac run_script :=
  unfold get_version, version, emit, check_output, decode, try_except,
    print, env_Exit, raise, mbind, M_bind, mret, M_ret; cbn [fst snd].

Definition is_numeral (w : nat) (n : N) (s : str) : bool :=
  bool_decide (length s = w) && forallb is_digit s && (digits_value s =? n).

Definition no_sep (s : str) : bool := forallb (fun c => negb (c =? SEP)) s.

Definition at_dir (st : lookup_state) : bool :=
  match st with
  | AtDir _ => true
  | _ => false
  end.

(** A file name proper: not empty, not [.] or [..], without separator,
    within NAME_MAX. *)
Definition plain_name (v : str) : Prop :=
  v <> [] /\ v <> lit "." /\ v <> lit ".." /\ no_sep v = true /\
  name_too_long v = false.

(** A file system that keeps the directories of another one. *)
Definition keeps_dirs (fs fs' : filesystem) : Prop :=
  forall k, fs !! k = Some Dir -> fs' !! k = Some Dir.

(** Paths made of names and single separators: [a], [/a], [a/b/c]. *)
Inductive simple_path : str -> Prop :=
| simple_name n : plain_name n -> simple_path n
| simple_root n : plain_name n -> simple_path (SEP :: n)
| simple_cons h n :
    simple_path h -> plain_name n -> simple_path (h ++ SEP :: n).

(** Where a simple path leads, whether something is there or not. *)
Definition location (wd : list str) (d : str) : list str :=
  (if startswith_sep d then [] else wd)
  ++ filter (fun c => c <> []) (components d).

(** Every entry of the file system is in a directory. *)
Definition well_formed (fs : filesystem) : Prop :=
  forall p x, is_Some (fs !! (p ++ [x])) -> dir_at fs p = true.

(** Resolution stopped at a missing name, with no regular file met. *)
Definition creatable (st : lookup_state) : Prop :=
  match st with
  | AtMissing _ _ _ | Stuck ENOENT => True
  | _ => False
  end.

(** [fs'] is [fs] with new directories on the way to [q]. *)
Definition grows (fs fs' : filesystem) (q : list str) : Prop :=
  forall k, fs' !! k = fs !! k \/
            (fs !! k = None /\ fs' !! k = Some Dir /\ k `prefix_of` q).

(** The same world with another result of the git call, another clock
    reading, another text encoding; and the same world run from another
    working directory, where the git call has a result of its own. *)
Definition with_git (w : world) (g : call_result) : world :=
  {| environ := environ w; construction_vars := construction_vars w;
     clock := clock w; git_describe := g; cwd := cwd w;
     text_encoding := text_encoding w; stack_room := stack_room w |}.

Definition with_clock (w : world) (t : datetime) : world :=
  {| environ := environ w; construction_vars := construction_vars w;
     clock := t; git_describe := git_describe w; cwd := cwd w;
     text_encoding := text_encoding w; stack_room := stack_room w |}.

Definition with_encoding (w : world) (enc : encoding) : world :=
  {| environ := environ w; construction_vars := construction_vars w;
     clock := clock w; git_describe := git_describe w; cwd := cwd w;
     text_encoding := enc; stack_room := stack_room w |}.

Definition moved (w : world) (wd : list str) (g : call_result) : world :=
  {| environ := environ w; construction_vars := construction_vars w;
     clock := clock w; git_describe := g; cwd := wd;
     text_encoding := text_encoding w; stack_room := stack_room w |}.

(** The line a run prints first (lines 17 and 38), and its last line
    (line 60). *)
Definition mode_line (w : world) : str :=
  if is_ci w
  then lit "CI environment detected. Getting version from git tag."
  else lit "Local build detected. Creating dev version string.".

Definition confirmation (w : world) (v : str) : str :=
  lit "Generated " ++ version_file_path w
  ++ lit " with FIRMWARE_VERSION: " ++ v.

(** The exceptions the [try] statement of lines 18-34 has a clause for. *)
Definition caught (e : exn) : bool :=
  match e with
  | CalledProcessError _ _ | FileNotFoundError => true
  | _ => false
  end.

(** [fs'] has every entry of [fs], and directories where [fs] had
    nothing. *)
Definition only_adds_dirs (fs fs' : filesystem) : Prop :=
  forall k, fs' !! k = fs !! k \/ (fs !! k = None /\ fs' !! k = Some Dir).

(** [fs'] has a directory where [fs] has one and a regular file where
    [fs] has one. *)
Definition keeps_kinds (fs fs' : filesystem) : Prop :=
  keeps_dirs fs fs' /\
  forall k x, fs !! k = Some (File x) -> exists y, fs' !! k = Some (File y).

(** Resolution met a regular file where it needed a directory, or ended
    on one. *)
Definition blocked (st : lookup_state) : Prop :=
  match st with
  | AtFile _ _ | Stuck ENOTDIR => True
  | _ => False
  end.

(** What resolution says of the file system: a regular file is where it
    says one is, nothing where it says a name is missing. *)
Definition sound (fs : filesystem) (st : lookup_state) : Prop :=
  match st with
  | AtFile f _ => exists x, fs !! f = Some (File x)
  | AtMissing p n _ => fs !! (p ++ [n]) = None
  | _ => True
  end.

(** ** Sample inputs *)

(** A lower-case table above ASCII: the two code points whose mapping
    has an ASCII letter, the others left as they are. *)
Definition sample_lower (c : N) : str :=
  if c =? 304 then [105; 775]
  else if c =? 8490 then [107]
  else [c].

(** 17 October 2025, 02:32:23, the example in the comment of line 40;
    the same second a little later; and the next second. *)
Definition sample_clock : datetime :=
  {| year := 2025; month := 10; day := 17;
     hour := 2; minute := 32; second := 23; microsecond := 5 |}.

Definition sample_clock_later : datetime :=
  {| year := 2025; month := 10; day := 17;
     hour := 2; minute := 32; second := 23; microsecond := 900000 |}.

Definition sample_clock_next : datetime :=
  {| year := 2025; month := 10; day := 17;
     hour := 2; minute := 32; second := 24; microsecond := 0 |}.

Definition project_dir : list str := [lit "home"; lit "clock"].

(** The bytes of an ASCII text. *)
Definition ascii_bytes (s : str) : list byte := map byte_of s.

(** A project without an include directory... *)
Definition fresh_project : state :=
  {| fs := {[ [lit "home"] := Dir; project_dir := Dir ]}; stdout := [] |}.

(** ... one with the header of an earlier, longer version... *)
Definition built_project : state :=
  {| fs := {[ [lit "home"] := Dir; project_dir := Dir;
              project_dir ++ [lit "include"] := Dir;
              project_dir ++ [lit "include"; lit "version.h"] :=
                File (ascii_bytes
                        (header_content (lit "v0.9.0-rc1-with-a-long-name"))) ]};
     stdout := [] |}.

(** ... and one where [include] is a regular file. *)
Definition blocked_project : state :=
  {| fs := {[ [lit "home"] := Dir; project_dir := Dir;
              project_dir ++ [lit "include"] := File (ascii_bytes (lit "notes")) ]};
     stdout := [] |}.

(** A local build that writes into a nested directory. *)
Definition local_world : world :=
  {| environ := ∅;
     construction_vars := {[ lit "PROJECT_INCLUDE_DIR" := lit "build/gen/include" ]};
     clock := sample_clock;
     git_describe := Failed FileNotFoundError;
     cwd := project_dir;
     text_encoding := UTF8; stack_room := 100 |}.

(** A local build with CI set to something else than [true], at the
    later clock reading. *)
Definition local_world_later : world :=
  {| environ := {[ lit "CI" := lit "1" ]};
     construction_vars := ∅;
     clock := sample_clock_later;
     git_describe := Failed FileNotFoundError;
     cwd := project_dir;
     text_encoding := UTF8; stack_room := 100 |}.

(** The local build of [local_world] run from another directory, with
    another variable in the environment. *)
Definition local_world_elsewhere : world :=
  {| environ := {[ lit "HOME" := lit "/root" ]};
     construction_vars := {[ lit "PROJECT_INCLUDE_DIR" := lit "build/gen/include" ]};
     clock := sample_clock;
     git_describe := Failed FileNotFoundError;
     cwd := [lit "tmp"];
     text_encoding := UTF8; stack_room := 100 |}.

Definition other_project : state :=
  {| fs := {[ [lit "tmp"] := Dir; [lit "tmp"; lit "build"] := Dir ]};
     stdout := [lit "Reading CMake configuration..."] |}.

(** A CI build on the tag v1.2.3; git prints the tag and a newline. *)
Definition tagged_world : world :=
  {| environ := {[ lit "CI" := lit "TrUe" ]};
     construction_vars := ∅;
     clock := sample_clock;
     git_describe := Returned [x76; x31; x2e; x32; x2e; x33; x0a]%byte;
     cwd := project_dir;
     text_encoding := UTF8; stack_room := 100 |}.

(** A CI build on a revision without a tag. *)
Definition untagged_world : world :=
  {| environ := {[ lit "CI" := lit "true" ]};
     construction_vars := ∅;
     clock := sample_clock;
     git_describe :=
       Failed (CalledProcessError 128
         (lit "Command '['git', 'describe', '--tags', '--exact-match']' returned non-zero exit status 128."));
     cwd := project_dir;
     text_encoding := UTF8; stack_room := 100 |}.

(** A CI build where git prints bytes that are not UTF-8. *)
Definition garbled_world : world :=
  with_git tagged_world (Returned [x76; xff; x0a]%byte).

(** A CI build where git may not be executed. *)
Definition denied_world : world :=
  with_git tagged_world (Failed PermissionError).

(** A CI build where git prints a blank line. *)
Definition blank_world : world :=
  with_git tagged_world (Returned [x20; x0a]%byte).

(** Local builds with an empty include-directory setting, with a setting
    below the regular file of [blocked_project], and with an absolute
    one. *)
Definition empty_dir_world : world :=
  {| environ := ∅;
     construction_vars := {[ lit "PROJECT_INCLUDE_DIR" := [] ]};
     clock := sample_clock;
     git_describe := Failed FileNotFoundError;
     cwd := project_dir;
     text_encoding := UTF8; stack_room := 100 |}.

Definition below_file_world : world :=
  {| environ := ∅;
     construction_vars := {[ lit "PROJECT_INCLUDE_DIR" := lit "include/gen" ]};
     clock := sample_clock;
     git_describe := Failed FileNotFoundError;
     cwd := project_dir;
     text_encoding := UTF8; stack_room := 100 |}.

Definition absolute_world : world :=
  {| environ := ∅;
     construction_vars :=
       {[ lit "PROJECT_INCLUDE_DIR" := lit "/home/clock/include" ]};
     clock := sample_clock;
     git_describe := Failed FileNotFoundError;
     cwd := project_dir;
     text_encoding := UTF8; stack_room := 100 |}.

(** A CI build on the tag v1é, whose name is not ASCII: in the UTF-8
    locale of the other samples, in a Latin-1 locale and in an ASCII
    one. *)
Definition accented_world : world :=
  with_git tagged_world (Returned [x76; x31; xc3; xa9; x0a]%byte).

Definition accented_world_latin1 : world := with_encoding accented_world Latin1.

Definition accented_world_ascii : world := with_encoding accented_world ASCII.

(** The CI build of [tagged_world] with an absolute include directory. *)
Definition absolute_tagged_world : world :=
  {| environ := environ tagged_world;
     construction_vars := construction_vars absolute_world;
     clock := sample_clock;
     git_describe := git_describe tagged_world;
     cwd := project_dir;
     text_encoding := UTF8; stack_room := 100 |}.

(** Local builds whose include-directory setting has a null character,
    is a name of 256 letters, and is three levels deep with room on the
    stack for two calls of [os.makedirs]. *)
Definition null_dir_world : world :=
  {| environ := ∅;
     construction_vars :=
       {[ lit "PROJECT_INCLUDE_DIR" := lit "inc" ++ [0] ++ lit "lude" ]};
     clock := sample_clock;
     git_describe := Failed FileNotFoundError;
     cwd := project_dir;
     text_encoding := UTF8; stack_room := 100 |}.

Definition long_name_world : world :=
  {| environ := ∅;
     construction_vars := {[ lit "PROJECT_INCLUDE_DIR" := repeat 97 256 ]};
     clock := sample_clock;
     git_describe := Failed FileNotFoundError;
     cwd := project_dir;
     text_encoding := UTF8; stack_room := 100 |}.

Definition shallow_stack_world : world :=
  {| environ := ∅;
     construction_vars :=
       {[ lit "PROJECT_INCLUDE_DIR" := lit "build/gen/include" ]};
     clock := sample_clock;
     git_describe := Failed FileNotFoundError;
     cwd := project_dir;
     text_encoding := UTF8; stack_room := 1 |}.

(** A project where [version.h] is a directory of the project directory
    itself. *)
Definition odd_root_project : state :=
  {| fs := {[ [lit "home"] := Dir; project_dir := Dir;
              project_dir ++ [lit "version.h"] := Dir ]};
     stdout := [] |}.

(** A project where [include/version.h] is a directory. *)
Definition odd_project : state :=
  {| fs := {[ [lit "home"] := Dir; project_dir := Dir;
              project_dir ++ [lit "include"] := Dir;
              project_dir ++ [lit "include"; lit "version.h"] := Dir ]};
     stdout := [] |}.

(** ** Case-insensitive comparison with an ASCII literal *)

Lemma lower_cp_ascii c : c < 128 -> lower_cp c = [fold_case c].
Proof.
  intros Hc. unfold lower_cp, fold_case.
  destruct (is_upper c); [done|].
  by rewrite (proj2 (N.ltb_lt _ _) Hc).
Qed.

Lemma fold_case_nonascii c : 128 <= c -> fold_case c = c.
Proof.
  intros Hc. unfold fold_case, is_upper.
  destruct (N.leb_spec c 90); [lia|]. by rewrite andb_false_r.
Qed.

Lemma lower_cp_nonascii c : 128 <= c -> lower_cp c = unicode_lower c.
Proof.
  intros Hc. unfold lower_cp, is_upper.
  destruct (N.leb_spec c 90); [lia|]. rewrite andb_false_r.
  destruct (N.ltb_spec c 128); [lia|done].
Qed.

(** Lowering gives a string of letters of [true] only for ASCII input, on
    which it is the case folding. *)
Lemma lower_true_letters (v t : str) :
  Forall true_letter t -> lower v = t -> map fold_case v = t.
Proof.
  revert t. induction v as [|c v IH]; intros t Ht; simpl; [done|].
  destruct (N.lt_ge_cases c 128) as [Hc|Hc].
  - rewrite lower_cp_ascii by done. simpl. intros <-.
    f_equal. apply IH; [by inversion Ht|done].
  - rewrite lower_cp_nonascii by done.
    destruct (unicode_lower c) as [|d ds] eqn:Hd.
    { by destruct (unicode_lower_nonempty c Hc). }
    simpl. intros <-. exfalso.
    inversion Ht as [|? ? Hl _]; subst.
    assert (Hin : In d (unicode_lower c)) by (rewrite Hd; by left).
    destruct Hl as [-> | [-> | [-> | ->]]];
      (destruct (unicode_lower_ascii c _ Hc Hin) as [[_ ?]|[_ ?]]; [lia|done|done]).
Qed.

Lemma fold_true_letters (v t : str) :
  Forall true_letter t -> map fold_case v = t -> lower v = t.
Proof.
  revert t. induction v as [|c v IH]; intros t Ht; simpl; [done|].
  intros <-. inversion Ht as [|? ? Hl Ht']; subst.
  assert (Hc : c < 128).
  { destruct (N.lt_ge_cases c 128) as [Hc|Hc]; [done|].
    rewrite fold_case_nonascii in Hl by done.
    unfold true_letter in Hl. lia. }
  rewrite lower_cp_ascii by done. simpl. f_equal. by apply IH.
Qed.

Lemma true_letters : Forall true_letter (lit "true").
Proof. repeat constructor; unfold true_letter; vm_compute; tauto. Qed.

(** Against a lower-case letter, the folding of the code and the
    comparison of the specification agree. *)
Lemma fold_case_same_letter_cp c d :
  true_letter d -> fold_case c = d <-> same_letter c d.
Proof.
  unfold true_letter, same_letter, fold_case, is_upper. intros Hd.
  destruct (N.leb_spec 65 c); destruct (N.leb_spec c 90); cbn [andb]; lia.
Qed.

Lemma fold_case_same_letter (v t : str) :
  Forall true_letter t -> map fold_case v = t <-> Forall2 same_letter v t.
Proof.
  intros Ht. revert v. induction Ht as [|d t Hd Ht IH]; intros v.
  - split.
    + intros Hv. apply map_eq_nil in Hv as ->. constructor.
    + by intros ->%Forall2_nil_inv_r.
  - split.
    + destruct v as [|c v]; [done|]. cbn [map]. intros [= Hc Hv].
      constructor; [by apply fold_case_same_letter_cp|by apply IH].
    + intros (c & v' & Hc & Hv & ->)%Forall2_cons_inv_r. cbn [map].
      f_equal; [by apply fold_case_same_letter_cp|by apply IH].
Qed.

(** The default of the lookup, [false], is not [true]. *)
Lemma lower_default : lower (lit "false") <> lit "true".
Proof. vm_compute. discriminate. Qed.

(** C1. The script is in CI mode exactly when the variable CI is set and
    its value equals [true] up to the case of letters; with any other
    value, or without the variable, it is in local mode. *)
Theorem ci_mode_iff (w : world) :
  (is_ci w = true <->
     exists v, environ w !! lit "CI" = Some v /\
               equal_ignoring_case v (lit "true")) /\
  (is_ci w = false <->
     forall v, environ w !! lit "CI" = Some v ->
               ~ equal_ignoring_case v (lit "true")).
Proof.
  assert (Hmain : is_ci w = true <->
     exists v, environ w !! lit "CI" = Some v /\
               equal_ignoring_case v (lit "true")).
  { unfold is_ci, getenv, equal_ignoring_case.
    rewrite bool_decide_eq_true.
    destruct (environ w !! lit "CI") as [v|] eqn:Hv; simpl.
    - split.
      + intros H. exists v. split; [done|].
        apply fold_case_same_letter; [apply true_letters|].
        by apply lower_true_letters; [apply true_letters|].
      + intros (v' & Heq & H). injection Heq as <-.
        apply fold_true_letters; [apply true_letters|].
        by apply fold_case_same_letter; [apply true_letters|].
    - split.
      + intros H. by destruct lower_default.
      + by intros (v' & Heq & _). }
  split; [done|].
  rewrite <- not_true_iff_false, Hmain. split.
  - intros Hn v Hv He. apply Hn. eauto.
  - intros Hn (v & Hv & He). by apply (Hn v).
Qed.

(** ** Trimming and decoding *)

Lemma rstrip_by_cons {A} (P : A -> bool) x l :
  rstrip_by P (x :: l) =
  if P x && bool_decide (rstrip_by P l = []) then [] else x :: rstrip_by P l.
Proof.
  simpl. destruct (rstrip_by P l); simpl.
  - rewrite andb_true_r. by destruct (P x).
  - by rewrite andb_false_r.
Qed.

Lemma rstrip_by_keep {A} (P : A -> bool) pre l :
  forallb (fun x => negb (P x)) pre = true ->
  rstrip_by P (pre ++ l) = pre ++ rstrip_by P l.
Proof.
  induction pre as [|x pre IH]; [done|].
  cbn [forallb app]. intros [Hx Hpre]%andb_prop.
  rewrite rstrip_by_cons, (IH Hpre).
  apply negb_true_iff in Hx. by rewrite Hx.
Qed.

(** What trimming does: it removes a run of whitespace at each end, and
    what is left neither starts nor ends with whitespace. *)
Lemma rstrip_by_spec {A} (P : A -> bool) l :
  exists r, l = rstrip_by P l ++ r /\ forallb P r = true /\
            (forall x, last (rstrip_by P l) = Some x -> P x = false).
Proof.
  induction l as [|x l (r & Hl & Hr & Hlast)].
  { exists []. by repeat split. }
  rewrite rstrip_by_cons.
  destruct (P x) eqn:Hx; simpl; [case_bool_decide as Hnil|].
  - exists (x :: r). rewrite Hnil in Hl. simpl in Hl.
    split; [by rewrite <- Hl|]. split; [by simpl; rewrite Hx|done].
  - exists r. split; [simpl; by rewrite <- Hl|]. split; [done|].
    intros y. destruct (rstrip_by P l); [done|]. apply Hlast.
  - exists r. split; [simpl; by rewrite <- Hl|]. split; [done|].
    intros y. destruct (rstrip_by P l) eqn:E.
    + simpl. by intros [= <-].
    + apply Hlast.
Qed.

Lemma lstrip_by_spec {A} (P : A -> bool) l :
  exists r, l = r ++ lstrip_by P l /\ forallb P r = true /\
            (forall x, head (lstrip_by P l) = Some x -> P x = false).
Proof.
  induction l as [|x l (r & Hl & Hr & Hhead)].
  { exists []. by repeat split. }
  simpl. destruct (P x) eqn:Hx.
  - exists (x :: r). repeat split; [by simpl; f_equal | by simpl; rewrite Hx | done].
  - exists []. repeat split. simpl. by intros y [= <-].
Qed.

Lemma lstrip_by_last {A} (P : A -> bool) l x :
  last (lstrip_by P l) = Some x -> last l = Some x.
Proof.
  induction l as [|y l IH]; [done|]. simpl.
  destruct (P y); [|done].
  intros H. specialize (IH H). destruct l; [done|]. done.
Qed.

Lemma trimmed_spec (s : str) :
  exists l r, s = l ++ trimmed s ++ r /\
    forallb is_whitespace l = true /\ forallb is_whitespace r = true /\
    (forall x, head (trimmed s) = Some x -> is_whitespace x = false) /\
    (forall x, last (trimmed s) = Some x -> is_whitespace x = false).
Proof.
  unfold trimmed, strip_by.
  destruct (rstrip_by_spec is_whitespace s) as (r & Hs & Hr & Hlast).
  destruct (lstrip_by_spec is_whitespace (rstrip_by is_whitespace s))
    as (l & Hl & Hl' & Hhead).
  exists l, r. repeat split; try done.
  - rewrite app_assoc, <- Hl. done.
  - intros x Hx. apply Hlast. by apply lstrip_by_last in Hx.
Qed.

(** One decoding step: a decodable, non-empty input starts with the
    encoding [pre] of one code point [c], which is a single ASCII byte or
    a sequence of bytes above 127 for a code point above 127. *)
Lemma decode_utf8_step b0 r0 s :
  decode_utf8 (b0 :: r0) = Some s ->
  exists pre rest c s',
    b0 :: r0 = pre ++ rest /\ s = c :: s' /\ decode_utf8 rest = Some s' /\
    (length rest < length (b0 :: r0))%nat /\
    (forall rest', decode_utf8 (pre ++ rest') = cons c <$> decode_utf8 rest') /\
    ((pre = [b0] /\ c = Byte.to_N b0 /\ c < 128) \/
     (128 <= c /\ forallb (fun b => 128 <=? Byte.to_N b) pre = true)).
Proof.
  cbn [decode_utf8].
  destruct (N.ltb_spec (Byte.to_N b0) 128) as [H0|H0].
  { destruct (decode_utf8 r0) as [s'|] eqn:Hr; [|done].
    intros [= <-]. exists [b0], r0, (Byte.to_N b0), s'.
    repeat split; try done; [simpl; lia | |by left].
    intros rest'. cbn [app decode_utf8].
    by rewrite (proj2 (N.ltb_lt _ _) H0). }
  destruct r0 as [|b1 r1]; [done|].
  destruct ((194 <=? Byte.to_N b0) && (Byte.to_N b0 <=? 223)) eqn:E2.
  { destruct (is_cont (Byte.to_N b1)) eqn:C1; [|done].
    destruct (decode_utf8 r1) as [s'|] eqn:Hr; [|done].
    intros [= <-]. eexists [b0; b1], r1, _, s'.
    repeat split; try done; [simpl; lia | |right].
    - intros rest'. cbn [app decode_utf8].
      destruct (N.ltb_spec (Byte.to_N b0) 128); [lia|]. by rewrite E2, C1.
    - unfold is_cont in C1. bool_facts. bool_goal. }
  destruct r1 as [|b2 r2]; [done|].
  destruct ((224 <=? Byte.to_N b0) && (Byte.to_N b0 <=? 239)) eqn:E3.
  { match goal with |- context [if ?c then _ else None] => destruct c eqn:C end;
      [|done].
    destruct (decode_utf8 r2) as [s'|] eqn:Hr; [|done].
    intros [= <-]. eexists [b0; b1; b2], r2, _, s'.
    repeat split; try done; [simpl; lia | |right].
    - intros rest'. cbn [app decode_utf8].
      destruct (N.ltb_spec (Byte.to_N b0) 128); [lia|]. by rewrite E2, E3, C.
    - unfold is_cont in C.
      destruct (Byte.to_N b0 =? 224) eqn:E0; bool_facts; bool_goal. }
  destruct r2 as [|b3 r3]; [done|].
  destruct ((240 <=? Byte.to_N b0) && (Byte.to_N b0 <=? 244)) eqn:E4; [|done].
  match goal with |- context [if ?c then _ else None] => destruct c eqn:C end;
    [|done].
  destruct (decode_utf8 r3) as [s'|] eqn:Hr; [|done].
  intros [= <-]. eexists [b0; b1; b2; b3], r3, _, s'.
  repeat split; try done; [simpl; lia | |right].
  - intros rest'. cbn [app decode_utf8].
    destruct (N.ltb_spec (Byte.to_N b0) 128); [lia|]. by rewrite E2, E3, E4, C.
  - unfold is_cont in C.
    destruct (Byte.to_N b0 =? 240) eqn:E0; bool_facts; bool_goal.
Qed.

(** Induction along the code points of a decodable input. *)
Lemma decode_utf8_ind (P : list byte -> str -> Prop) :
  P [] [] ->
  (forall pre rest c s',
     decode_utf8 rest = Some s' -> P rest s' -> pre <> [] ->
     (forall rest', decode_utf8 (pre ++ rest') = cons c <$> decode_utf8 rest') ->
     ((exists b, pre = [b] /\ c = Byte.to_N b /\ c < 128) \/
      (128 <= c /\ forallb (fun b => 128 <=? Byte.to_N b) pre = true)) ->
     P (pre ++ rest) (c :: s')) ->
  forall bs s, decode_utf8 bs = Some s -> P bs s.
Proof.
  intros Hnil Hstep bs.
  remember (length bs) as n eqn:Hn. revert bs Hn.
  induction n as [n IH] using lt_wf_ind. intros bs -> s Hs.
  destruct bs as [|b0 r0]; [by injection Hs as <-|].
  destruct (decode_utf8_step _ _ _ Hs)
    as (pre & rest & c & s' & Hb & -> & Hrest & Hlen & Hpre & Hc).
  rewrite Hb. apply Hstep; try done.
  - by apply (IH (length rest)).
  - intros ->. simpl in Hb. subst rest. simpl in Hlen. lia.
  - destruct Hc as [(-> & ? & ?)|?]; [left; eauto|by right].
Qed.

Lemma decode_utf8_nonempty b r s : decode_utf8 (b :: r) = Some s -> s <> [].
Proof.
  intros Hs. by destruct (decode_utf8_step _ _ _ Hs) as (? & ? & ? & ? & _ & -> & _).
Qed.

Lemma above_ascii_not_whitespace c : 128 <= c -> is_whitespace c = false.
Proof.
  intros Hc. unfold is_whitespace.
  destruct (N.eqb_spec c 32); [lia|].
  destruct (N.leb_spec c 13); [lia|]. by rewrite andb_false_r.
Qed.

Lemma above_ascii_bytes_not_whitespace pre :
  forallb (fun b => 128 <=? Byte.to_N b) pre = true ->
  forallb (fun x => negb (is_whitespace (Byte.to_N x))) pre = true.
Proof.
  induction pre as [|b pre IH]; [done|].
  cbn [forallb]. intros [Hb Hpre]%andb_prop.
  apply N.leb_le in Hb. by rewrite above_ascii_not_whitespace, IH.
Qed.

(** Decoding commutes with the removal of trailing ASCII whitespace... *)
Lemma decode_utf8_rstrip bs s :
  decode_utf8 bs = Some s ->
  decode_utf8 (rstrip_by (fun x => is_whitespace (Byte.to_N x)) bs)
  = Some (rstrip_by is_whitespace s).
Proof.
  revert bs s. apply decode_utf8_ind; [done|].
  intros pre rest c s' Hrest IH Hne Hpre [(b & -> & -> & Hb)|[Hc Hall]].
  - cbn [app]. rewrite !rstrip_by_cons.
    destruct (is_whitespace (Byte.to_N b)) eqn:Hw; cbn [andb].
    + destruct (rstrip_by _ rest) as [|b' r'] eqn:Er.
      * injection IH as <-. by rewrite !bool_decide_eq_true_2.
      * apply decode_utf8_nonempty in IH as Hn.
        rewrite !bool_decide_eq_false_2 by done.
        specialize (Hpre (b' :: r')). cbn [app] in Hpre.
        by rewrite Hpre, IH.
    + specialize (Hpre (rstrip_by (fun x => is_whitespace (Byte.to_N x)) rest)).
      cbn [app] in Hpre. by rewrite Hpre, IH.
  - rewrite rstrip_by_keep by by apply above_ascii_bytes_not_whitespace.
    rewrite Hpre, IH, rstrip_by_cons, above_ascii_not_whitespace by done.
    done.
Qed.

(** ... and of leading ASCII whitespace. *)
Lemma decode_utf8_lstrip bs s :
  decode_utf8 bs = Some s ->
  decode_utf8 (lstrip_by (fun x => is_whitespace (Byte.to_N x)) bs)
  = Some (lstrip_by is_whitespace s).
Proof.
  revert bs s. apply decode_utf8_ind; [done|].
  intros pre rest c s' Hrest IH Hne Hpre [(b & -> & -> & Hb)|[Hc Hall]].
  - cbn [app lstrip_by].
    destruct (is_whitespace (Byte.to_N b)) eqn:Hw; [done|].
    specialize (Hpre rest). cbn [app] in Hpre. by rewrite Hpre, Hrest.
  - destruct pre as [|b pre]; [done|].
    cbn [app lstrip_by forallb] in *. apply andb_prop in Hall as [Hb _].
    apply N.leb_le in Hb.
    rewrite !above_ascii_not_whitespace by done.
    specialize (Hpre rest). cbn [app] in Hpre. by rewrite Hpre, Hrest.
Qed.

(** Stripping the bytes, then decoding, is decoding, then trimming. *)
Lemma decode_utf8_strip bs s :
  decode_utf8 bs = Some s -> decode_utf8 (strip bs) = Some (trimmed s).
Proof.
  intros Hs. unfold strip, trimmed, strip_by.
  by apply decode_utf8_lstrip, decode_utf8_rstrip.
Qed.

(** The test of the code and the whitespace of the specification. *)
Lemma is_whitespace_spec c : is_whitespace c = true <-> c ∈ whitespace.
Proof.
  unfold is_whitespace, whitespace.
  rewrite !elem_of_cons, elem_of_nil, orb_true_iff, andb_true_iff,
    N.eqb_eq, !N.leb_le. lia.
Qed.

Lemma forallb_whitespace l :
  forallb is_whitespace l = true -> Forall (fun c => c ∈ whitespace) l.
Proof.
  induction l as [|c l IH]; cbn [forallb]; [constructor|].
  intros [Hc Hl]%andb_prop. constructor; [by apply is_whitespace_spec|auto].
Qed.

Lemma trimmed_trimming (s : str) : trimming s (trimmed s).
Proof.
  destruct (trimmed_spec s) as (l & r & Hs & Hl & Hr & Hhead & Hlast).
  exists l, r. split; [done|].
  split; [by apply forallb_whitespace|].
  split; [by apply forallb_whitespace|].
  split; intros c Hc Hin; apply is_whitespace_spec in Hin.
  - by rewrite (Hhead c Hc) in Hin.
  - by rewrite (Hlast c Hc) in Hin.
Qed.

(** C2. In CI mode, when the describe query returns the bytes of a tag
    string, the version the script resolves is that string without the
    whitespace around it; nothing is written yet. *)
Theorem ci_version_is_trimmed_tag (w : world) (s : state)
    (out : list byte) (tag : str) :
  is_ci w = true ->
  git_describe w = Returned out ->
  decode_utf8 out = Some tag ->
  exists v s', version w s = (Normal v, s') /\ trimming tag v /\
               fs s' = fs s.
Proof.
  intros Hci Hgit Htag. unfold version, check_output. rewrite Hci, Hgit.
  apply decode_utf8_strip in Htag.
  exists (trimmed tag). eexists.
  unfold mbind, M_bind, try_except, print, decode, mret, M_ret.
  rewrite Htag. split; [reflexivity|].
  split; [apply trimmed_trimming|reflexivity].
Qed.

(** ** The two aborts of CI mode *)

(** The version block ends in [env.Exit] only through one of the two
    [except] clauses. *)
Lemma version_exit (w : world) (s : state) (c : Z) :
  fst (version w s) = Exit c ->
  is_ci w = true /\
  ((exists rc shown, git_describe w = Failed (CalledProcessError rc shown)) \/
   git_describe w = Failed FileNotFoundError).
Proof.
  run_script. destruct (is_ci w); [|done]. split; [done|].
  destruct (git_describe w) as [out|e]; cbn.
  - by destruct (decode_utf8 (strip out)).
  - destruct e; cbn; try done; eauto.
Qed.

(** What follows the version block never calls [env.Exit]. *)
Lemma mkdir_not_exit wd p s c : fst (mkdir wd p s) <> Exit c.
Proof.
  unfold mkdir. destruct (namei (fs s) wd p) as [| | |[]]; done.
Qed.

Lemma makedirs_not_exit fuel wd p s c : fst (makedirs fuel wd p s) <> Exit c.
Proof.
  revert p s. induction fuel as [|fuel IH]; intros p s; [done|].
  cbn [makedirs]. destruct (split p) as [h t].
  destruct (if bool_decide (t = []) then split h else (h, t)) as [h' t'].
  destruct (negb (bool_decide (h' = [])) && negb (bool_decide (t' = [])));
    [|apply mkdir_not_exit].
  destruct (exists_ (fs s) wd h'); [apply mkdir_not_exit|].
  unfold mbind, M_bind, try_except, mret, M_ret.
  specialize (IH h' s). destruct (makedirs fuel wd h' s) as [[[]|e|c'] s1];
    cbn [fst] in *.
  - destruct (bool_decide (t' = lit ".")). 1: by cbn. apply mkdir_not_exit.
  - destruct e; try done.
    destruct (bool_decide (t' = lit ".")); [by cbn|apply mkdir_not_exit].
  - done.
Qed.

Lemma open_write_not_exit wd path enc text (k : M unit) s c :
  (forall s', fst (k s') <> Exit c) ->
  fst ((f ← open_w wd path ; write enc f text ;; k) s) <> Exit c.
Proof.
  intros Hk. unfold open_w, write, mbind, M_bind.
  destruct (namei (fs s) wd path) as [|? []|? ? []|[]]; try done;
    cbn [fs]; (destruct (encode enc text); [|done]);
    rewrite lookup_insert_eq; apply Hk.
Qed.

Lemma emit_not_exit w v s c : fst (emit w v s) <> Exit c.
Proof.
  unfold emit. unfold mbind at 1, M_bind at 1.
  destruct (negb (isdir (fs s) (cwd w) (include_dir w))).
  - pose proof (makedirs_not_exit (S (stack_room w)) (cwd w)
                  (include_dir w) s c) as Hm.
    destruct (makedirs _ _ _ s) as [[[]|e|c'] s1]; cbn [fst] in *; try done.
    by apply open_write_not_exit.
  - by apply open_write_not_exit.
Qed.

(** The run when the describe query exits with a non-zero status... *)
Lemma get_version_untagged (w : world) (s : state) rc shown :
  is_ci w = true ->
  git_describe w = Failed (CalledProcessError rc shown) ->
  get_version w s =
    (Exit 1, {| fs := fs s;
                stdout := (stdout s ++
                  [lit "CI environment detected. Getting version from git tag."])
                  ++ untagged_diagnostic shown |}).
Proof.
  intros Hci Hg. run_script. rewrite Hci, Hg. cbn [fs stdout].
  by rewrite <- (app_assoc _ [_] [_]).
Qed.

(** ... and when there is no git executable. *)
Lemma get_version_no_git (w : world) (s : state) :
  is_ci w = true ->
  git_describe w = Failed FileNotFoundError ->
  get_version w s =
    (Exit 1, {| fs := fs s;
                stdout := (stdout s ++
                  [lit "CI environment detected. Getting version from git tag."])
                  ++ no_git_diagnostic |}).
Proof. intros Hci Hg. run_script. by rewrite Hci, Hg. Qed.

(** A run ends in [env.Exit] only in CI mode, through one of the two
    [except] clauses. *)
Lemma get_version_exit (w : world) (s : state) (c : Z) :
  fst (get_version w s) = Exit c ->
  is_ci w = true /\
  ((exists rc shown, git_describe w = Failed (CalledProcessError rc shown)) \/
   git_describe w = Failed FileNotFoundError).
Proof.
  intros Hc. unfold get_version, mbind, M_bind in Hc.
  destruct (version w s) as [[v|e|c'] s1] eqn:Hv.
  - by destruct (emit_not_exit w v s1 c).
  - done.
  - apply (version_exit w s c'). by rewrite Hv.
Qed.

(** A run that ends in [env.Exit] has written nothing. *)
Lemma exit_leaves_files (w : world) (s s' : state) (c : Z) :
  get_version w s = (Exit c, s') -> fs s' = fs s.
Proof.
  intros Hrun.
  destruct (get_version_exit w s c) as [Hci [(rc & shown & Hg)|Hg]];
    [by rewrite Hrun| |].
  - rewrite (get_version_untagged _ _ _ _ Hci Hg) in Hrun. by injection Hrun as _ <-.
  - rewrite (get_version_no_git _ _ Hci Hg) in Hrun. by injection Hrun as _ <-.
Qed.

(** C7. When a run in CI mode aborts, because the revision is not tagged
    or git is missing, the file system is as it was before the run: no
    directory was made and no file written, so an earlier version.h is
    unchanged. *)
Theorem abort_writes_nothing (w : world) (s : state) :
  is_ci w = true ->
  (exists rc shown, git_describe w = Failed (CalledProcessError rc shown)) \/
  git_describe w = Failed FileNotFoundError ->
  exists s', get_version w s = (Exit 1, s') /\
    fs s' = fs s /\
    read_file (fs s') (cwd w) (version_file_path w)
    = read_file (fs s) (cwd w) (version_file_path w).
Proof.
  intros Hci [(rc & shown & Hg)|Hg].
  - rewrite (get_version_untagged _ _ _ _ Hci Hg). by eexists.
  - rewrite (get_version_no_git _ _ Hci Hg). by eexists.
Qed.

(** ** The header text *)

(** C5. For every version, the header text is the line [#pragma once],
    an empty line, and the line [#define FIRMWARE_VERSION] with the
    version between double quotes, each ended by one newline, and nothing
    else: the text ends with the closing quote and a single newline. *)
Theorem header_content_lines (v : str) :
  header_content v =
    line (lit "#pragma once") ++
    line [] ++
    line (lit "#define FIRMWARE_VERSION " ++ DQ ++ v ++ DQ) /\
  (exists body, header_content v = body ++ v ++ DQ ++ NL) /\
  length (header_content v) = (42 + length v)%nat.
Proof.
  unfold header_content, line. split; [|split].
  - by rewrite <- !app_assoc.
  - eexists. by rewrite !app_assoc.
  - rewrite !length_app.
    change (length (lit "#pragma once")) with 12%nat.
    change (length (lit "#define FIRMWARE_VERSION ")) with 25%nat.
    change (length NL) with 1%nat. change (length DQ) with 1%nat. lia.
Qed.

(** ** The development version *)

(** A property checked for every number below a bound. *)
Lemma forall_below (P : N -> bool) (k : N) :
  forallb P (map N.of_nat (seq 0 (N.to_nat k))) = true ->
  forall n, n < k -> P n = true.
Proof.
  intros H n Hn. rewrite forallb_forall in H. apply H.
  apply in_map_iff. exists (N.to_nat n). split; [lia|].
  apply in_seq. lia.
Qed.

Lemma is_numeral_spec w n s : is_numeral w n s = true -> numeral w n s.
Proof.
  unfold is_numeral, numeral.
  intros [[H1%bool_decide_eq_true H2]%andb_prop H3%N.eqb_eq]%andb_prop. done.
Qed.

(** Two digits for the numbers below 100 once padded, four for those from
    1000 to 9999 as they are. *)
Lemma zero_pad_2 n : n < 100 -> numeral 2 n (zero_pad 2 (decimal n)).
Proof.
  intros Hn. apply is_numeral_spec.
  apply (forall_below (fun n => is_numeral 2 n (zero_pad 2 (decimal n))) 100);
    [by vm_compute|done].
Qed.

Lemma decimal_4 n : 1000 <= n -> n < 10000 -> numeral 4 n (decimal n).
Proof.
  intros Hlo Hn. apply is_numeral_spec.
  pose proof (forall_below
    (fun n => (n <? 1000) || is_numeral 4 n (decimal n)) 10000) as H.
  cbv beta in H. specialize (H ltac:(by vm_compute) n Hn).
  apply orb_prop in H as [H%N.ltb_lt|H]; [lia|done].
Qed.

(** The format of line 40, conversion by conversion. *)
Lemma dev_version_fields (t : datetime) :
  dev_version t =
    lit "dev-" ++ decimal (year t)
    ++ zero_pad 2 (decimal (month t)) ++ zero_pad 2 (decimal (day t))
    ++ lit "-" ++ zero_pad 2 (decimal (hour t))
    ++ zero_pad 2 (decimal (minute t)) ++ zero_pad 2 (decimal (second t)).
Proof.
  rewrite <- (app_nil_r (zero_pad 2 (decimal (second t)))).
  vm_compute. reflexivity.
Qed.

Lemma valid_datetime_bounds (t : datetime) :
  valid_datetime t = true ->
  year t < 10000 /\ month t < 100 /\ day t < 100 /\
  hour t < 100 /\ minute t < 100 /\ second t < 100.
Proof.
  unfold valid_datetime. intros H. bool_facts.
  assert (days_in_month (year t) (month t) <= 31).
  { unfold days_in_month. repeat case_match; lia. }
  repeat split; lia.
Qed.

Lemma fullmatch_app p1 p2 s1 s2 :
  length p1 = length s1 ->
  fullmatch (p1 ++ p2) (s1 ++ s2) = fullmatch p1 s1 && fullmatch p2 s2.
Proof.
  revert s1. induction p1 as [|a p1 IH]; intros [|c s1] Hl; try done.
  cbn [app fullmatch]. rewrite IH by (simpl in Hl; lia).
  by rewrite andb_assoc.
Qed.

Lemma fullmatch_digits s :
  forallb is_digit s = true -> fullmatch (repeat Digit (length s)) s = true.
Proof.
  induction s as [|c s IH]; [done|].
  cbn [forallb length repeat fullmatch atom_matches].
  intros [-> H]%andb_prop. by apply IH.
Qed.

Lemma numeral_fullmatch w n s :
  numeral w n s -> fullmatch (repeat Digit w) s = true.
Proof. intros (<- & H & _). by apply fullmatch_digits. Qed.

Lemma repeat_add {A} (x : A) n m :
  repeat x (n + m) = repeat x n ++ repeat x m.
Proof. apply repeat_app. Qed.

(** The development version of a clock reading from the year 1000 on:
    its six fields on 4, 2, 2, 2, 2 and 2 digits. *)
Lemma dev_version_format (t : datetime) :
  valid_datetime t = true ->
  1000 <= year t ->
  exists Y Mo D H Mi S,
    dev_version t = lit "dev-" ++ Y ++ Mo ++ D ++ lit "-" ++ H ++ Mi ++ S /\
    numeral 4 (year t) Y /\ numeral 2 (month t) Mo /\ numeral 2 (day t) D /\
    numeral 2 (hour t) H /\ numeral 2 (minute t) Mi /\
    numeral 2 (second t) S.
Proof.
  intros (HY & HMo & HD & HH & HMi & HS)%valid_datetime_bounds Hlo.
  do 6 eexists. split; [apply dev_version_fields|].
  repeat split; by (apply decimal_4 || apply zero_pad_2).
Qed.

Lemma fields_match_dev_pattern Y Mo D H Mi S y mo d h mi s :
  numeral 4 y Y -> numeral 2 mo Mo -> numeral 2 d D ->
  numeral 2 h H -> numeral 2 mi Mi -> numeral 2 s S ->
  fullmatch dev_pattern
    (lit "dev-" ++ Y ++ Mo ++ D ++ lit "-" ++ H ++ Mi ++ S) = true.
Proof.
  intros HY HMo HD HH HMi HS. unfold dev_pattern.
  change (repeat Digit 8) with (repeat Digit 4 ++ repeat Digit 2 ++ repeat Digit 2).
  change (repeat Digit 6) with (repeat Digit 2 ++ repeat Digit 2 ++ repeat Digit 2).
  rewrite <- !app_assoc.
  pose proof HY as (LY & _). pose proof HMo as (LMo & _).
  pose proof HD as (LD & _). pose proof HH as (LH & _).
  pose proof HMi as (LMi & _). pose proof HS as (LS & _).
  rewrite fullmatch_app by done.
  rewrite fullmatch_app by (by rewrite repeat_length).
  rewrite fullmatch_app by (by rewrite repeat_length).
  rewrite fullmatch_app by (by rewrite repeat_length).
  rewrite fullmatch_app by done.
  rewrite fullmatch_app by (by rewrite repeat_length).
  rewrite fullmatch_app by (by rewrite repeat_length).
  rewrite (numeral_fullmatch _ _ _ HY), (numeral_fullmatch _ _ _ HMo),
    (numeral_fullmatch _ _ _ HD), (numeral_fullmatch _ _ _ HH),
    (numeral_fullmatch _ _ _ HMi), (numeral_fullmatch _ _ _ HS).
  by vm_compute.
Qed.

(** In local mode the version block returns the development version of
    the clock and touches no file. *)
Lemma version_local (w : world) (s : state) :
  is_ci w = false ->
  version w s =
    (Normal (dev_version (clock w)),
     {| fs := fs s;
        stdout := stdout s ++
          [lit "Local build detected. Creating dev version string."] |}).
Proof. intros Hci. run_script. by rewrite Hci. Qed.

(** C4. In local mode, for a clock reading from the year 1000 on, the
    version is the reading written as [dev-], the year on four digits,
    the month and the day on two digits each, a dash, and the hour, minute
    and second on two digits each; it matches [dev-\d{8}-\d{6}]. *)
Theorem local_version_format (w : world) (s : state) :
  is_ci w = false ->
  valid_datetime (clock w) = true ->
  1000 <= year (clock w) ->
  exists v s' Y Mo D H Mi S,
    version w s = (Normal v, s') /\
    v = lit "dev-" ++ Y ++ Mo ++ D ++ lit "-" ++ H ++ Mi ++ S /\
    numeral 4 (year (clock w)) Y /\ numeral 2 (month (clock w)) Mo /\
    numeral 2 (day (clock w)) D /\ numeral 2 (hour (clock w)) H /\
    numeral 2 (minute (clock w)) Mi /\ numeral 2 (second (clock w)) S /\
    fullmatch dev_pattern v = true.
Proof.
  intros Hci Hvalid Hyear.
  destruct (dev_version_format _ Hvalid Hyear)
    as (Y & Mo & D & H & Mi & S & Hv & HY & HMo & HD & HH & HMi & HS).
  exists (dev_version (clock w)). eexists. exists Y, Mo, D, H, Mi, S.
  split; [by apply version_local|].
  repeat split; try done; try apply HY; try apply HMo; try apply HD;
    try apply HH; try apply HMi; try apply HS.
  rewrite Hv. by eapply fields_match_dev_pattern.
Qed.

(** ** The order of development versions *)

Lemma lex_compare_refl a : lex_compare a a = Eq.
Proof. induction a as [|x a IH]; [done|]. simpl. by rewrite N.compare_refl. Qed.

Lemma lex_compare_eq a b : lex_compare a b = Eq <-> a = b.
Proof.
  split; [|intros ->; apply lex_compare_refl].
  revert b. induction a as [|x a IH]; intros [|y b]; try done. simpl.
  destruct (N.compare_spec x y) as [->| |]; try done.
  intros Hab. f_equal. by apply IH.
Qed.

(** Comparison goes through a common-length prefix first. *)
Lemma lex_compare_app x y r1 r2 :
  length x = length y ->
  lex_compare (x ++ r1) (y ++ r2) =
  match lex_compare x y with
  | Eq => lex_compare r1 r2
  | c => c
  end.
Proof.
  revert y. induction x as [|a x IH]; intros [|b y] Hl; try done.
  cbn [app lex_compare]. destruct (a ?= b); try done.
  apply IH. simpl in Hl. lia.
Qed.

Lemma digits_value_acc s a :
  fold_left (fun a c => 10 * a + (c - 48)) s a
  = a * 10 ^ N.of_nat (length s) + digits_value s.
Proof.
  unfold digits_value. revert a. induction s as [|c s IH]; intros a.
  - simpl. lia.
  - cbn [fold_left length]. rewrite IH, (IH (10 * 0 + (c - 48))).
    rewrite Nat2N.inj_succ, N.pow_succ_r'. lia.
Qed.

Lemma digits_value_cons c s :
  digits_value (c :: s) = (c - 48) * 10 ^ N.of_nat (length s) + digits_value s.
Proof.
  unfold digits_value at 1. cbn [fold_left]. rewrite digits_value_acc. lia.
Qed.

Lemma digits_value_bound s :
  forallb is_digit s = true -> digits_value s < 10 ^ N.of_nat (length s).
Proof.
  induction s as [|c s IH]; [by vm_compute|].
  cbn [forallb length]. intros [Hc Hs]%andb_prop.
  rewrite digits_value_cons, Nat2N.inj_succ, N.pow_succ_r'.
  specialize (IH Hs). unfold is_digit in Hc. bool_facts. nia.
Qed.

(** Numerals of one width are ordered as the numbers they denote. *)
Lemma lex_compare_digits x y :
  length x = length y ->
  forallb is_digit x = true -> forallb is_digit y = true ->
  lex_compare x y = (digits_value x ?= digits_value y).
Proof.
  revert y. induction x as [|a x IH]; intros [|b y] Hl; try done.
  cbn [forallb lex_compare]. intros [Ha Hx]%andb_prop [Hb Hy]%andb_prop.
  injection Hl as Hl.
  rewrite !digits_value_cons, <- Hl.
  pose proof (digits_value_bound x Hx) as Bx.
  pose proof (digits_value_bound y Hy) as By. rewrite <- Hl in By.
  specialize (IH y Hl Hx Hy).
  unfold is_digit in Ha, Hb. bool_facts.
  set (p := 10 ^ N.of_nat (length x)) in *.
  destruct (N.compare_spec a b) as [->|Hab|Hab].
  - rewrite IH. destruct (N.compare_spec (digits_value x) (digits_value y));
      symmetry; [apply N.compare_eq_iff|apply N.compare_lt_iff|apply N.compare_gt_iff]; nia.
  - symmetry. apply N.compare_lt_iff. nia.
  - symmetry. apply N.compare_gt_iff. nia.
Qed.

Lemma lex_compare_numeral w a b x y :
  numeral w a x -> numeral w b y -> lex_compare x y = (a ?= b).
Proof.
  intros (Lx & Dx & <-) (Ly & Dy & <-).
  apply lex_compare_digits; [congruence|done|done].
Qed.

(** From the year 1000 on, development versions compare as the clock
    readings they were made from, taken to the second. *)
Lemma dev_version_compare (t1 t2 : datetime) :
  valid_datetime t1 = true -> valid_datetime t2 = true ->
  1000 <= year t1 -> 1000 <= year t2 ->
  lex_compare (dev_version t1) (dev_version t2)
  = lex_compare (to_second t1) (to_second t2).
Proof.
  intros Hv1 Hv2 Hy1 Hy2.
  destruct (dev_version_format t1 Hv1 Hy1)
    as (Y1 & Mo1 & D1 & H1 & Mi1 & S1 & -> & HY1 & HMo1 & HD1 & HH1 & HMi1 & HS1).
  destruct (dev_version_format t2 Hv2 Hy2)
    as (Y2 & Mo2 & D2 & H2 & Mi2 & S2 & -> & HY2 & HMo2 & HD2 & HH2 & HMi2 & HS2).
  pose proof HY1 as (? & _). pose proof HMo1 as (? & _).
  pose proof HD1 as (? & _). pose proof HH1 as (? & _).
  pose proof HMi1 as (? & _). pose proof HS1 as (? & _).
  pose proof HY2 as (? & _). pose proof HMo2 as (? & _).
  pose proof HD2 as (? & _). pose proof HH2 as (? & _).
  pose proof HMi2 as (? & _). pose proof HS2 as (? & _).
  rewrite lex_compare_app, lex_compare_refl by done.
  rewrite lex_compare_app, (lex_compare_numeral _ _ _ _ _ HY1 HY2) by congruence.
  rewrite lex_compare_app, (lex_compare_numeral _ _ _ _ _ HMo1 HMo2) by congruence.
  rewrite lex_compare_app, (lex_compare_numeral _ _ _ _ _ HD1 HD2) by congruence.
  rewrite lex_compare_app, lex_compare_refl by done.
  rewrite lex_compare_app, (lex_compare_numeral _ _ _ _ _ HH1 HH2) by congruence.
  rewrite lex_compare_app, (lex_compare_numeral _ _ _ _ _ HMi1 HMi2) by congruence.
  rewrite (lex_compare_numeral _ _ _ _ _ HS1 HS2).
  unfold to_second. cbn [lex_compare].
  repeat (match goal with |- context [?a ?= ?b] => destruct (a ?= b) end; try done).
Qed.

(** A reading that is not earlier is not earlier to the second either. *)
Lemma not_earlier_to_second (t1 t2 : datetime) :
  not_earlier t2 t1 -> lex_le (to_second t1) (to_second t2).
Proof.
  unfold not_earlier, lex_le, reading.
  rewrite lex_compare_app by done.
  destruct (lex_compare (to_second t1) (to_second t2)); done.
Qed.

(** X18. For two local-mode runs from the year 1000 on, where the clock
    reading of the second is not earlier than that of the first, the
    versions are in non-decreasing lexicographic order; they differ
    exactly when the two readings differ in a field down to the second,
    and then the second version is strictly greater. *)
Theorem local_versions_monotone (w1 w2 : world) (s1 s2 : state) :
  is_ci w1 = false -> is_ci w2 = false ->
  valid_datetime (clock w1) = true -> valid_datetime (clock w2) = true ->
  1000 <= year (clock w1) -> 1000 <= year (clock w2) ->
  not_earlier (clock w2) (clock w1) ->
  exists v1 v2 s1' s2',
    version w1 s1 = (Normal v1, s1') /\ version w2 s2 = (Normal v2, s2') /\
    lex_le v1 v2 /\
    (v1 <> v2 <-> to_second (clock w1) <> to_second (clock w2)) /\
    (to_second (clock w1) <> to_second (clock w2) -> lex_lt v1 v2).
Proof.
  intros Hci1 Hci2 Hv1 Hv2 Hy1 Hy2 Hle.
  exists (dev_version (clock w1)), (dev_version (clock w2)).
  do 2 eexists. split; [by apply version_local|].
  split; [by apply version_local|].
  apply not_earlier_to_second in Hle.
  pose proof (dev_version_compare _ _ Hv1 Hv2 Hy1 Hy2) as Hcmp.
  unfold lex_le, lex_lt in *. rewrite Hcmp.
  split; [done|]. split.
  - by rewrite <- !lex_compare_eq, Hcmp.
  - intros Hne. rewrite <- lex_compare_eq in Hne.
    by destruct (lex_compare (to_second (clock w1)) (to_second (clock w2))).
Qed.

(** ** Path resolution *)

Lemma components_nonempty s : components s <> [].
Proof.
  destruct s as [|c s]; [done|]. simpl.
  destruct (c =? SEP); [done|]. by destruct (components s).
Qed.

(** The components of a path cut at a separator. *)
Lemma components_app a b :
  components (a ++ SEP :: b) = components a ++ components b.
Proof.
  induction a as [|c a IH]; [done|].
  cbn [app components]. rewrite IH.
  destruct (c =? SEP); [done|].
  pose proof (components_nonempty a). by destruct (components a).
Qed.

Lemma components_no_sep s : no_sep s = true -> components s = [s].
Proof.
  induction s as [|c s IH]; [done|].
  cbn [no_sep forallb components]. intros [Hc Hs]%andb_prop.
  apply negb_true_iff in Hc. rewrite Hc. fold (no_sep s) in Hs.
  by rewrite (IH Hs).
Qed.

Lemma components_seps x t :
  forallb (N.eqb SEP) t = true ->
  components (x ++ t) = components x ++ repeat [] (length t).
Proof.
  revert x. induction t as [|c t IH]; intros x.
  - intros _. by rewrite !app_nil_r.
  - cbn [forallb length repeat]. intros [Hc Ht]%andb_prop.
    apply N.eqb_eq in Hc as <-.
    pose proof (IH [] Ht) as H. cbn [app components] in H.
    by rewrite components_app, H.
Qed.

Lemma namei_step_at_dir fs st c :
  at_dir (namei_step fs st c) = true -> at_dir st = true.
Proof.
  destruct st as [p|p sl|p n sl|e]; try done; simpl;
    by destruct (bool_decide (c = [])).
Qed.

(** Resolution never comes back to a directory once it has left them. *)
Lemma walk_at_dir fs cs st :
  at_dir (fold_left (namei_step fs) cs st) = true -> at_dir st = true.
Proof.
  revert st. induction cs as [|c cs IH]; intros st; [done|].
  simpl. intros H. by apply IH, namei_step_at_dir in H.
Qed.

Lemma namei_step_empty fs st q :
  namei_step fs st [] = AtDir q -> st = AtDir q.
Proof. destruct st; simpl; intros H; by simplify_eq. Qed.

Lemma walk_empties fs k st q :
  fold_left (namei_step fs) (repeat [] k) st = AtDir q -> st = AtDir q.
Proof.
  revert st. induction k as [|k IH]; intros st; [done|].
  simpl. intros H. by apply IH, namei_step_empty in H.
Qed.

(** An empty component before a name changes nothing. *)
Lemma namei_step_empty_then fs st c :
  c <> [] -> namei_step fs (namei_step fs st []) c = namei_step fs st c.
Proof.
  intros Hc. destruct st as [p|p sl|p n sl|e]; try done; simpl;
    by rewrite bool_decide_eq_false_2.
Qed.

Lemma namei_step_name fs st v :
  plain_name v ->
  namei_step fs st v =
    match st with
    | AtDir p =>
        match fs !! (p ++ [v]) with
        | Some Dir => AtDir (p ++ [v])
        | Some (File _) => AtFile (p ++ [v]) false
        | None => AtMissing p v false
        end
    | AtFile _ _ => Stuck ENOTDIR
    | AtMissing _ _ _ => Stuck ENOENT
    | Stuck e => Stuck e
    end.
Proof.
  intros (H1 & H2 & H3 & _ & H5). destruct st; try done; simpl;
    by rewrite ?bool_decide_eq_false_2, ?H5.
Qed.

Lemma startswith_sep_app d x :
  d <> [] -> startswith_sep (d ++ x) = startswith_sep d.
Proof. by destruct d. Qed.

Lemma namei_start_app fs wd d x :
  d <> [] -> namei_start fs wd (d ++ x) = namei_start fs wd d.
Proof. intros Hd. unfold namei_start. by rewrite startswith_sep_app. Qed.

(** The walk along a path cut at a separator: first what is before it,
    then the components after it. *)
Lemma walk_app_sep fs wd d b :
  d <> [] ->
  walk fs wd (d ++ SEP :: b)
  = fold_left (namei_step fs) (components b) (walk fs wd d).
Proof.
  intros Hd. unfold walk.
  destruct d as [|c d]; [done|]. cbn [app].
  change (c :: d ++ SEP :: b) with ((c :: d) ++ SEP :: b).
  by rewrite components_app, fold_left_app, namei_start_app.
Qed.

Lemma walk_root fs wd : walk fs wd [SEP] = AtDir [].
Proof. done. Qed.

Lemma walk_abs fs wd b :
  walk fs wd (SEP :: b) = fold_left (namei_step fs) (components b) (AtDir []).
Proof. done. Qed.

Lemma endswith_sep_inv d : endswith_sep d = true -> exists d', d = d' ++ [SEP].
Proof.
  unfold endswith_sep. intros H. exists (rev (tail (rev d))).
  destruct (rev d) as [|c r] eqn:Hr; [done|].
  simpl in H. apply N.eqb_eq in H as ->.
  rewrite <- (rev_involutive d), Hr. done.
Qed.

Lemma plain_name_not_abs v : plain_name v -> startswith_sep v = false.
Proof.
  intros (Hv1 & _ & _ & Hv4 & _).
  destruct v as [|c v]; [done|]. simpl in *.
  apply andb_prop in Hv4 as [Hc _]. by apply negb_true_iff in Hc.
Qed.

(** [os.path.join] with a file name: the name is resolved in what the
    directory path resolves to. *)
Lemma walk_join fs wd d v :
  d <> [] -> plain_name v ->
  walk fs wd (join d v) = namei_step fs (walk fs wd d) v.
Proof.
  intros Hd Hv. pose proof Hv as (Hv1 & _ & _ & Hv4 & _). unfold join.
  rewrite plain_name_not_abs by done.
  rewrite bool_decide_eq_false_2 by done. cbn [orb].
  destruct (endswith_sep d) eqn:He.
  - apply endswith_sep_inv in He as [d' ->].
    rewrite <- app_assoc. cbn [app].
    destruct d' as [|c d'].
    + cbn [app]. by rewrite walk_abs, walk_root, components_no_sep.
    + rewrite !walk_app_sep by done. rewrite components_no_sep by done.
      cbn [components fold_left]. by rewrite namei_step_empty_then.
  - change (d ++ [SEP] ++ v) with (d ++ SEP :: v).
    rewrite walk_app_sep by done. by rewrite components_no_sep.
Qed.

Lemma walk_join_sep fs wd d v :
  d <> [] -> plain_name v ->
  walk fs wd (join d v) = walk fs wd (d ++ [SEP] ++ v).
Proof.
  intros Hd Hv. rewrite walk_join by done.
  change (d ++ [SEP] ++ v) with (d ++ SEP :: v).
  rewrite walk_app_sep by done. destruct Hv as (_ & _ & _ & Hv & _).
  by rewrite components_no_sep.
Qed.

(** ** What Python and the kernel refuse *)

(** Every encoding of the model has ASCII as it is. *)
Lemma encode_cp_ascii enc c : c < 128 -> encode_cp enc c = Some [byte_of c].
Proof.
  intros Hc. pose proof Hc as Hc'%N.ltb_lt. unfold encode_cp.
  destruct enc; rewrite ?Hc'; [done| |done].
  destruct (N.ltb_spec c 256); [done|lia].
Qed.

Lemma fsencode_ascii s :
  forallb (fun c => c <? 128) s = true -> fsencode s = Some (ascii_bytes s).
Proof.
  induction s as [|c s IH]; [done|]. cbn [forallb fsencode].
  intros [Hc%N.ltb_lt Hs]%andb_prop. rewrite (IH Hs).
  unfold fsencode_cp.
  destruct (N.leb_spec 56448 c) as [?|_]; [lia|]. cbn [andb].
  by rewrite encode_cp_ascii.
Qed.

(** An ASCII path without null character and of less than PATH_MAX
    characters is not refused, and an ASCII name of at most NAME_MAX
    characters is not too long. *)
Lemma refusal_ascii s :
  forallb (fun c => (0 <? c) && (c <? 128)) s = true ->
  N.of_nat (length s) < PATH_MAX ->
  refusal s = None.
Proof.
  intros Hs Hlen. unfold refusal.
  rewrite fsencode_ascii.
  - assert (existsb (N.eqb 0) s = false) as ->.
    { induction s as [|c s IH]; [done|]. cbn [forallb existsb] in *.
      apply andb_prop in Hs as [[Hc%N.ltb_lt _]%andb_prop Hs].
      rewrite IH by (done || cbn [length] in Hlen; lia).
      destruct (N.eqb_spec 0 c); [lia|done]. }
    unfold ascii_bytes. rewrite length_map.
    by destruct (N.leb_spec PATH_MAX (N.of_nat (length s))); [lia|].
  - clear Hlen. induction s as [|c s IH]; [done|]. cbn [forallb] in *.
    apply andb_prop in Hs as [[_ ->]%andb_prop Hs]. by apply IH.
Qed.

Lemma name_too_long_ascii s :
  forallb (fun c => c <? 128) s = true ->
  N.of_nat (length s) <= NAME_MAX ->
  name_too_long s = false.
Proof.
  intros Hs Hlen. unfold name_too_long. rewrite fsencode_ascii by done.
  unfold ascii_bytes. rewrite length_map. by apply N.ltb_ge.
Qed.

Lemma fsencode_app a b :
  fsencode (a ++ b) =
    match fsencode a, fsencode b with
    | Some x, Some y => Some (x ++ y)
    | _, _ => None
    end.
Proof.
  induction a as [|c a IH]; cbn [app fsencode].
  - by destruct (fsencode b).
  - rewrite IH. destruct (fsencode_cp c) as [x|]; [|done].
    destruct (fsencode a) as [y|]; [|done].
    destruct (fsencode b) as [z|]; [|done]. by rewrite app_assoc.
Qed.

(** A path that is not refused has no refused beginning. *)
Lemma refusal_app a b : refusal (a ++ b) = None -> refusal a = None.
Proof.
  unfold refusal. rewrite fsencode_app, existsb_app.
  destruct (fsencode a) as [x|]; [|done].
  destruct (fsencode b) as [y|]; [|done].
  destruct (existsb (N.eqb 0) a); [done|]. cbn [orb].
  destruct (existsb (N.eqb 0) b); [done|].
  rewrite length_app.
  destruct (N.leb_spec PATH_MAX (N.of_nat (length x + length y))); [done|].
  intros _. destruct (N.leb_spec PATH_MAX (N.of_nat (length x))); [lia|done].
Qed.

Lemma namei_admitted fs wd p : refusal p = None -> namei fs wd p = walk fs wd p.
Proof. unfold namei. by intros ->. Qed.

Lemma refusal_not_found p : refusal p <> Some ENOENT /\ refusal p <> Some ENOTDIR.
Proof.
  unfold refusal. destruct (fsencode p); [|done].
  destruct (existsb (N.eqb 0) p); [done|]. by destruct (_ <=? _).
Qed.

(** Resolution that ends somewhere, or on a missing name or a regular
    file in the way, is the walk along a path that was not refused. *)
Lemma namei_walk fs wd p :
  match namei fs wd p with
  | Stuck ENAMETOOLONG | Stuck NullCharacter | Stuck Unencodable => True
  | st => refusal p = None /\ walk fs wd p = st
  end.
Proof.
  unfold namei. destruct (refusal_not_found p) as [H1 H2].
  destruct (refusal p) as [[]|]; try done.
  by destruct (walk fs wd p) as [| | |[]].
Qed.

Lemma namei_at_dir fs wd p q :
  namei fs wd p = AtDir q <-> refusal p = None /\ walk fs wd p = AtDir q.
Proof.
  split.
  - intros H. pose proof (namei_walk fs wd p) as Hw. by rewrite H in Hw.
  - intros [Hr Hw]. by rewrite namei_admitted.
Qed.

Lemma version_h_plain : plain_name (lit "version.h").
Proof.
  repeat split; try done. by apply name_too_long_ascii; vm_compute.
Qed.

(** ** Encoding the header *)

Lemma encode_app enc a b :
  encode enc (a ++ b) =
    match encode enc a, encode enc b with
    | Some x, Some y => Some (x ++ y)
    | _, _ => None
    end.
Proof.
  induction a as [|c a IH]; cbn [app encode].
  - by destruct (encode enc b).
  - rewrite IH. destruct (encode_cp enc c) as [x|]; [|done].
    destruct (encode enc a) as [y|]; [|done].
    destruct (encode enc b) as [z|]; [|done]. by rewrite app_assoc.
Qed.

Lemma encode_ascii enc s :
  forallb (fun c => c <? 128) s = true -> encode enc s = Some (ascii_bytes s).
Proof.
  induction s as [|c s IH]; [done|]. cbn [forallb encode].
  intros [Hc%N.ltb_lt Hs]%andb_prop. rewrite (IH Hs).
  by rewrite encode_cp_ascii.
Qed.

(** The header is encoded piece by piece: what is around the version is
    ASCII. *)
Lemma encode_header enc v :
  encode enc (header_content v) =
    (fun b => ascii_bytes (lit "#pragma once" ++ NL ++ NL ++
                           lit "#define FIRMWARE_VERSION " ++ DQ)
              ++ b ++ ascii_bytes (DQ ++ NL))
    <$> encode enc v.
Proof.
  unfold header_content.
  replace (lit "#pragma once" ++ NL ++ NL ++
           lit "#define FIRMWARE_VERSION " ++ DQ ++ v ++ DQ ++ NL)
    with ((lit "#pragma once" ++ NL ++ NL ++
           lit "#define FIRMWARE_VERSION " ++ DQ) ++ v ++ (DQ ++ NL))
    by (by rewrite <- !app_assoc).
  set (pre := lit "#pragma once" ++ NL ++ NL ++
              lit "#define FIRMWARE_VERSION " ++ DQ).
  set (post := DQ ++ NL).
  rewrite (encode_app enc pre), (encode_app enc v post).
  rewrite (encode_ascii enc post) by (by vm_compute).
  rewrite (encode_ascii enc pre) by (by vm_compute).
  by destruct (encode enc v).
Qed.

(** ** Writing the header *)

Lemma walk_keeps_dirs fs fs' cs a q :
  keeps_dirs fs fs' ->
  fold_left (namei_step fs) cs (AtDir a) = AtDir q ->
  fold_left (namei_step fs') cs (AtDir a) = AtDir q.
Proof.
  intros Hk. revert a. induction cs as [|c cs IH]; intros a; [done|].
  cbn [fold_left]. intros H.
  assert (Hd : at_dir (namei_step fs (AtDir a) c) = true).
  { apply (walk_at_dir fs cs). by rewrite H. }
  revert H Hd. cbn [namei_step].
  destruct (bool_decide (c = []) || bool_decide (c = lit "."));
    [intros H _; by apply IH|].
  destruct (bool_decide (c = lit "..")); [intros H _; by apply IH|].
  destruct (name_too_long c); [done|].
  destruct (fs !! (a ++ [c])) as [[|x]|] eqn:E; try done.
  rewrite (Hk _ E). intros H _. by apply IH.
Qed.

(** A path that leads to a directory still does once directories are
    kept. *)
Lemma walk_path_keeps_dirs fs fs' wd d q :
  keeps_dirs fs fs' -> walk fs wd d = AtDir q -> walk fs' wd d = AtDir q.
Proof.
  intros Hk. unfold walk. destruct d as [|c d]; [done|].
  intros H.
  assert (Hd : at_dir (namei_start fs wd (c :: d)) = true).
  { apply (walk_at_dir fs (components (c :: d))). by rewrite H. }
  revert H Hd. unfold namei_start.
  destruct (startswith_sep (c :: d)); [intros H _; by eapply walk_keeps_dirs|].
  unfold dir_at. destruct wd as [|x wd].
  { intros H _; by eapply walk_keeps_dirs. }
  case_bool_decide as Hwd; [|done].
  rewrite (bool_decide_eq_true_2 _ (Hk _ Hwd)).
  intros H _; by eapply walk_keeps_dirs.
Qed.

Lemma namei_keeps_dirs fs fs' wd d q :
  keeps_dirs fs fs' -> namei fs wd d = AtDir q -> namei fs' wd d = AtDir q.
Proof.
  intros Hk [Hr Hw]%namei_at_dir. apply namei_at_dir.
  split; [done|]. by eapply walk_path_keeps_dirs.
Qed.

Lemma keeps_dirs_insert fs k n :
  fs !! k <> Some Dir -> keeps_dirs fs (<[k := n]> fs).
Proof.
  intros Hk k' Hk'. rewrite lookup_insert_ne; [done|]. by intros ->.
Qed.

(** The prefixes of a directory path, cut at a separator, are
    directories. *)
Lemma isdir_prefix fs wd pre post :
  pre <> [] ->
  isdir fs wd (pre ++ [SEP] ++ post) = true -> isdir fs wd pre = true.
Proof.
  intros Hpre. unfold isdir.
  destruct (namei fs wd (pre ++ [SEP] ++ post)) as [q| | |] eqn:H; [|done..].
  intros _. apply namei_at_dir in H as [Hr H].
  rewrite (namei_admitted _ _ _ (refusal_app _ _ Hr)).
  cbn [app] in H. rewrite walk_app_sep in H by done.
  assert (Hd : at_dir (walk fs wd pre) = true).
  { apply (walk_at_dir fs (components post)). by rewrite H. }
  by destruct (walk fs wd pre).
Qed.

(** [os.path.join] with a file name starts with the directory path. *)
Lemma join_prefix d v : plain_name v -> exists x, join d v = d ++ x.
Proof.
  intros Hv. unfold join. rewrite plain_name_not_abs by done.
  destruct (bool_decide (d = []) || endswith_sep d); eauto.
Qed.

Lemma refusal_join d v :
  plain_name v -> refusal (join d v) = None -> refusal d = None.
Proof.
  intros Hv. destruct (join_prefix d v Hv) as [x ->]. apply refusal_app.
Qed.

Lemma namei_join fs wd d v :
  d <> [] -> plain_name v -> refusal (join d v) = None ->
  namei fs wd (join d v) = namei_step fs (namei fs wd d) v.
Proof.
  intros Hd Hv Hr.
  rewrite namei_admitted by done.
  rewrite namei_admitted by (by eapply refusal_join).
  by apply walk_join.
Qed.

(** [os.makedirs] fails on the empty path. *)
Lemma makedirs_empty fuel wd s :
  fst (makedirs (S fuel) wd [] s) = Raise FileNotFoundError.
Proof. done. Qed.

(** The effect of [open] and [write] when they succeed. *)
Lemma open_write_normal wd path enc text (k : M unit) s s' :
  (forall s1 s2, k s1 = (Normal tt, s2) -> fs s2 = fs s1) ->
  (f ← open_w wd path ; write enc f text ;; k) s = (Normal tt, s') ->
  exists f bytes,
    (namei (fs s) wd path = AtFile f false \/
     exists p n, namei (fs s) wd path = AtMissing p n false /\ f = p ++ [n]) /\
    encode enc text = Some bytes /\
    fs s' = <[f := File bytes]> (fs s).
Proof.
  intros Hk. unfold open_w, write, mbind, M_bind.
  destruct (namei (fs s) wd path) as [|f []|p n []|[]] eqn:E; try done;
    cbn [fs]; (destruct (encode enc text) as [bytes|]; [|done]);
    rewrite lookup_insert_eq; cbn [app]; intros H%Hk;
    cbn [fs] in H; rewrite insert_insert_eq in H; eauto 10.
Qed.

Lemma print_fs line s1 s2 : print line s1 = (Normal tt, s2) -> fs s2 = fs s1.
Proof. unfold print. by intros [= <-]. Qed.

(** What a successful [emit] leaves behind. *)
Lemma emit_normal (w : world) (v : str) (s s' : state) :
  emit w v s = (Normal tt, s') ->
  include_dir w <> [] /\
  refusal (version_file_path w) = None /\
  isdir (fs s') (cwd w) (include_dir w) = true /\
  exists bytes,
    encode (text_encoding w) (header_content v) = Some bytes /\
    read_file (fs s') (cwd w) (version_file_path w) = Some bytes.
Proof.
  unfold emit. unfold mbind at 1, M_bind at 1.
  set (step1 := if negb (isdir (fs s) (cwd w) (include_dir w))
                then makedirs (S (stack_room w)) (cwd w) (include_dir w) s
                else (Normal tt, s)).
  destruct step1 as [[[]|e|c] s1] eqn:Hstep1; try done.
  intros Hrest.
  assert (Hd : include_dir w <> []).
  { intros Hnil. subst step1. rewrite Hnil in Hstep1.
    replace (isdir (fs s) (cwd w) []) with false in Hstep1 by done.
    cbn [negb] in Hstep1.
    pose proof (makedirs_empty (stack_room w) (cwd w) s) as He.
    by rewrite Hstep1 in He. }
  split; [done|].
  apply open_write_normal in Hrest as (f & bytes & Hf & Hbytes & Hfs);
    [|intros ? ?; apply print_fs].
  unfold version_file_path in *.
  assert (Hr : refusal (join (include_dir w) (lit "version.h")) = None).
  { pose proof (namei_walk (fs s1) (cwd w)
                  (join (include_dir w) (lit "version.h"))) as Hw.
    destruct Hf as [Hf|(p & n & Hf & _)]; rewrite Hf in Hw; apply Hw. }
  split; [done|].
  rewrite namei_join in Hf by (done || apply version_h_plain).
  rewrite (namei_step_name _ _ _ version_h_plain) in Hf.
  destruct (namei (fs s1) (cwd w) (include_dir w)) as [q| | |] eqn:Hq;
    try (by destruct Hf as [?|(? & ? & ? & ?)]).
  assert (Hfq : f = q ++ [lit "version.h"] /\ fs s1 !! f <> Some Dir).
  { destruct (fs s1 !! (q ++ [lit "version.h"])) as [[|x]|] eqn:E;
      destruct Hf as [Hf|(p & n & Hf & ->)]; try done.
    - injection Hf as <-. by rewrite E.
    - injection Hf as <- <-. by rewrite E. }
  destruct Hfq as [-> Hnd].
  assert (Hq' : namei (fs s') (cwd w) (include_dir w) = AtDir q).
  { rewrite Hfs. eapply namei_keeps_dirs; [|done]. by apply keeps_dirs_insert. }
  split; [unfold isdir; by rewrite Hq'|].
  exists bytes. split; [done|].
  unfold read_file. rewrite namei_join by (done || apply version_h_plain).
  rewrite Hq', (namei_step_name _ _ _ version_h_plain).
  by rewrite Hfs, !lookup_insert_eq.
Qed.

(** C6. After every run that succeeds, the header is in the file
    version.h of the include directory: the directory is the setting
    PROJECT_INCLUDE_DIR of the environment, or [include] without it; the
    path written is within the limits of the system and resolves to where
    [<include_dir>/version.h] leads; the include
    directory exists, and so does every leading part of its path; and the
    file holds exactly the header text of the resolved version, in the
    encoding of the locale, whatever it held before. *)
Theorem header_written (w : world) (s s' : state) :
  get_version w s = (Normal tt, s') ->
  exists v s1 bytes,
    version w s = (Normal v, s1) /\
    include_dir w
      = default (lit "include")
          (construction_vars w !! lit "PROJECT_INCLUDE_DIR") /\
    (forall fs0, namei fs0 (cwd w) (version_file_path w)
       = walk fs0 (cwd w) (include_dir w ++ lit "/" ++ lit "version.h")) /\
    isdir (fs s') (cwd w) (include_dir w) = true /\
    (forall pre post, pre <> [] -> include_dir w = pre ++ lit "/" ++ post ->
       isdir (fs s') (cwd w) pre = true) /\
    encode (text_encoding w) (header_content v) = Some bytes /\
    read_file (fs s') (cwd w) (version_file_path w) = Some bytes.
Proof.
  unfold get_version, mbind, M_bind.
  destruct (version w s) as [[v|e|c] s1] eqn:Hv; try done.
  intros (Hd & Hr & Hdir & bytes & Hbytes & Hfile)%emit_normal.
  exists v, s1, bytes. repeat split; try done.
  - intros fs0. rewrite namei_admitted by done.
    apply walk_join_sep; [done|apply version_h_plain].
  - intros pre post Hpre Heq. rewrite Heq in Hdir.
    by apply isdir_prefix in Hdir.
Qed.

(** ** [os.path.split] and [os.makedirs] *)

(** The index of the last separator. *)
Lemma no_sep_rfind p : no_sep p = true -> rfind_sep p = (-1)%Z.
Proof.
  induction p as [|c p IH]; [done|].
  cbn [no_sep forallb rfind_sep]. intros [Hc Hp]%andb_prop.
  rewrite (IH Hp). apply negb_true_iff in Hc. by rewrite Hc.
Qed.

Lemma rfind_sep_last h t :
  no_sep t = true -> rfind_sep (h ++ SEP :: t) = Z.of_nat (length h).
Proof.
  intros Ht. induction h as [|c h IH].
  - cbn [app rfind_sep length]. by rewrite (no_sep_rfind _ Ht).
  - cbn [app rfind_sep length]. rewrite IH.
    destruct (Z.leb_spec 0 (Z.of_nat (length h))); lia.
Qed.

(** Where the last separator is. *)
Lemma rfind_sep_spec p :
  (rfind_sep p = (-1)%Z /\ no_sep p = true) \/
  (exists h t, p = h ++ SEP :: t /\ no_sep t = true /\
               rfind_sep p = Z.of_nat (length h)).
Proof.
  induction p as [|c p IH]; [by left|].
  destruct IH as [[Hr Hns]|(h & t & -> & Ht & Hr)].
  - destruct (N.eqb_spec c SEP) as [->|Hc].
    + right. exists [], p. repeat split; [done|]. by apply (rfind_sep_last []).
    + left. assert (Hn : no_sep (c :: p) = true).
      { cbn [no_sep forallb]. apply N.eqb_neq in Hc. by rewrite Hc. }
      split; [by apply no_sep_rfind|done].
  - right. exists (c :: h), t. repeat split; [done|].
    by apply (rfind_sep_last (c :: h)).
Qed.

Lemma rstrip_by_snoc {A} (P : A -> bool) l x :
  P x = true -> rstrip_by P (l ++ [x]) = rstrip_by P l.
Proof.
  intros Hx. induction l as [|y l IH]; simpl; [by rewrite Hx|].
  by rewrite IH.
Qed.

Lemma rstrip_by_all {A} (P : A -> bool) l :
  rstrip_by P l = [] <-> forallb P l = true.
Proof.
  induction l as [|x l IH]; [done|]. rewrite rstrip_by_cons. cbn [forallb].
  destruct (P x); cbn [andb].
  - case_bool_decide as H; [by rewrite <- IH|].
    split; [done|]. intros H'. by apply IH in H'.
  - done.
Qed.

(** [os.path.split] without a separator: the head is empty. *)
Lemma split_no_sep p : no_sep p = true -> split p = ([], p).
Proof. intros Hp. unfold split. by rewrite (no_sep_rfind _ Hp). Qed.

(** [os.path.split] at the last separator: the head is left alone when it
    is made of separators and loses its trailing separators otherwise. *)
Lemma split_last_sep h t :
  no_sep t = true ->
  split (h ++ SEP :: t)
  = (if forallb (N.eqb SEP) h then h ++ [SEP]
     else rstrip_by (N.eqb SEP) h, t).
Proof.
  intros Ht. unfold split. rewrite (rfind_sep_last _ _ Ht).
  replace (Z.to_nat (Z.of_nat (length h) + 1)) with (length (h ++ [SEP]))
    by (rewrite length_app; simpl; lia).
  change (h ++ SEP :: t) with (h ++ [SEP] ++ t). rewrite app_assoc.
  rewrite take_app_length, drop_app_length.
  rewrite bool_decide_eq_false_2 by (by destruct h). cbn [negb andb].
  rewrite forallb_app. cbn [forallb].
  change (SEP =? SEP) with true. rewrite !andb_true_r.
  destruct (forallb (N.eqb SEP) h); cbn [negb]; [done|].
  by rewrite rstrip_by_snoc.
Qed.

(** The two shapes of [os.path.split]. *)
Lemma split_spec p :
  (no_sep p = true /\ split p = ([], p)) \/
  (exists h t, p = h ++ SEP :: t /\ no_sep t = true /\
     split p = (if forallb (N.eqb SEP) h then h ++ [SEP]
                else rstrip_by (N.eqb SEP) h, t)).
Proof.
  destruct (rfind_sep_spec p) as [[_ Hns]|(h & t & -> & Ht & _)].
  - left. split; [done|by apply split_no_sep].
  - right. exists h, t. repeat split; [done|by apply split_last_sep].
Qed.

Lemma rstrip_by_app {A} (P : A -> bool) l :
  exists r, l = rstrip_by P l ++ r /\ forallb P r = true.
Proof. destruct (rstrip_by_spec P l) as (r & ? & ? & _). eauto. Qed.

(** A path without its trailing separators leads to the same
    directory. *)
Lemma walk_rstrip fs wd h q :
  rstrip_by (N.eqb SEP) h <> [] ->
  walk fs wd h = AtDir q -> walk fs wd (rstrip_by (N.eqb SEP) h) = AtDir q.
Proof.
  intros Hne. destruct (rstrip_by_app (N.eqb SEP) h) as (r & Hh & Hr).
  revert Hne. generalize dependent (rstrip_by (N.eqb SEP) h).
  intros x -> Hx. unfold walk.
  destruct x as [|c x]; [done|]. cbn [app].
  change (c :: x ++ r) with ((c :: x) ++ r).
  rewrite components_seps, fold_left_app, namei_start_app by done.
  apply walk_empties.
Qed.

(** When all of a path but its last name leads to a directory, the head
    that [os.path.split] gives is empty, or a beginning of the path that
    leads to a directory. *)
Lemma split_head_walk fs wd d :
  (exists q, walk fs wd d = AtFile q false) \/
  (exists p n, walk fs wd d = AtMissing p n false) ->
  exists h t, split d = (h, t) /\ t <> [] /\
              (h = [] \/
               (exists x, d = h ++ x) /\ exists q, walk fs wd h = AtDir q).
Proof.
  intros Hd.
  assert (Hnd : forall q, walk fs wd d <> AtDir q).
  { intros q Hq. rewrite Hq in Hd. by destruct Hd as [[? ?]|(? & ? & ?)]. }
  assert (Hslash : forall st, namei_step fs st [] <> walk fs wd d).
  { intros st Hst. destruct st; simpl in Hst;
      destruct Hd as [[? Hd]|(? & ? & Hd)]; rewrite Hd in Hst; done. }
  destruct (split_spec d) as [[Hns ->]|(h & t & -> & Ht & ->)].
  - exists [], d. repeat split; [|by left].
    intros ->. by destruct Hd as [[? ?]|(? & ? & ?)].
  - eexists _, t. split; [done|].
    assert (Hwalk : exists st, walk fs wd (h ++ SEP :: t) = namei_step fs st t
                               /\ (h = [] /\ st = AtDir [] \/
                                   h <> [] /\ st = walk fs wd h)).
    { destruct h as [|c h].
      - exists (AtDir []). cbn [app].
        rewrite walk_abs, components_no_sep by done. eauto.
      - exists (walk fs wd (c :: h)).
        rewrite walk_app_sep, components_no_sep by done. eauto. }
    destruct Hwalk as (st & Hst & Hh).
    assert (Ht' : t <> []).
    { intros ->. by apply (Hslash st). }
    split; [done|]. right.
    assert (Hdir : exists q, st = AtDir q).
    { destruct st as [q| | |]; [by exists q|..];
        rewrite Hst in Hd; simpl in Hd;
        rewrite ?bool_decide_eq_false_2 in Hd by done;
        by destruct Hd as [[? ?]|(? & ? & ?)]. }
    destruct Hdir as [q ->].
    destruct Hh as [[-> _]|[Hhne Hq]].
    + split; [by exists t|by exists []].
    + destruct (forallb (N.eqb SEP) h) eqn:Hall.
      * split; [exists t; by rewrite <- app_assoc|]. exists q.
        change (h ++ [SEP]) with (h ++ SEP :: []).
        rewrite walk_app_sep by done. by rewrite <- Hq.
      * split.
        { destruct (rstrip_by_app (N.eqb SEP) h) as (r & Hh & _).
          exists (r ++ SEP :: t). rewrite app_assoc. by rewrite <- Hh. }
        exists q. apply walk_rstrip; [|done].
        intros Hnil%rstrip_by_all. congruence.
Qed.

Lemma split_head_exists fs wd d :
  (exists q, namei fs wd d = AtFile q false) \/
  (exists p n, namei fs wd d = AtMissing p n false) ->
  exists h t, split d = (h, t) /\ t <> [] /\
              (h = [] \/ exists_ fs wd h = true).
Proof.
  intros Hd. pose proof (namei_walk fs wd d) as Hw.
  assert (Hr : refusal d = None /\
               ((exists q, walk fs wd d = AtFile q false) \/
                (exists p n, walk fs wd d = AtMissing p n false))).
  { destruct Hd as [[q Hd]|(p & n & Hd)]; rewrite Hd in Hw;
      destruct Hw as [? Hw]; rewrite Hw; eauto. }
  destruct Hr as [Hr Hd'].
  apply split_head_walk in Hd' as (h & t & Hsplit & Ht & Hh).
  exists h, t. repeat split; try done.
  destruct Hh as [->|[[x ->] [q Hq]]]; [by left|right].
  unfold exists_. rewrite namei_admitted by (by eapply refusal_app).
  by rewrite Hq.
Qed.

(** In that case [os.makedirs] is a single [os.mkdir]. *)
Lemma makedirs_leaf fuel wd d s :
  (exists q, namei (fs s) wd d = AtFile q false) \/
  (exists p n, namei (fs s) wd d = AtMissing p n false) ->
  makedirs (S fuel) wd d s = mkdir wd d s.
Proof.
  intros (h & t & Hsplit & Ht & Hh)%split_head_exists.
  cbn [makedirs]. rewrite Hsplit.
  rewrite (bool_decide_eq_false_2 (t = [])) by done. cbn iota beta.
  rewrite (bool_decide_eq_false_2 (t = [])) by done. cbn [negb andb].
  destruct Hh as [->|Hex].
  - by rewrite bool_decide_eq_true_2.
  - destruct (bool_decide (h = [])); cbn [negb andb]; [done|].
    by rewrite Hex.
Qed.

(** [os.makedirs] on a path that names a regular file. *)
Lemma makedirs_on_file fuel wd d s q :
  namei (fs s) wd d = AtFile q false ->
  makedirs (S fuel) wd d s = (Raise FileExistsError, s).
Proof.
  intros Hq. rewrite makedirs_leaf by eauto. unfold mkdir. by rewrite Hq.
Qed.

Lemma exists_not_isdir fs wd d :
  exists_ fs wd d = true -> isdir fs wd d = false ->
  exists q, namei fs wd d = AtFile q false.
Proof.
  unfold exists_, isdir.
  destruct (namei fs wd d) as [|q []| |]; try done. eauto.
Qed.

(** The version block writes no file. *)
Lemma version_fs (w : world) (s : state) r s1 :
  version w s = (r, s1) -> fs s1 = fs s.
Proof.
  run_script. destruct (is_ci w).
  - destruct (git_describe w) as [out|e]; cbn.
    + destruct (decode_utf8 (strip out)); by intros [= _ <-].
    + destruct e; cbn; by intros [= _ <-].
  - by intros [= _ <-].
Qed.

(** C10. When the include-directory path exists and is not a directory,
    creating the directory raises [FileExistsError]: the run does not
    succeed, nothing is written (the file system is as before), and no
    version.h exists at the output path. *)
Theorem include_dir_is_a_file (w : world) (s : state) :
  exists_ (fs s) (cwd w) (include_dir w) = true ->
  isdir (fs s) (cwd w) (include_dir w) = false ->
  (forall v s1, version w s = (Normal v, s1) ->
     get_version w s = (Raise FileExistsError, s1)) /\
  fst (get_version w s) <> Normal tt /\
  fs (snd (get_version w s)) = fs s /\
  exists_ (fs (snd (get_version w s))) (cwd w) (version_file_path w) = false.
Proof.
  intros Hex Hnd.
  destruct (exists_not_isdir _ _ _ Hex Hnd) as [q Hq].
  assert (Hemit : forall v s1, fs s1 = fs s ->
            emit w v s1 = (Raise FileExistsError, s1)).
  { intros v s1 Hfs. unfold emit. unfold mbind at 1, M_bind at 1.
    rewrite Hfs, Hnd. cbn [negb].
    rewrite (makedirs_on_file _ _ _ _ q) by by rewrite Hfs. done. }
  pose proof (version_fs w) as Hver.
  assert (Hrun : exists r s1, get_version w s = (r, s1) /\ r <> Normal tt /\
                              fs s1 = fs s).
  { unfold get_version, mbind, M_bind.
    destruct (version w s) as [[v|e|c] s1] eqn:Hv.
    - rewrite (Hemit v s1 (Hver _ _ _ Hv)).
      exists (Raise FileExistsError), s1. repeat split; [done|by eapply Hver].
    - exists (Raise e), s1. repeat split; [done|by eapply Hver].
    - exists (Exit c), s1. repeat split; [done|by eapply Hver]. }
  destruct Hrun as (r & s1 & Hrun & Hr & Hfs).
  split; [|rewrite Hrun; cbn [fst snd]; repeat split; try done].
  - intros v s0 Hv. unfold get_version, mbind, M_bind. rewrite Hv.
    apply Hemit. by eapply Hver.
  - rewrite Hfs. unfold exists_, version_file_path.
    assert (Hd : include_dir w <> []).
    { intros Hnil. by rewrite Hnil in Hq. }
    destruct (refusal (join (include_dir w) (lit "version.h"))) as [e|] eqn:Hre.
    { unfold namei. by rewrite Hre. }
    rewrite namei_join by (done || apply version_h_plain).
    by rewrite Hq, (namei_step_name _ _ _ version_h_plain).
Qed.

(** ** Runs that succeed *)

(** With the include directory in place, a path of version.h within the
    limits, no directory in its way and a header the locale can encode,
    writing the header succeeds. *)
Lemma emit_succeeds (w : world) (v : str) (s : state) :
  isdir (fs s) (cwd w) (include_dir w) = true ->
  isdir (fs s) (cwd w) (version_file_path w) = false ->
  refusal (version_file_path w) = None ->
  is_Some (encode (text_encoding w) (header_content v)) ->
  exists s', emit w v s = (Normal tt, s').
Proof.
  intros Hdir Hfile Hr [bytes Hbytes]. unfold emit.
  unfold mbind at 1, M_bind at 1.
  rewrite Hdir. cbn [negb].
  assert (Hd : include_dir w <> []).
  { intros Hnil. by rewrite Hnil in Hdir. }
  revert Hfile. unfold isdir in *.
  unfold version_file_path, open_w, mbind, M_bind in *.
  rewrite namei_join by (done || apply version_h_plain).
  rewrite (namei_step_name _ _ _ version_h_plain).
  destruct (namei (fs s) (cwd w) (include_dir w)) as [q| | |]; try done.
  unfold write, print. rewrite Hbytes.
  destruct (fs s !! (q ++ [lit "version.h"])) as [[|x]|]; try done;
    intros _; cbn [fs]; rewrite lookup_insert_eq; eauto.
Qed.

(** ** Determinism in the inputs *)

Lemma is_ci_environ (w1 w2 : world) :
  environ w1 !! lit "CI" = environ w2 !! lit "CI" -> is_ci w1 = is_ci w2.
Proof. intros H. unfold is_ci, getenv. by rewrite H. Qed.

Lemma include_dir_vars (w1 w2 : world) :
  construction_vars w1 !! lit "PROJECT_INCLUDE_DIR"
  = construction_vars w2 !! lit "PROJECT_INCLUDE_DIR" ->
  include_dir w1 = include_dir w2.
Proof. intros H. unfold include_dir, env_get. by rewrite H. Qed.

(** The version depends on the mode, the git result and the clock only. *)
Lemma version_inputs (w1 w2 : world) (s1 s2 : state) :
  is_ci w1 = is_ci w2 -> clock w1 = clock w2 ->
  git_describe w1 = git_describe w2 ->
  fst (version w1 s1) = fst (version w2 s2).
Proof.
  intros Hci Hclock Hgit. run_script. rewrite Hci, Hclock, Hgit.
  destruct (is_ci w2); [|done].
  destruct (git_describe w2) as [out|e]; cbn.
  - by destruct (decode_utf8 (strip out)).
  - by destruct e.
Qed.

(** C9, as amended.  Two runs with the same value of CI, the same
    include-directory setting, the same clock reading, the same outcome of
    the describe query and the same text encoding of the locale resolve
    the same version (or fail alike), compute the same output path, and,
    when both succeed, leave the same bytes in the file of that path: the
    header text of that version in that encoding. *)
Theorem same_inputs_same_header (w1 w2 : world) (s1 s2 : state) :
  environ w1 !! lit "CI" = environ w2 !! lit "CI" ->
  construction_vars w1 !! lit "PROJECT_INCLUDE_DIR"
  = construction_vars w2 !! lit "PROJECT_INCLUDE_DIR" ->
  clock w1 = clock w2 ->
  git_describe w1 = git_describe w2 ->
  text_encoding w1 = text_encoding w2 ->
  version_file_path w1 = version_file_path w2 /\
  fst (version w1 s1) = fst (version w2 s2) /\
  (forall s1' s2',
     get_version w1 s1 = (Normal tt, s1') ->
     get_version w2 s2 = (Normal tt, s2') ->
     exists v bytes,
       fst (version w1 s1) = Normal v /\
       encode (text_encoding w1) (header_content v) = Some bytes /\
       read_file (fs s1') (cwd w1) (version_file_path w1) = Some bytes /\
       read_file (fs s2') (cwd w2) (version_file_path w2) = Some bytes).
Proof.
  intros Hci%is_ci_environ Hdir%include_dir_vars Hclock Hgit Henc.
  pose proof (version_inputs w1 w2 s1 s2 Hci Hclock Hgit) as Hv.
  split; [unfold version_file_path; by rewrite Hdir|]. split; [done|].
  intros s1' s2'. unfold get_version, mbind, M_bind.
  destruct (version w1 s1) as [[v1|e1|c1] t1]; try done.
  destruct (version w2 s2) as [[v2|e2|c2] t2]; try done.
  injection Hv as <-.
  intros (_ & _ & _ & b1 & Hb1 & H1)%emit_normal
         (_ & _ & _ & b2 & Hb2 & H2)%emit_normal.
  rewrite <- Henc, Hb1 in Hb2. injection Hb2 as <-.
  by exists v1, b1.
Qed.

(** ** Creating the include directory *)

Lemma plain_name_last n :
  plain_name n -> exists n' c, n = n' ++ [c] /\ (SEP =? c) = false.
Proof.
  intros (Hn & _ & _ & Hs & _).
  destruct (exists_last Hn) as (n' & c & ->). exists n', c. split; [done|].
  unfold no_sep in Hs. rewrite forallb_app in Hs.
  apply andb_prop in Hs as [_ Hc]. cbn in Hc. rewrite andb_true_r in Hc.
  apply negb_true_iff in Hc. by rewrite N.eqb_sym.
Qed.

(** A simple path ends with a character of a name. *)
Lemma simple_path_last d :
  simple_path d -> exists d' c, d = d' ++ [c] /\ (SEP =? c) = false.
Proof.
  intros [n Hn|n Hn|h n _ Hn];
    destruct (plain_name_last _ Hn) as (n' & c & -> & Hc).
  - eauto.
  - exists (SEP :: n'), c. eauto.
  - exists (h ++ SEP :: n'), c. by rewrite <- app_assoc.
Qed.

Lemma simple_path_nonempty d : simple_path d -> d <> [].
Proof. intros (d' & c & -> & _)%simple_path_last. by destruct d'. Qed.

Lemma rstrip_by_snoc_keep {A} (P : A -> bool) l c :
  P c = false -> rstrip_by P (l ++ [c]) = l ++ [c].
Proof.
  intros Hc. induction l as [|x l IH]; [by simpl; rewrite Hc|].
  cbn [app]. rewrite rstrip_by_cons, IH.
  rewrite bool_decide_eq_false_2 by (by destruct l).
  by rewrite andb_false_r.
Qed.

Lemma simple_path_split h n :
  simple_path h -> plain_name n -> split (h ++ SEP :: n) = (h, n).
Proof.
  intros (h' & c & -> & Hc)%simple_path_last (_ & _ & _ & Hn & _).
  rewrite split_last_sep by done.
  rewrite forallb_app. cbn [forallb]. rewrite Hc, andb_false_r.
  by rewrite rstrip_by_snoc_keep.
Qed.

Lemma plain_name_components n : plain_name n -> components n = [n].
Proof. intros (_ & _ & _ & Hn & _). by apply components_no_sep. Qed.

Lemma simple_path_components h n :
  plain_name n -> components (h ++ SEP :: n) = components h ++ [n].
Proof. intros Hn. by rewrite components_app, (plain_name_components n). Qed.

Lemma location_name wd n : plain_name n -> location wd n = wd ++ [n].
Proof.
  intros Hn. unfold location. rewrite plain_name_components by done.
  destruct Hn as (Hne & _ & _ & Hs & _).
  assert (startswith_sep n = false) as ->.
  { destruct n as [|c n]; [done|]. simpl in *.
    apply andb_prop in Hs as [Hc _]. by apply negb_true_iff in Hc. }
  by rewrite filter_cons_True.
Qed.

Lemma location_root wd n : plain_name n -> location wd (SEP :: n) = [n].
Proof.
  intros Hn. unfold location. cbn [startswith_sep components].
  change (SEP =? SEP) with true. cbn iota.
  rewrite plain_name_components by done. destruct Hn as (Hne & _).
  rewrite filter_cons_False by (intros H; by apply H).
  by rewrite filter_cons_True.
Qed.

Lemma location_cons wd h n :
  h <> [] -> plain_name n ->
  location wd (h ++ SEP :: n) = location wd h ++ [n].
Proof.
  intros Hh Hn. unfold location.
  rewrite startswith_sep_app, simple_path_components by done.
  rewrite filter_app, app_assoc. f_equal.
  destruct Hn as (Hne & _). by rewrite filter_cons_True.
Qed.

Lemma walk_name fs wd n :
  plain_name n -> dir_at fs wd = true ->
  walk fs wd n = namei_step fs (AtDir wd) n.
Proof.
  intros Hn Hwd. unfold walk, namei_start.
  rewrite plain_name_components by done. rewrite plain_name_not_abs by done.
  destruct Hn as (Hne & _). destruct n as [|c n]; [done|].
  by rewrite Hwd.
Qed.

Lemma walk_root_name fs wd n :
  plain_name n -> walk fs wd (SEP :: n) = namei_step fs (AtDir []) n.
Proof. intros Hn. by rewrite walk_abs, plain_name_components. Qed.

Lemma walk_cons fs wd h n :
  h <> [] -> plain_name n ->
  walk fs wd (h ++ SEP :: n) = namei_step fs (walk fs wd h) n.
Proof.
  intros Hh Hn. by rewrite walk_app_sep, (plain_name_components n).
Qed.

(** A simple path that leads to a directory leads to its location. *)
Lemma walk_simple_dir fs wd d q :
  simple_path d -> dir_at fs wd = true ->
  walk fs wd d = AtDir q -> q = location wd d.
Proof.
  intros Hd Hwd. revert q.
  induction Hd as [n Hn|n Hn|h n Hh IH Hn]; intros q.
  - rewrite walk_name, (namei_step_name _ _ _ Hn), location_name by done.
    destruct (fs !! (wd ++ [n])) as [[|x]|]; try done. by intros [= <-].
  - rewrite walk_root_name, (namei_step_name _ _ _ Hn), location_root by done.
    destruct (fs !! ([] ++ [n])) as [[|x]|]; try done. by intros [= <-].
  - pose proof (simple_path_nonempty _ Hh) as Hne.
    rewrite walk_cons, (namei_step_name _ _ _ Hn), location_cons by done.
    destruct (walk fs wd h) as [q'| | |]; try done.
    rewrite (IH q' eq_refl).
    destruct (fs !! (location wd h ++ [n])) as [[|x]|]; try done.
    by intros [= <-].
Qed.

Lemma location_nonempty wd d : simple_path d -> location wd d <> [].
Proof.
  intros [n Hn|n Hn|h n Hh Hn].
  - rewrite location_name by done. by intros [_ ?]%app_eq_nil.
  - by rewrite location_root.
  - rewrite location_cons by (done || by eapply simple_path_nonempty).
    by intros [_ ?]%app_eq_nil.
Qed.

Lemma dir_at_not_none fs p : dir_at fs p = true -> p = [] \/ fs !! p = Some Dir.
Proof.
  destruct p; [by left|]. simpl. intros H%bool_decide_eq_true. by right.
Qed.

(** A simple path never runs into a name beyond NAME_MAX. *)
Lemma walk_simple_not_too_long fs wd d :
  simple_path d -> walk fs wd d <> Stuck ENAMETOOLONG.
Proof.
  induction 1 as [n Hn|n Hn|h n Hh IH Hn].
  - unfold walk, namei_start.
    rewrite plain_name_components, plain_name_not_abs by done.
    pose proof Hn as (Hne & _). destruct n as [|c n]; [done|].
    destruct (dir_at fs wd); [|done]. cbn [fold_left].
    rewrite (namei_step_name _ _ _ Hn).
    by destruct (fs !! (wd ++ [c :: n])) as [[|x]|].
  - rewrite walk_root_name, (namei_step_name _ _ _ Hn) by done.
    by destruct (fs !! ([] ++ [n])) as [[|x]|].
  - rewrite walk_cons, (namei_step_name _ _ _ Hn)
      by (done || by eapply simple_path_nonempty).
    destruct (walk fs wd h) as [q| | |[]]; try done.
    by destruct (fs !! (q ++ [n])) as [[|x]|].
Qed.

(** In a well-formed file system nothing is where a simple path stops
    short. *)
Lemma creatable_absent fs wd d :
  well_formed fs -> simple_path d -> dir_at fs wd = true ->
  creatable (walk fs wd d) -> fs !! location wd d = None.
Proof.
  intros Hwf Hd Hwd. induction Hd as [n Hn|n Hn|h n Hh IH Hn].
  - rewrite walk_name, (namei_step_name _ _ _ Hn), location_name by done.
    by destruct (fs !! (wd ++ [n])) as [[|x]|].
  - rewrite walk_root_name, (namei_step_name _ _ _ Hn), location_root by done.
    cbn [app]. by destruct (fs !! [n]) as [[|x]|].
  - pose proof (simple_path_nonempty _ Hh) as Hne.
    rewrite walk_cons, (namei_step_name _ _ _ Hn), location_cons by done.
    destruct (walk fs wd h) as [q'|q' sl|p' n' sl|[]] eqn:Hq; try done.
    + apply walk_simple_dir in Hq as ->; [|done..].
      by destruct (fs !! (location wd h ++ [n])) as [[|x]|].
    + intros _. specialize (IH I).
      destruct (fs !! (location wd h ++ [n])) eqn:E; [|done].
      assert (Hp : dir_at fs (location wd h) = true) by (apply (Hwf _ n); eauto).
      apply dir_at_not_none in Hp as [Hp|Hp]; [|congruence].
      by destruct (location_nonempty wd h Hh).
    + intros _. specialize (IH I).
      destruct (fs !! (location wd h ++ [n])) eqn:E; [|done].
      assert (Hp : dir_at fs (location wd h) = true) by (apply (Hwf _ n); eauto).
      apply dir_at_not_none in Hp as [Hp|Hp]; [|congruence].
      by destruct (location_nonempty wd h Hh).
Qed.

Lemma grows_keeps_dirs fs fs' q : grows fs fs' q -> keeps_dirs fs fs'.
Proof. intros Hg k Hk. destruct (Hg k) as [->|(Hn & _)]; congruence. Qed.

Lemma dir_at_keeps fs fs' p :
  keeps_dirs fs fs' -> dir_at fs p = true -> dir_at fs' p = true.
Proof.
  intros Hk. destruct p; [done|]. simpl.
  intros H%bool_decide_eq_true. by rewrite (Hk _ H), bool_decide_eq_true_2.
Qed.

Lemma grows_insert fs fs1 q n :
  grows fs fs1 q -> fs !! (q ++ [n]) = None ->
  grows fs (<[q ++ [n] := Dir]> fs1) (q ++ [n]).
Proof.
  intros Hg Hn k. destruct (decide (k = q ++ [n])) as [->|Hk].
  - right. by rewrite lookup_insert_eq.
  - rewrite lookup_insert_ne by done.
    destruct (Hg k) as [?|(? & ? & ?)]; [by left|right].
    repeat split; try done. by apply prefix_app_r.
Qed.

Lemma grows_refl fs q : grows fs fs q.
Proof. intros k. by left. Qed.

Lemma grows_absent fs fs1 q n :
  grows fs fs1 q -> fs !! (q ++ [n]) = None -> fs1 !! (q ++ [n]) = None.
Proof.
  intros Hg Hn. destruct (Hg (q ++ [n])) as [->|(_ & _ & Hp)]; [done|].
  by apply prefix_snoc_not in Hp.
Qed.

(** [os.mkdir] of a name missing from the directory [q]. *)
Lemma mkdir_in_dir wd d s q n :
  plain_name n -> refusal d = None ->
  walk (fs s) wd d = namei_step (fs s) (AtDir q) n ->
  fs s !! (q ++ [n]) = None ->
  mkdir wd d s
  = (Normal tt, {| fs := <[q ++ [n] := Dir]> (fs s); stdout := stdout s |}).
Proof.
  intros Hn Hr Hd Hq. unfold mkdir.
  by rewrite namei_admitted, Hd, (namei_step_name _ _ _ Hn), Hq.
Qed.

Lemma namei_step_created fs q n :
  plain_name n ->
  namei_step (<[q ++ [n] := Dir]> fs) (AtDir q) n = AtDir (q ++ [n]).
Proof. intros Hn. by rewrite (namei_step_name _ _ _ Hn), lookup_insert_eq. Qed.

(** One level of [os.makedirs] when the tail of the split is not empty. *)
Lemma makedirs_unfold fuel wd name s h t :
  split name = (h, t) -> t <> [] ->
  makedirs (S fuel) wd name s =
    if bool_decide (h = []) then mkdir wd name s
    else if exists_ (fs s) wd h then mkdir wd name s
    else
      (try_except (makedirs fuel wd h)
         (fun e => match e with
                   | FileExistsError => Some (mret tt)
                   | _ => None
                   end) ;;
       if bool_decide (t = lit ".") then mret tt else mkdir wd name) s.
Proof.
  intros Hs Ht. cbn [makedirs]. rewrite Hs.
  rewrite (bool_decide_eq_false_2 (t = [])) by done. cbn iota beta.
  rewrite (bool_decide_eq_false_2 (t = [])) by done.
  by destruct (bool_decide (h = [])).
Qed.

Lemma components_length_pos d : (0 < length (components d))%nat.
Proof.
  pose proof (components_nonempty d). destruct (components d); [done|].
  simpl. lia.
Qed.

(** [os.makedirs] on a simple path within the limits that stops short in
    a well-formed file system, with room on the stack for one call per
    component: it succeeds, the path then leads to a directory, and only
    directories on the way were added. *)
Lemma makedirs_simple wd d :
  simple_path d ->
  forall fuel s,
    (length (components d) <= fuel)%nat -> refusal d = None ->
    well_formed (fs s) -> dir_at (fs s) wd = true ->
    creatable (walk (fs s) wd d) ->
    exists s', makedirs fuel wd d s = (Normal tt, s') /\
      stdout s' = stdout s /\
      walk (fs s') wd d = AtDir (location wd d) /\
      grows (fs s) (fs s') (location wd d).
Proof.
  induction 1 as [n Hn|n Hn|h n Hh IH Hn]; intros fuel s Hlen Hr Hwf Hwd Hc;
    (destruct fuel as [|fuel];
     [match type of Hlen with
      | (length (components ?d) <= _)%nat =>
          pose proof (components_length_pos d)
      end; lia|]);
    pose proof Hn as (Hne & Hdot & _ & Hns & _).
  - pose proof (creatable_absent _ _ _ Hwf (simple_name _ Hn) Hwd Hc) as Habs.
    rewrite location_name in * by done.
    rewrite (makedirs_unfold _ _ _ _ [] n) by (done || by apply split_no_sep).
    rewrite bool_decide_eq_true_2 by done.
    rewrite (mkdir_in_dir _ _ _ wd n) by (done || by apply walk_name).
    eexists. split; [done|]. cbn [fs stdout]. split; [done|]. split.
    + rewrite walk_name; [by apply namei_step_created|done|].
      eapply dir_at_keeps; [|done]. apply keeps_dirs_insert. by rewrite Habs.
    + apply grows_insert; [apply grows_refl|done].
  - pose proof (creatable_absent _ _ _ Hwf (simple_root _ Hn) Hwd Hc) as Habs.
    rewrite location_root in * by done.
    rewrite (makedirs_unfold _ _ _ _ [SEP] n);
      [|by apply (split_last_sep [])|done].
    rewrite bool_decide_eq_false_2 by done.
    assert (exists_ (fs s) wd [SEP] = true) as ->.
    { unfold exists_. rewrite namei_admitted by (by apply refusal_ascii).
      by rewrite walk_root. }
    cbn iota.
    rewrite (mkdir_in_dir _ _ _ [] n) by (done || by apply walk_root_name).
    eexists. split; [done|]. cbn [fs stdout app]. split; [done|]. split.
    + rewrite walk_root_name by done. by apply (namei_step_created _ []).
    + apply (grows_insert _ _ []); [apply grows_refl|done].
  - pose proof (simple_path_nonempty _ Hh) as Hhne.
    pose proof (creatable_absent _ _ _ Hwf (simple_cons _ _ Hh Hn) Hwd Hc) as Habs.
    pose proof (refusal_app _ _ Hr) as Hrh.
    rewrite location_cons in * by done.
    rewrite walk_cons in Hc by done.
    rewrite (makedirs_unfold _ _ _ _ h n) by (done || by apply simple_path_split).
    rewrite bool_decide_eq_false_2 by done.
    assert (Hleaf : forall s1,
      stdout s1 = stdout s -> walk (fs s1) wd h = AtDir (location wd h) ->
      grows (fs s) (fs s1) (location wd h) ->
      exists s', mkdir wd (h ++ SEP :: n) s1 = (Normal tt, s') /\
        stdout s' = stdout s /\
        walk (fs s') wd (h ++ SEP :: n) = AtDir (location wd h ++ [n]) /\
        grows (fs s) (fs s') (location wd h ++ [n])).
    { intros s1 Hout Hdir Hg.
      pose proof (grows_absent _ _ _ _ Hg Habs) as Habs1.
      rewrite (mkdir_in_dir _ _ _ (location wd h) n);
        [|done|done|by rewrite walk_cons, Hdir|done].
      eexists. split; [done|]. cbn [fs stdout]. split; [done|]. split.
      - rewrite walk_cons by done.
        rewrite (walk_path_keeps_dirs (fs s1) _ wd h (location wd h));
          [by apply namei_step_created| |done].
        apply keeps_dirs_insert. by rewrite Habs1.
      - by apply grows_insert. }
    assert (Hrec : creatable (walk (fs s) wd h) ->
      exists s1, makedirs fuel wd h s = (Normal tt, s1) /\
        stdout s1 = stdout s /\
        walk (fs s1) wd h = AtDir (location wd h) /\
        grows (fs s) (fs s1) (location wd h)).
    { intros Hch. apply IH; try done.
      rewrite simple_path_components, length_app in Hlen by done.
      simpl in Hlen. lia. }
    unfold exists_. rewrite (namei_admitted _ _ _ Hrh).
    pose proof (walk_simple_not_too_long (fs s) wd h Hh) as Hlong.
    destruct (walk (fs s) wd h) as [q|q sl|p' n' sl|e] eqn:Hq.
    + apply walk_simple_dir in Hq as Hloc; [subst q|done..].
      apply Hleaf; [done|done|apply grows_refl].
    + by rewrite (namei_step_name _ _ _ Hn) in Hc.
    + destruct (Hrec I) as (s1 & Hmk & Hout & Hdir & Hg).
      unfold mbind, M_bind, try_except. rewrite Hmk.
      rewrite (bool_decide_eq_false_2 (n = lit ".")) by done.
      by apply Hleaf.
    + destruct e; try (by rewrite (namei_step_name _ _ _ Hn) in Hc).
      destruct (Hrec I) as (s1 & Hmk & Hout & Hdir & Hg).
      unfold mbind, M_bind, try_except. rewrite Hmk.
      rewrite (bool_decide_eq_false_2 (n = lit ".")) by done.
      by apply Hleaf.
Qed.

(** Resolution that stops short is a walk that stops short along a path
    within the limits. *)
Lemma creatable_walk fs wd d :
  creatable (namei fs wd d) -> refusal d = None /\ creatable (walk fs wd d).
Proof.
  intros Hc. pose proof (namei_walk fs wd d) as Hw.
  destruct (namei fs wd d) as [| | |[]]; try done;
    destruct Hw as [Hr Hw]; by rewrite Hw.
Qed.

(** With a simple include path that stops short in a well-formed file
    system, limits that the path of version.h respects, room on the stack
    and a header the locale can encode, writing the header succeeds: the
    missing directories are made, then the file. *)
Lemma emit_creates (w : world) (v : str) (s : state) :
  well_formed (fs s) -> dir_at (fs s) (cwd w) = true ->
  simple_path (include_dir w) ->
  creatable (namei (fs s) (cwd w) (include_dir w)) ->
  refusal (version_file_path w) = None ->
  (length (components (include_dir w)) <= S (stack_room w))%nat ->
  is_Some (encode (text_encoding w) (header_content v)) ->
  exists s', emit w v s = (Normal tt, s').
Proof.
  intros Hwf Hwd Hd Hcn Hr Hroom [bytes Hbytes].
  pose proof Hcn as [Hrd Hc]%creatable_walk.
  pose proof (creatable_absent _ _ _ Hwf Hd Hwd Hc) as Habs.
  destruct (makedirs_simple (cwd w) _ Hd (S (stack_room w)) s)
    as (s1 & Hmk & _ & Hdir & Hg); [done..|].
  unfold emit. unfold mbind at 1, M_bind at 1.
  assert (isdir (fs s) (cwd w) (include_dir w) = false) as ->.
  { unfold isdir. by destruct (namei (fs s) (cwd w) (include_dir w)). }
  cbn [negb]. rewrite Hmk.
  unfold version_file_path, open_w, write, print, mbind, M_bind in *.
  rewrite namei_join;
    [|by apply simple_path_nonempty|apply version_h_plain|done].
  rewrite (namei_admitted _ _ _ Hrd).
  rewrite Hdir, (namei_step_name _ _ _ version_h_plain).
  assert (fs s1 !! (location (cwd w) (include_dir w) ++ [lit "version.h"])
          = None) as ->.
  { eapply grows_absent; [done|].
    destruct (fs s !! (_ ++ [lit "version.h"])) eqn:E; [|done].
    assert (Hp : dir_at (fs s) (location (cwd w) (include_dir w)) = true)
      by (apply (Hwf _ (lit "version.h")); eauto).
    apply dir_at_not_none in Hp as [Hp|Hp]; [|congruence].
    by destruct (location_nonempty (cwd w) _ Hd). }
  rewrite Hbytes. cbn [fs]. rewrite lookup_insert_eq. eauto.
Qed.

(** The run on a project whose include directory is missing: whenever the
    version is resolved, the directory is made with its missing parents
    and the header is in it. *)
Lemma get_version_creates (w : world) (s : state) (v : str) (s1 : state) :
  well_formed (fs s) -> dir_at (fs s) (cwd w) = true ->
  simple_path (include_dir w) ->
  creatable (namei (fs s) (cwd w) (include_dir w)) ->
  refusal (version_file_path w) = None ->
  (length (components (include_dir w)) <= S (stack_room w))%nat ->
  version w s = (Normal v, s1) ->
  forall bytes,
    encode (text_encoding w) (header_content v) = Some bytes ->
    exists s', get_version w s = (Normal tt, s') /\
      isdir (fs s') (cwd w) (include_dir w) = true /\
      read_file (fs s') (cwd w) (version_file_path w) = Some bytes.
Proof.
  intros Hwf Hwd Hd Hc Hr Hroom Hv bytes Hbytes.
  pose proof (version_fs _ _ _ _ Hv) as Hfs.
  destruct (emit_creates w v s1) as [s' Hemit]; rewrite ?Hfs; try done.
  exists s'. unfold get_version, mbind, M_bind. rewrite Hv.
  split; [done|].
  apply emit_normal in Hemit as (_ & _ & ? & b & Hb & ?).
  rewrite Hbytes in Hb. by injection Hb as <-.
Qed.

(** ** Further properties: resolving the version *)

Lemma strip_by_spec {A} (P : A -> bool) (l : list A) :
  exists a b, l = a ++ strip_by P l ++ b /\
              forallb P a = true /\ forallb P b = true.
Proof.
  unfold strip_by.
  destruct (rstrip_by_spec P l) as (b & Hl & Hb & _).
  destruct (lstrip_by_spec P (rstrip_by P l)) as (a & Ha & Ha' & _).
  exists a, b. split; [|done]. by rewrite app_assoc, <- Ha.
Qed.

Lemma whitespace_is_ascii c : is_whitespace c = true -> c < 128.
Proof.
  unfold is_whitespace. intros [H|H]%orb_prop; bool_facts; lia.
Qed.

Lemma decode_utf8_ascii_cons b r :
  Byte.to_N b < 128 ->
  decode_utf8 (b :: r) = cons (Byte.to_N b) <$> decode_utf8 r.
Proof. intros Hb. cbn [decode_utf8]. by rewrite (proj2 (N.ltb_lt _ _) Hb). Qed.

(** Whitespace before the input does not change whether it decodes... *)
Lemma decode_utf8_whitespace_prefix a x :
  forallb (fun b => is_whitespace (Byte.to_N b)) a = true ->
  decode_utf8 (a ++ x) = app (map Byte.to_N a) <$> decode_utf8 x.
Proof.
  induction a as [|b a IH]; cbn [forallb app map].
  - intros _. by destruct (decode_utf8 x).
  - intros [Hb Ha]%andb_prop.
    rewrite decode_utf8_ascii_cons by by apply whitespace_is_ascii.
    rewrite (IH Ha). by destruct (decode_utf8 x).
Qed.

(** ... nor does whitespace after it. *)
Lemma decode_utf8_whitespace_suffix x t b :
  forallb (fun b => is_whitespace (Byte.to_N b)) b = true ->
  decode_utf8 x = Some t ->
  decode_utf8 (x ++ b) = Some (t ++ map Byte.to_N b).
Proof.
  intros Hb. revert x t. apply decode_utf8_ind.
  - pose proof (decode_utf8_whitespace_prefix b [] Hb) as H.
    rewrite app_nil_r in H. cbn [app]. rewrite H. cbn. by rewrite app_nil_r.
  - intros pre rest c s' _ IH _ Hpre _.
    by rewrite <- app_assoc, Hpre, IH.
Qed.

(** Stripping neither breaks nor repairs the decoding: the stripped
    output decodes exactly when the output does. *)
Lemma decode_utf8_strip_none out :
  decode_utf8 (strip out) = None <-> decode_utf8 out = None.
Proof.
  split.
  - intros Hs. destruct (decode_utf8 out) as [t|] eqn:Ht; [|done].
    apply decode_utf8_strip in Ht. congruence.
  - intros Ho. destruct (decode_utf8 (strip out)) as [t|] eqn:Ht; [|done].
    destruct (strip_by_spec (fun x => is_whitespace (Byte.to_N x)) out)
      as (a & b & Hout & Ha & Hb).
    fold (strip out) in Hout. rewrite Hout in Ho.
    rewrite (decode_utf8_whitespace_prefix _ _ Ha) in Ho.
    by rewrite (decode_utf8_whitespace_suffix _ _ _ Hb Ht) in Ho.
Qed.

(** X1. In CI mode, when git prints bytes that are not UTF-8, the run
    ends with [UnicodeDecodeError], which no clause of the [try]
    statement catches: it is no [env.Exit], the only line printed is the
    first one, and the file system is left as it was.  Whitespace around
    the output does not matter. *)
Theorem undecodable_output_raises (w : world) (s : state) (out : list byte) :
  is_ci w = true ->
  git_describe w = Returned out ->
  decode_utf8 out = None ->
  get_version w s =
    (Raise UnicodeDecodeError,
     {| fs := fs s; stdout := stdout s ++ [mode_line w] |}).
Proof.
  intros Hci Hg Hd%decode_utf8_strip_none.
  unfold mode_line. run_script. by rewrite Hci, Hg, Hd.
Qed.

(** X2. In CI mode, an exception of the git call other than the two the
    [try] statement has a clause for propagates as it is: the run ends
    with that exception, after the first line only, with the file system
    untouched. *)
Theorem uncaught_git_error_propagates (w : world) (s : state) (e : exn) :
  is_ci w = true ->
  git_describe w = Failed e ->
  caught e = false ->
  get_version w s =
    (Raise e, {| fs := fs s; stdout := stdout s ++ [mode_line w] |}).
Proof.
  intros Hci Hg He. unfold mode_line. run_script. rewrite Hci, Hg.
  by destruct e.
Qed.

Lemma is_ci_with_git w g : is_ci (with_git w g) = is_ci w.
Proof. done. Qed.

Lemma is_ci_with_clock w t : is_ci (with_clock w t) = is_ci w.
Proof. done. Qed.

(** X3. A local-mode run does not use git: whatever the describe query
    would do, the run is the same, and it never ends in [env.Exit]. *)
Theorem local_mode_ignores_git (w : world) (s : state) (g : call_result) :
  is_ci w = false ->
  get_version (with_git w g) s = get_version w s /\
  forall c, fst (get_version w s) <> Exit c.
Proof.
  intros Hci. split.
  - unfold get_version, mbind, M_bind.
    by rewrite (version_local (with_git w g) s), (version_local w s).
  - intros c Hc. apply get_version_exit in Hc as [Hc _]. congruence.
Qed.

(** X4. A CI-mode run does not use the clock: with any other clock
    reading the run is the same. *)
Theorem ci_mode_ignores_clock (w : world) (s : state) (t : datetime) :
  is_ci w = true ->
  get_version (with_clock w t) s = get_version w s.
Proof.
  intros Hci. unfold get_version, version.
  rewrite is_ci_with_clock, Hci. done.
Qed.

(** X5. CI mode has no fallback version: when a CI-mode run succeeds, git
    did print something, that output decodes, and the header written
    holds the stripped, decoded output, in the encoding of the locale. *)
Theorem ci_success_has_tag (w : world) (s s' : state) :
  is_ci w = true ->
  get_version w s = (Normal tt, s') ->
  exists out v bytes,
    git_describe w = Returned out /\
    decode_utf8 (strip out) = Some v /\
    encode (text_encoding w) (header_content v) = Some bytes /\
    read_file (fs s') (cwd w) (version_file_path w) = Some bytes.
Proof.
  intros Hci. unfold get_version. unfold mbind at 1, M_bind at 1.
  destruct (version w s) as [[v|e|c] s1] eqn:Hv; try done.
  intros (_ & _ & _ & bytes & Hbytes & Hfile)%emit_normal.
  revert Hv. unfold version. rewrite Hci. run_script.
  destruct (git_describe w) as [out|e]; cbn.
  - destruct (decode_utf8 (strip out)) as [v'|] eqn:Hd; [|done].
    intros [= <- _]. eauto 10.
  - by destruct e.
Qed.

Lemma strip_whitespace_only out :
  forallb (fun b => is_whitespace (Byte.to_N b)) out = true -> strip out = [].
Proof.
  intros H%rstrip_by_all. unfold strip, strip_by. by rewrite H.
Qed.

(** X6. The tag is not validated: in CI mode, when git succeeds and
    prints nothing but whitespace (or nothing at all), the version is the
    empty string, and a run that goes on to succeed writes the header of
    the empty version. *)
Theorem blank_output_gives_empty_version (w : world) (s : state)
    (out : list byte) :
  is_ci w = true ->
  git_describe w = Returned out ->
  forallb (fun b => is_whitespace (Byte.to_N b)) out = true ->
  fst (version w s) = Normal [] /\
  forall s', get_version w s = (Normal tt, s') ->
    read_file (fs s') (cwd w) (version_file_path w)
    = Some (ascii_bytes (header_content [])).
Proof.
  intros Hci Hg Hout%strip_whitespace_only.
  assert (Hv : version w s
    = (Normal [], {| fs := fs s; stdout := stdout s ++ [mode_line w] |})).
  { unfold mode_line. run_script. by rewrite Hci, Hg, Hout. }
  split; [by rewrite Hv|].
  intros s'. unfold get_version, mbind, M_bind. rewrite Hv.
  intros (_ & _ & _ & bytes & Hbytes & Hfile)%emit_normal.
  rewrite encode_ascii in Hbytes by (by vm_compute). congruence.
Qed.

(** X7. The header determines the version: two versions with the same
    header text are the same. *)
Theorem header_content_inj (v1 v2 : str) :
  header_content v1 = header_content v2 -> v1 = v2.
Proof.
  unfold header_content. rewrite !app_assoc.
  intros H%app_inv_tail%app_inv_tail. by apply app_inv_head in H.
Qed.

(** ** Further properties: encoding the header *)

Lemma byte_of_to_N b : byte_of (Byte.to_N b) = b.
Proof. unfold byte_of. by rewrite Byte.of_to_N. Qed.

Lemma to_N_byte_of n : n < 256 -> Byte.to_N (byte_of n) = n.
Proof.
  intros Hn. unfold byte_of.
  destruct (Byte.of_N n) as [b|] eqn:E.
  - by apply Byte.to_of_N.
  - apply Byte.of_N_None_iff in E. lia.
Qed.

(** Quotient and remainder of a number written in base 64. *)
Lemma div_mod_64 q a : a < 64 -> (q * 64 + a) / 64 = q /\ (q * 64 + a) mod 64 = a.
Proof.
  intros Ha. split.
  - symmetry. apply (N.div_unique _ 64 q a); lia.
  - symmetry. apply (N.mod_unique _ 64 q a); lia.
Qed.

Lemma encode_cp_decoded b0 r0 s :
  decode_utf8 (b0 :: r0) = Some s ->
  exists pre rest c s',
    b0 :: r0 = pre ++ rest /\ s = c :: s' /\ decode_utf8 rest = Some s' /\
    (length rest < length (b0 :: r0))%nat /\
    encode_cp UTF8 c = Some pre.
Proof.
  cbn [decode_utf8].
  destruct (N.ltb_spec (Byte.to_N b0) 128) as [H0|H0].
  { destruct (decode_utf8 r0) as [s'|] eqn:Hr; [|done].
    intros [= <-]. exists [b0], r0, (Byte.to_N b0), s'.
    repeat split; try done; [simpl; lia|].
    cbn [encode_cp]. rewrite (proj2 (N.ltb_lt _ _) H0).
    by rewrite byte_of_to_N. }
  destruct r0 as [|b1 r1]; [done|].
  destruct ((194 <=? Byte.to_N b0) && (Byte.to_N b0 <=? 223)) eqn:E2.
  { destruct (is_cont (Byte.to_N b1)) eqn:C1; [|done].
    destruct (decode_utf8 r1) as [s'|] eqn:Hr; [|done].
    intros [= <-]. eexists [b0; b1], r1, _, s'.
    repeat split; try done; [simpl; lia|].
    unfold is_cont in C1. bool_facts.
    set (n0 := Byte.to_N b0) in *. set (n1 := Byte.to_N b1) in *.
    destruct (div_mod_64 (n0 - 192) (n1 - 128)) as [Hq Hm]; [lia|].
    cbn [encode_cp].
    destruct (N.ltb_spec ((n0 - 192) * 64 + (n1 - 128)) 128); [lia|].
    destruct (N.ltb_spec ((n0 - 192) * 64 + (n1 - 128)) 2048); [|lia].
    rewrite Hq, Hm.
    replace (192 + (n0 - 192)) with n0 by lia.
    replace (128 + (n1 - 128)) with n1 by lia.
    subst n0 n1. by rewrite !byte_of_to_N. }
  destruct r1 as [|b2 r2]; [done|].
  destruct ((224 <=? Byte.to_N b0) && (Byte.to_N b0 <=? 239)) eqn:E3.
  { match goal with |- context [if ?c then _ else None] => destruct c eqn:C end;
      [|done].
    destruct (decode_utf8 r2) as [s'|] eqn:Hr; [|done].
    intros [= <-]. eexists [b0; b1; b2], r2, _, s'.
    repeat split; try done; [simpl; lia|].
    unfold is_cont in C.
    set (n0 := Byte.to_N b0) in *. set (n1 := Byte.to_N b1) in *.
    set (n2 := Byte.to_N b2) in *.
    assert (Hb : 224 <= n0 <= 239 /\ 128 <= n1 <= 191 /\ 128 <= n2 <= 191 /\
                 (n0 = 224 -> 160 <= n1) /\ (n0 = 237 -> n1 <= 159)).
    { destruct (N.eqb_spec n0 224); destruct (N.eqb_spec n0 237);
        bool_facts; repeat split; lia. }
    clear C E2 E3 H0.
    set (c := (n0 - 224) * 4096 + (n1 - 128) * 64 + (n2 - 128)).
    assert (Hc : c = ((n0 - 224) * 64 + (n1 - 128)) * 64 + (n2 - 128))
      by (subst c; lia).
    destruct (div_mod_64 ((n0 - 224) * 64 + (n1 - 128)) (n2 - 128))
      as [Hq Hm]; [lia|].
    destruct (div_mod_64 (n0 - 224) (n1 - 128)) as [Hq1 Hm1]; [lia|].
    assert (Hd : c / 4096 = n0 - 224).
    { change 4096 with (64 * 64). rewrite <- N.Div0.div_div.
      by rewrite Hc, Hq, Hq1. }
    cbn [encode_cp].
    destruct (N.ltb_spec c 128); [lia|].
    destruct (N.ltb_spec c 2048); [lia|].
    destruct (N.ltb_spec c 65536); [|lia].
    destruct (N.leb_spec 55296 c); destruct (N.leb_spec c 57343);
      cbn [andb]; try lia;
      rewrite Hd; rewrite Hc at 1 2; rewrite Hq, Hm, Hm1;
      replace (224 + (n0 - 224)) with n0 by lia;
      replace (128 + (n1 - 128)) with n1 by lia;
      replace (128 + (n2 - 128)) with n2 by lia;
      subst n0 n1 n2; by rewrite !byte_of_to_N. }
  destruct r2 as [|b3 r3]; [done|].
  destruct ((240 <=? Byte.to_N b0) && (Byte.to_N b0 <=? 244)) eqn:E4; [|done].
  match goal with |- context [if ?c then _ else None] => destruct c eqn:C end;
    [|done].
  destruct (decode_utf8 r3) as [s'|] eqn:Hr; [|done].
  intros [= <-]. eexists [b0; b1; b2; b3], r3, _, s'.
  repeat split; try done; [simpl; lia|].
  unfold is_cont in C.
  set (n0 := Byte.to_N b0) in *. set (n1 := Byte.to_N b1) in *.
  set (n2 := Byte.to_N b2) in *. set (n3 := Byte.to_N b3) in *.
  assert (Hb : 240 <= n0 <= 244 /\ 128 <= n1 <= 191 /\ 128 <= n2 <= 191 /\
               128 <= n3 <= 191 /\
               (n0 = 240 -> 144 <= n1) /\ (n0 = 244 -> n1 <= 143)).
  { destruct (N.eqb_spec n0 240); destruct (N.eqb_spec n0 244);
      bool_facts; repeat split; lia. }
  clear C E2 E3 E4 H0.
  set (c := (n0 - 240) * 262144 + (n1 - 128) * 4096 + (n2 - 128) * 64
            + (n3 - 128)).
  set (c2 := (n0 - 240) * 64 + (n1 - 128)).
  set (c1 := c2 * 64 + (n2 - 128)).
  assert (Hc : c = c1 * 64 + (n3 - 128)) by (subst c c1 c2; lia).
  destruct (div_mod_64 c1 (n3 - 128)) as [Hq Hm]; [lia|].
  destruct (div_mod_64 c2 (n2 - 128)) as [Hq1 Hm1]; [lia|].
  destruct (div_mod_64 (n0 - 240) (n1 - 128)) as [Hq2 Hm2]; [lia|].
  fold c2 in Hq2, Hm2. fold c1 in Hq1, Hm1. rewrite <- Hc in Hq, Hm.
  assert (Hd1 : c / 4096 = c2).
  { change 4096 with (64 * 64). rewrite <- N.Div0.div_div.
    by rewrite Hq, Hq1. }
  assert (Hd2 : c / 262144 = n0 - 240).
  { change 262144 with (4096 * 64). rewrite <- N.Div0.div_div.
    by rewrite Hd1, Hq2. }
  cbn [encode_cp].
  destruct (N.ltb_spec c 128); [subst c; lia|].
  destruct (N.ltb_spec c 2048); [subst c; lia|].
  destruct (N.ltb_spec c 65536); [subst c; lia|].
  destruct (N.ltb_spec c 1114112); [|subst c; lia].
  rewrite Hd2, Hd1, Hq, Hm, Hm1, Hm2.
  replace (240 + (n0 - 240)) with n0 by lia.
  replace (128 + (n1 - 128)) with n1 by lia.
  replace (128 + (n2 - 128)) with n2 by lia.
  replace (128 + (n3 - 128)) with n3 by lia.
  subst n0 n1 n2 n3. by rewrite !byte_of_to_N.
Qed.

Lemma decode_encode bs s : decode_utf8 bs = Some s -> encode UTF8 s = Some bs.
Proof.
  remember (length bs) as n eqn:Hn. revert bs s Hn.
  induction n as [n IH] using lt_wf_ind. intros bs s -> Hs.
  destruct bs as [|b0 r0]; [by injection Hs as <-|].
  destruct (encode_cp_decoded _ _ _ Hs)
    as (pre & rest & c & s' & Hb & -> & Hrest & Hlen & Hc).
  rewrite Hb. cbn [encode]. rewrite Hc.
  by rewrite (IH (length rest) Hlen rest s' eq_refl Hrest).
Qed.

Lemma decode_encoded_cp c pre rest :
  encode_cp UTF8 c = Some pre ->
  decode_utf8 (pre ++ rest) = cons c <$> decode_utf8 rest.
Proof.
  cbn [encode_cp].
  destruct (N.ltb_spec c 128) as [H1|H1].
  { intros [= <-]. cbn [app decode_utf8].
    rewrite to_N_byte_of by lia. by rewrite (proj2 (N.ltb_lt _ _) H1). }
  pose proof (N.div_mod c 64 ltac:(lia)) as Hdm.
  pose proof (N.mod_lt c 64 ltac:(lia)) as Hm.
  pose proof (N.div_mod (c / 64) 64 ltac:(lia)) as Hdm1.
  pose proof (N.mod_lt (c / 64) 64 ltac:(lia)) as Hm1.
  pose proof (N.div_mod (c / 64 / 64) 64 ltac:(lia)) as Hdm2.
  pose proof (N.mod_lt (c / 64 / 64) 64 ltac:(lia)) as Hm2.
  assert (Hd : c / 4096 = c / 64 / 64).
  { change 4096 with (64 * 64). by rewrite N.Div0.div_div. }
  assert (Hd2 : c / 262144 = c / 64 / 64 / 64).
  { change 262144 with (64 * 64 * 64). by rewrite !N.Div0.div_div. }
  rewrite Hd2, Hd. clear Hd Hd2.
  generalize dependent (c / 64 / 64 / 64). intros q3.
  generalize dependent ((c / 64 / 64) mod 64). intros m2.
  generalize dependent (c / 64 / 64). intros q2.
  generalize dependent ((c / 64) mod 64). intros m1.
  generalize dependent (c / 64). intros q1.
  generalize dependent (c mod 64). intros m.
  intros Hm Hdm Hm1 Hdm1 Hm2 Hdm2.
  destruct (N.ltb_spec c 2048) as [H2|H2].
  { intros [= <-]. cbn [app decode_utf8].
    rewrite !to_N_byte_of by lia.
    destruct (N.ltb_spec (192 + q1) 128); [lia|].
    destruct (N.leb_spec 194 (192 + q1)); [|lia].
    destruct (N.leb_spec (192 + q1) 223); [|lia]. cbn [andb].
    unfold is_cont.
    destruct (N.leb_spec 128 (128 + m)); [|lia].
    destruct (N.leb_spec (128 + m) 191); [|lia]. cbn [andb].
    replace ((192 + q1 - 192) * 64 + (128 + m - 128)) with c by lia.
    done. }
  destruct (N.ltb_spec c 65536) as [H3|H3].
  { destruct ((55296 <=? c) && (c <=? 57343)) eqn:Hs; [done|].
    intros [= <-]. cbn [app decode_utf8].
    assert (Hsur : c < 55296 \/ 57343 < c).
    { destruct (N.leb_spec 55296 c); destruct (N.leb_spec c 57343);
        cbn in Hs; try done; lia. }
    rewrite !to_N_byte_of by lia.
    destruct (N.ltb_spec (224 + q2) 128); [lia|].
    destruct (N.leb_spec 194 (224 + q2)); [|lia].
    destruct (N.leb_spec (224 + q2) 223); [lia|]. cbn [andb].
    destruct (N.leb_spec 224 (224 + q2)); [|lia].
    destruct (N.leb_spec (224 + q2) 239); [|lia]. cbn [andb].
    unfold is_cont.
    assert ((if 224 + q2 =? 224 then 160 else 128) <= 128 + m1).
    { destruct (N.eqb_spec (224 + q2) 224); lia. }
    assert (128 + m1 <= (if 224 + q2 =? 237 then 159 else 191)).
    { destruct (N.eqb_spec (224 + q2) 237); lia. }
    destruct (N.leb_spec (if 224 + q2 =? 224 then 160 else 128) (128 + m1));
      [|lia].
    destruct (N.leb_spec (128 + m1) (if 224 + q2 =? 237 then 159 else 191));
      [|lia].
    destruct (N.leb_spec 128 (128 + m)); [|lia].
    destruct (N.leb_spec (128 + m) 191); [|lia]. cbn [andb].
    replace ((224 + q2 - 224) * 4096 + (128 + m1 - 128) * 64 + (128 + m - 128))
      with c by lia.
    done. }
  destruct (N.ltb_spec c 1114112) as [H4|H4]; [|done].
  intros [= <-]. cbn [app decode_utf8].
  rewrite !to_N_byte_of by lia.
  destruct (N.ltb_spec (240 + q3) 128); [lia|].
  destruct (N.leb_spec 194 (240 + q3)); [|lia].
  destruct (N.leb_spec (240 + q3) 223); [lia|]. cbn [andb].
  destruct (N.leb_spec 224 (240 + q3)); [|lia].
  destruct (N.leb_spec (240 + q3) 239); [lia|]. cbn [andb].
  destruct (N.leb_spec 240 (240 + q3)); [|lia].
  destruct (N.leb_spec (240 + q3) 244); [|lia]. cbn [andb].
  unfold is_cont.
  assert ((if 240 + q3 =? 240 then 144 else 128) <= 128 + m2).
  { destruct (N.eqb_spec (240 + q3) 240); lia. }
  assert (128 + m2 <= (if 240 + q3 =? 244 then 143 else 191)).
  { destruct (N.eqb_spec (240 + q3) 244); lia. }
  destruct (N.leb_spec (if 240 + q3 =? 240 then 144 else 128) (128 + m2));
    [|lia].
  destruct (N.leb_spec (128 + m2) (if 240 + q3 =? 244 then 143 else 191));
    [|lia].
  destruct (N.leb_spec 128 (128 + m1)); [|lia].
  destruct (N.leb_spec (128 + m1) 191); [|lia].
  destruct (N.leb_spec 128 (128 + m)); [|lia].
  destruct (N.leb_spec (128 + m) 191); [|lia]. cbn [andb].
  replace ((240 + q3 - 240) * 262144 + (128 + m2 - 128) * 4096
           + (128 + m1 - 128) * 64 + (128 + m - 128)) with c by lia.
  done.
Qed.

Lemma encode_decode s bs : encode UTF8 s = Some bs -> decode_utf8 bs = Some s.
Proof.
  revert bs. induction s as [|c s IH]; intros bs.
  { by intros [= <-]. }
  cbn [encode].
  destruct (encode_cp UTF8 c) as [pre|] eqn:Hc; [|done].
  destruct (encode UTF8 s) as [r|] eqn:Hr; [|done].
  intros [= <-]. rewrite (decode_encoded_cp _ _ _ Hc), (IH r eq_refl). done.
Qed.

Lemma digits_of_uint d :
  forallb is_digit (lit (NilEmpty.string_of_uint d)) = true.
Proof.
  unfold lit.
  induction d; cbn [NilEmpty.string_of_uint list_ascii_of_string map forallb];
    rewrite ?IHd; done.
Qed.

(** The decimal notation of a number is made of digits. *)
Lemma decimal_digits n : forallb is_digit (decimal n) = true.
Proof.
  unfold decimal, NilZero.string_of_uint.
  destruct (N.to_uint n); try apply digits_of_uint; done.
Qed.

Lemma digits_ascii s :
  forallb is_digit s = true -> forallb (fun c => c <? 128) s = true.
Proof.
  induction s as [|c s IH]; [done|]. cbn [forallb].
  intros [Hc Hs]%andb_prop. rewrite (IH Hs), andb_true_r.
  unfold is_digit in Hc. bool_facts. apply N.ltb_lt. lia.
Qed.

Lemma zero_pad_ascii w s :
  forallb is_digit s = true ->
  forallb (fun c => c <? 128) (zero_pad w s) = true.
Proof.
  intros Hs. unfold zero_pad. rewrite forallb_app, (digits_ascii _ Hs).
  rewrite andb_true_r. by induction (w - length s)%nat.
Qed.

(** The development version is ASCII, whatever the clock says. *)
Lemma dev_version_ascii t :
  forallb (fun c => c <? 128) (dev_version t) = true.
Proof.
  rewrite dev_version_fields, !forallb_app.
  rewrite (digits_ascii _ (decimal_digits _)).
  rewrite !zero_pad_ascii by apply decimal_digits. done.
Qed.

(** X19. The UTF-8 decoder that reads the output of git and the UTF-8
    encoder that writes the header are inverse of each other: bytes
    decode to a text exactly when the text encodes to these bytes. *)
Theorem utf8_round_trip (bs : list byte) (s : str) :
  decode_utf8 bs = Some s <-> encode UTF8 s = Some bs.
Proof. split; [apply decode_encode|apply encode_decode]. Qed.

(** X20. [write] can fail only in a CI build outside a UTF-8 locale.  In
    local mode the header is ASCII and has the same bytes in every
    locale; in a UTF-8 locale every version that the script resolves can
    be encoded. *)
Theorem header_encodes (w : world) (s : state) v s1 :
  version w s = (Normal v, s1) ->
  (is_ci w = false ->
   forall enc, encode enc (header_content v)
               = Some (ascii_bytes (header_content v))) /\
  (text_encoding w = UTF8 ->
   is_Some (encode (text_encoding w) (header_content v))).
Proof.
  intros Hv.
  assert (Hlocal : is_ci w = false ->
            forallb (fun c => c <? 128) (header_content v) = true).
  { intros Hci. rewrite (version_local w s Hci) in Hv. injection Hv as <- _.
    unfold header_content. rewrite !forallb_app, dev_version_ascii. done. }
  split.
  - intros Hci enc. by apply encode_ascii, Hlocal.
  - intros ->. destruct (is_ci w) eqn:Hci.
    + rewrite encode_header. revert Hv. unfold version. rewrite Hci.
      run_script. destruct (git_describe w) as [out|e]; cbn.
      * destruct (decode_utf8 (strip out)) as [v'|] eqn:Hd; [|done].
        intros [= <- _]. by rewrite (decode_encode _ _ Hd).
      * by destruct e.
    + rewrite encode_ascii by auto. done.
Qed.

(** X21. In a UTF-8 locale a CI build hands the bytes of git through:
    after a run that succeeds, the header file holds, between the quotes
    of the define line, the bytes that git printed, stripped, as they
    are. *)
Theorem utf8_header_has_git_bytes (w : world) (s s' : state) :
  is_ci w = true ->
  text_encoding w = UTF8 ->
  get_version w s = (Normal tt, s') ->
  exists out,
    git_describe w = Returned out /\
    read_file (fs s') (cwd w) (version_file_path w)
    = Some (ascii_bytes (lit "#pragma once" ++ NL ++ NL ++
                         lit "#define FIRMWARE_VERSION " ++ DQ)
            ++ strip out ++ ascii_bytes (DQ ++ NL)).
Proof.
  intros Hci Henc Hrun.
  destruct (ci_success_has_tag w s s' Hci Hrun)
    as (out & v & bytes & Hg & Hd & Hb & Hfile).
  exists out. split; [done|].
  rewrite Henc, encode_header, (decode_encode _ _ Hd) in Hb.
  cbn in Hb. by injection Hb as <-.
Qed.

(** ** Further properties: the file system *)

Lemma only_adds_dirs_refl fs : only_adds_dirs fs fs.
Proof. intros k. by left. Qed.

Lemma only_adds_dirs_trans fs1 fs2 fs3 :
  only_adds_dirs fs1 fs2 -> only_adds_dirs fs2 fs3 -> only_adds_dirs fs1 fs3.
Proof.
  intros H12 H23 k.
  destruct (H23 k) as [->|(Hn & ->)]; [apply H12|].
  right. split; [|done]. destruct (H12 k) as [<-|(? & ?)]; [done|congruence].
Qed.

(** The last step of a resolution that ends on a regular file or on a
    missing name: a name looked up in a directory. *)
Lemma walk_last fs cs st0 st :
  fold_left (namei_step fs) cs st0 = st ->
  at_dir st0 = true \/ (exists e, st0 = Stuck e) ->
  match st with
  | AtFile f false =>
      exists cs' c q, cs = cs' ++ [c] /\
        fold_left (namei_step fs) cs' st0 = AtDir q /\ f = q ++ [c] /\
        exists x, fs !! f = Some (File x)
  | AtMissing p n false =>
      exists cs', cs = cs' ++ [n] /\
        fold_left (namei_step fs) cs' st0 = AtDir p /\ fs !! (p ++ [n]) = None
  | _ => True
  end.
Proof.
  intros <- Hst0. destruct cs as [|c0 cs0] using rev_ind.
  { cbn. destruct Hst0 as [H|[e ->]]; [by destruct st0|done]. }
  rewrite fold_left_app. cbn [fold_left]. clear IHcs0.
  destruct (fold_left (namei_step fs) cs0 st0) as [q|q sl|p n sl|e] eqn:Hq;
    cbn [namei_step].
  - destruct (bool_decide (c0 = []) || bool_decide (c0 = lit ".")); [done|].
    destruct (bool_decide (c0 = lit "..")); [done|].
    destruct (name_too_long c0); [done|].
    destruct (fs !! (q ++ [c0])) as [[|x]|] eqn:E; [done| |].
    + exists cs0, c0, q. rewrite E. eauto.
    + exists cs0. eauto.
  - by destruct (bool_decide (c0 = [])).
  - by destruct (bool_decide (c0 = [])).
  - done.
Qed.

Lemma namei_start_cases fs wd path :
  at_dir (namei_start fs wd path) = true \/
  exists e, namei_start fs wd path = Stuck e.
Proof.
  unfold namei_start. destruct (startswith_sep path); [by left|].
  destruct (dir_at fs wd); [by left|right; eauto].
Qed.

Lemma namei_start_keeps_dirs fs fs' wd path q :
  keeps_dirs fs fs' ->
  namei_start fs wd path = AtDir q -> namei_start fs' wd path = AtDir q.
Proof.
  intros Hk. unfold namei_start. destruct (startswith_sep path); [done|].
  destruct (dir_at fs wd) eqn:Hwd; [|done].
  by rewrite (dir_at_keeps _ _ _ Hk Hwd).
Qed.

Lemma walk_nonempty fs wd path :
  path <> [] ->
  walk fs wd path
  = fold_left (namei_step fs) (components path) (namei_start fs wd path).
Proof. by destruct path. Qed.

Lemma namei_step_sound fs st c : sound fs st -> sound fs (namei_step fs st c).
Proof.
  destruct st as [q|q sl|p n sl|e]; cbn [namei_step sound]; try done.
  - intros _. destruct (bool_decide (c = []) || bool_decide (c = lit "."));
      [done|].
    destruct (bool_decide (c = lit "..")); [done|].
    destruct (name_too_long c); [done|].
    destruct (fs !! (q ++ [c])) as [[|x]|] eqn:E; cbn; eauto.
  - by destruct (bool_decide (c = [])).
  - by destruct (bool_decide (c = [])).
Qed.

Lemma walk_sound fs wd path : sound fs (walk fs wd path).
Proof.
  destruct path as [|c0 path0]; [done|]. unfold walk.
  assert (Hs : sound fs (namei_start fs wd (c0 :: path0))).
  { unfold namei_start. destruct (startswith_sep _); [done|].
    by destruct (dir_at fs wd). }
  revert Hs. generalize (namei_start fs wd (c0 :: path0)).
  induction (components (c0 :: path0)) as [|c cs IH]; intros st Hst; [done|].
  cbn [fold_left]. by apply IH, namei_step_sound.
Qed.

Lemma namei_sound fs wd path : sound fs (namei fs wd path).
Proof.
  unfold namei. destruct (refusal path); [done|apply walk_sound].
Qed.

(** Where [open(path, "w")] puts the file: after the file is there, the
    path names it. *)
Lemma walk_created_file fs wd path f c :
  walk fs wd path = AtFile f false \/
  (exists p n, walk fs wd path = AtMissing p n false /\ f = p ++ [n]) ->
  fs !! f <> Some Dir /\
  walk (<[f := File c]> fs) wd path = AtFile f false.
Proof.
  intros Hf.
  assert (Hne : path <> []).
  { intros ->. by destruct Hf as [?|(? & ? & ? & ?)]. }
  assert (exists cs' n q,
    components path = cs' ++ [n] /\
    fold_left (namei_step fs) cs' (namei_start fs wd path) = AtDir q /\
    f = q ++ [n] /\ fs !! f <> Some Dir /\
    (namei_step fs (AtDir q) n = AtFile (q ++ [n]) false \/
     namei_step fs (AtDir q) n = AtMissing q n false))
    as (cs' & n & q & Hcs & Hq & -> & Hnd & Hstep).
  { rewrite walk_nonempty in Hf by done.
    destruct Hf as [Hf|(p & n & Hf & ->)];
      pose proof (walk_last _ _ _ _ Hf (namei_start_cases fs wd path)) as Hl;
      cbn in Hl.
    - destruct Hl as (cs' & n & q & Hcs & Hq & -> & x & Hx).
      exists cs', n, q. rewrite Hcs, fold_left_app, Hq in Hf. cbn [fold_left] in Hf.
      rewrite Hf, Hx. eauto 10.
    - destruct Hl as (cs' & Hcs & Hq & Hx).
      exists cs', n, p. rewrite Hcs, fold_left_app, Hq in Hf. cbn [fold_left] in Hf.
      rewrite Hf, Hx. eauto 10. }
  split; [done|].
  assert (Hk : keeps_dirs fs (<[q ++ [n] := File c]> fs))
    by by apply keeps_dirs_insert.
  assert (Hd : at_dir (namei_start fs wd path) = true).
  { apply (walk_at_dir fs cs'). by rewrite Hq. }
  destruct (namei_start fs wd path) as [a| | |] eqn:Hs; try done.
  rewrite walk_nonempty by done.
  rewrite Hcs, fold_left_app, (namei_start_keeps_dirs _ _ _ _ _ Hk Hs).
  rewrite (walk_keeps_dirs _ _ _ _ _ Hk Hq). cbn [fold_left].
  revert Hstep. cbn [namei_step].
  destruct (bool_decide (n = []) || bool_decide (n = lit "."));
    [by intros [?|?]|].
  destruct (bool_decide (n = lit "..")); [by intros [?|?]|].
  destruct (name_too_long n); [by intros [?|?]|].
  by rewrite lookup_insert_eq.
Qed.

Lemma namei_created_file fs wd path f c :
  namei fs wd path = AtFile f false \/
  (exists p n, namei fs wd path = AtMissing p n false /\ f = p ++ [n]) ->
  fs !! f <> Some Dir /\
  namei (<[f := File c]> fs) wd path = AtFile f false.
Proof.
  intros Hf. pose proof (namei_walk fs wd path) as Hw.
  assert (Hr : refusal path = None).
  { destruct Hf as [Hf|(p & n & Hf & _)]; rewrite Hf in Hw; apply Hw. }
  rewrite !namei_admitted in * by done. by apply walk_created_file.
Qed.

Lemma mkdir_frame wd p s r s' :
  mkdir wd p s = (r, s') ->
  stdout s' = stdout s /\ only_adds_dirs (fs s) (fs s').
Proof.
  unfold mkdir. pose proof (namei_sound (fs s) wd p) as Hs.
  destruct (namei (fs s) wd p) as [| |parent n sl|[]] eqn:E;
    try (intros [= <- <-]; split; [done|apply only_adds_dirs_refl]).
  intros [= <- <-]. cbn [fs stdout]. split; [done|].
  intros k. destruct (decide (k = parent ++ [n])) as [->|Hk].
  - right. by rewrite lookup_insert_eq.
  - left. by rewrite lookup_insert_ne.
Qed.

(** [os.makedirs] keeps every entry and adds directories only, whether it
    succeeds or fails; it prints nothing. *)
Lemma makedirs_frame fuel wd name s r s' :
  makedirs fuel wd name s = (r, s') ->
  stdout s' = stdout s /\ only_adds_dirs (fs s) (fs s').
Proof.
  revert name s r s'. induction fuel as [|fuel IH]; intros name s r s'.
  { intros [= <- <-]. split; [done|apply only_adds_dirs_refl]. }
  cbn [makedirs]. destruct (split name) as [h t].
  destruct (if bool_decide (t = []) then split h else (h, t)) as [h' t'].
  destruct (negb (bool_decide (h' = [])) && negb (bool_decide (t' = [])));
    [|apply mkdir_frame].
  destruct (exists_ (fs s) wd h'); [apply mkdir_frame|].
  unfold mbind, M_bind, try_except.
  destruct (makedirs fuel wd h' s) as [r1 s1] eqn:Hrec.
  apply IH in Hrec as [Hout Hfs].
  assert (Hleaf : forall r s',
    (if bool_decide (t' = lit ".") then mret tt else mkdir wd name) s1
    = (r, s') ->
    stdout s' = stdout s /\ only_adds_dirs (fs s) (fs s')).
  { intros r0 s0. destruct (bool_decide (t' = lit ".")).
    - by intros [= <- <-].
    - intros [Ho Hf]%mkdir_frame. split; [congruence|].
      by eapply only_adds_dirs_trans. }
  destruct r1 as [[]|e|c]; [apply Hleaf| |by intros [= <- <-]].
  destruct e; try (by intros [= <- <-]). apply Hleaf.
Qed.

(** What [emit] does to the state.  Directories may be added.  Then, once
    [open] has succeeded and not before, the file the output path names
    is there: with the bytes of the header and the confirmation printed
    in a run that succeeds, empty when the header cannot be encoded and
    [write] raises [UnicodeEncodeError]. *)
Lemma emit_effect (w : world) (v : str) (s : state) r s' :
  emit w v s = (r, s') ->
  (r <> Normal tt /\ stdout s' = stdout s /\ only_adds_dirs (fs s) (fs s')) \/
  (exists fs1 f content,
     only_adds_dirs (fs s) fs1 /\ fs1 !! f <> Some Dir /\
     fs s' = <[f := File content]> fs1 /\
     namei (fs s') (cwd w) (version_file_path w) = AtFile f false /\
     match encode (text_encoding w) (header_content v) with
     | Some bytes =>
         r = Normal tt /\ content = bytes /\
         stdout s' = stdout s ++ [confirmation w v]
     | None =>
         r = Raise UnicodeEncodeError /\ content = [] /\ stdout s' = stdout s
     end).
Proof.
  unfold emit. unfold mbind at 1, M_bind at 1.
  set (step1 := if negb (isdir (fs s) (cwd w) (include_dir w))
                then makedirs (S (stack_room w)) (cwd w) (include_dir w) s
                else (Normal tt, s)).
  assert (Hstep1 : stdout (snd step1) = stdout s /\
                   only_adds_dirs (fs s) (fs (snd step1))).
  { subst step1. destruct (negb _).
    - destruct (makedirs _ _ _ s) as [r1 s1] eqn:E. by apply makedirs_frame in E.
    - split; [done|apply only_adds_dirs_refl]. }
  destruct step1 as [[[]|e|c] s1]; cbn [snd] in Hstep1;
    destruct Hstep1 as [Hout1 Hfs1];
    [|intros [= <- <-]; by left..].
  unfold open_w, write, print, mbind, M_bind.
  destruct (namei (fs s1) (cwd w) (version_file_path w))
    as [|f []|p n []|[]] eqn:E;
    try (intros [= <- <-]; by left).
  - destruct (namei_created_file (fs s1) (cwd w) (version_file_path w) f [])
      as [Hnd Hn]; [by left|].
    cbn [fs stdout].
    destruct (encode (text_encoding w) (header_content v)) as [bytes|] eqn:Hb.
    + rewrite lookup_insert_eq. intros [= <- <-]. right.
      cbn [fs stdout app]. rewrite insert_insert_eq.
      destruct (namei_created_file (fs s1) (cwd w) (version_file_path w) f
                  bytes) as [_ Hn']; [by left|].
      exists (fs s1), f, bytes. by rewrite Hout1.
    + intros [= <- <-]. right. cbn [fs stdout].
      by exists (fs s1), f, [].
  - destruct (namei_created_file (fs s1) (cwd w) (version_file_path w)
                (p ++ [n]) []) as [Hnd Hn]; [right; eauto|].
    cbn [fs stdout].
    destruct (encode (text_encoding w) (header_content v)) as [bytes|] eqn:Hb.
    + rewrite lookup_insert_eq. intros [= <- <-]. right.
      cbn [fs stdout app]. rewrite insert_insert_eq.
      destruct (namei_created_file (fs s1) (cwd w) (version_file_path w)
                  (p ++ [n]) bytes) as [_ Hn']; [right; eauto|].
      exists (fs s1), (p ++ [n]), bytes. by rewrite Hout1.
    + intros [= <- <-]. right. cbn [fs stdout].
      by exists (fs s1), (p ++ [n]), [].
Qed.

(** The version block prints its first line and, when it returns,
    nothing else. *)
Lemma version_normal (w : world) (s : state) v s1 :
  version w s = (Normal v, s1) ->
  fs s1 = fs s /\ stdout s1 = stdout s ++ [mode_line w].
Proof.
  unfold mode_line. run_script. destruct (is_ci w).
  - destruct (git_describe w) as [out|e]; cbn.
    + destruct (decode_utf8 (strip out)); [|done]. by intros [= _ <-].
    + by destruct e.
  - by intros [= _ <-].
Qed.

Lemma version_stdout (w : world) (s : state) :
  exists rest, stdout (snd (version w s)) = stdout s ++ mode_line w :: rest.
Proof.
  unfold mode_line. run_script. destruct (is_ci w); [|by exists []].
  destruct (git_describe w) as [out|e]; cbn.
  - destruct (decode_utf8 (strip out)); by exists [].
  - destruct e; cbn; try (by exists []).
    + eexists. by rewrite <- !app_assoc.
    + eexists. by rewrite <- !app_assoc.
Qed.

(** The version does not depend on the state the run starts in. *)
Lemma version_any_state (w : world) (s s' : state) :
  fst (version w s) = fst (version w s').
Proof. by apply version_inputs. Qed.

(** X8. With an empty include-directory setting the run fails: once the
    version is resolved, [os.makedirs] raises [FileNotFoundError] on the
    empty path; nothing is made or written. *)
Theorem empty_include_dir_fails (w : world) (s : state) v s1 :
  include_dir w = [] ->
  version w s = (Normal v, s1) ->
  get_version w s = (Raise FileNotFoundError, s1) /\ fs s1 = fs s.
Proof.
  intros Hd Hv. split; [|by eapply version_fs].
  unfold get_version, mbind, M_bind. rewrite Hv.
  unfold emit. unfold mbind at 1, M_bind at 1. rewrite Hd. done.
Qed.

Lemma namei_step_fs_irrelevant fs fs' st c :
  at_dir st = false ->
  namei_step fs st c = namei_step fs' st c /\
  at_dir (namei_step fs st c) = false.
Proof.
  destruct st; try done; intros _; cbn; by destruct (bool_decide (c = [])).
Qed.

Lemma walk_fs_irrelevant fs fs' cs st :
  at_dir st = false ->
  fold_left (namei_step fs) cs st = fold_left (namei_step fs') cs st.
Proof.
  revert st. induction cs as [|c cs IH]; intros st Hst; [done|].
  cbn [fold_left].
  destruct (namei_step_fs_irrelevant fs fs' st c Hst) as [<- Hd].
  by apply IH.
Qed.

Lemma walk_stuck fs cs e : fold_left (namei_step fs) cs (Stuck e) = Stuck e.
Proof. induction cs; [done|]. by cbn. Qed.

Lemma walk_from_missing fs cs p n sl :
  creatable (fold_left (namei_step fs) cs (AtMissing p n sl)).
Proof.
  assert (H : forall st, creatable st ->
            creatable (fold_left (namei_step fs) cs st)).
  { induction cs as [|c cs IH]; intros st Hst; [done|].
    cbn [fold_left]. apply IH.
    destruct st as [| | |[]]; try done; cbn; by destruct (bool_decide (c = [])). }
  by apply H.
Qed.

(** A regular file in the way stays in the way when kinds are kept. *)
Lemma walk_blocked fs fs' cs a :
  keeps_kinds fs fs' ->
  blocked (fold_left (namei_step fs) cs (AtDir a)) ->
  blocked (fold_left (namei_step fs') cs (AtDir a)).
Proof.
  intros [Hd Hf]. revert a. induction cs as [|c cs IH]; intros a; [done|].
  cbn [fold_left namei_step].
  destruct (bool_decide (c = []) || bool_decide (c = lit ".")); [apply IH|].
  destruct (bool_decide (c = lit "..")); [apply IH|].
  destruct (name_too_long c); [by rewrite !walk_stuck|].
  destruct (fs !! (a ++ [c])) as [[|x]|] eqn:E.
  - rewrite (Hd _ E). apply IH.
  - destruct (Hf _ _ E) as [y ->].
    by rewrite (walk_fs_irrelevant fs fs').
  - intros Hb. exfalso.
    pose proof (walk_from_missing fs cs a c false) as Hc.
    by destruct (fold_left _ cs _) as [| | |[]].
Qed.

Lemma walk_path_blocked fs fs' wd path :
  keeps_kinds fs fs' ->
  blocked (walk fs wd path) -> blocked (walk fs' wd path).
Proof.
  intros Hk. destruct (decide (path = [])) as [->|Hne]; [done|].
  rewrite !walk_nonempty by done. unfold namei_start.
  destruct (startswith_sep path); [by apply walk_blocked|].
  destruct (dir_at fs wd) eqn:Hwd.
  - rewrite (dir_at_keeps _ _ _ (proj1 Hk) Hwd). by apply walk_blocked.
  - by rewrite walk_stuck.
Qed.

Lemma namei_blocked fs fs' wd path :
  keeps_kinds fs fs' ->
  blocked (namei fs wd path) -> blocked (namei fs' wd path).
Proof.
  intros Hk Hb. pose proof (namei_walk fs wd path) as Hw.
  assert (Hr : refusal path = None).
  { destruct (namei fs wd path) as [| | |[]]; try done; apply Hw. }
  rewrite !namei_admitted in * by done. by eapply walk_path_blocked.
Qed.

Lemma only_adds_dirs_keeps_kinds fs fs' :
  only_adds_dirs fs fs' -> keeps_kinds fs fs'.
Proof.
  intros H. split.
  - intros k Hk. destruct (H k) as [->|[? _]]; congruence.
  - intros k x Hk. destruct (H k) as [->|[? _]]; [eauto|congruence].
Qed.

Lemma written_keeps_kinds fs fs1 f c :
  only_adds_dirs fs fs1 -> fs1 !! f <> Some Dir ->
  keeps_kinds fs (<[f := File c]> fs1).
Proof.
  intros [Hd Hf]%only_adds_dirs_keeps_kinds Hnd. split.
  - intros k Hk. rewrite lookup_insert_ne; [by apply Hd|].
    intros ->. by apply Hd in Hk.
  - intros k x Hk. destruct (decide (k = f)) as [->|Hne].
    + rewrite lookup_insert_eq. eauto.
    + rewrite lookup_insert_ne by done. eauto.
Qed.

(** How a run ends and what it leaves: the state after [version], then
    the effect of [emit]. *)
Lemma get_version_effect (w : world) (s : state) :
  (fst (get_version w s) <> Normal tt /\
   only_adds_dirs (fs s) (fs (snd (get_version w s)))) \/
  (exists v fs1 f content,
     fst (version w s) = Normal v /\
     only_adds_dirs (fs s) fs1 /\ fs1 !! f <> Some Dir /\
     fs (snd (get_version w s)) = <[f := File content]> fs1 /\
     namei (fs (snd (get_version w s))) (cwd w) (version_file_path w)
       = AtFile f false /\
     match encode (text_encoding w) (header_content v) with
     | Some bytes =>
         fst (get_version w s) = Normal tt /\ content = bytes /\
         stdout (snd (get_version w s))
           = stdout s ++ [mode_line w; confirmation w v]
     | None =>
         fst (get_version w s) = Raise UnicodeEncodeError /\ content = [] /\
         stdout (snd (get_version w s)) = stdout s ++ [mode_line w]
     end).
Proof.
  unfold get_version, mbind, M_bind.
  destruct (version w s) as [[v|e|c] s1] eqn:Hv.
  - destruct (version_normal _ _ _ _ Hv) as [Hfs Hout].
    destruct (emit w v s1) as [r s'] eqn:He. cbn [fst snd].
    apply emit_effect in He
      as [(Hr & _ & Ha)|(fs1 & f & content & H1 & H2 & H3 & H4 & H5)].
    + left. by rewrite <- Hfs.
    + right. exists v, fs1, f, content. rewrite <- Hfs.
      repeat split; try done.
      destruct (encode (text_encoding w) (header_content v));
        destruct H5 as (-> & -> & Ho); repeat split; try done.
      * by rewrite Ho, Hout, <- app_assoc.
      * by rewrite Ho, Hout.
  - left. cbn. rewrite (version_fs _ _ _ _ Hv). split; [done|].
    apply only_adds_dirs_refl.
  - left. cbn. rewrite (version_fs _ _ _ _ Hv). split; [done|].
    apply only_adds_dirs_refl.
Qed.

(** Once [open] has succeeded the include directory is there. *)
Lemma opened_in_include_dir fs wd d f :
  d <> [] ->
  namei fs wd (join d (lit "version.h")) = AtFile f false ->
  exists q, namei fs wd d = AtDir q.
Proof.
  intros Hd Hf. pose proof (namei_walk fs wd (join d (lit "version.h"))) as Hw.
  rewrite Hf in Hw. destruct Hw as [Hr _].
  rewrite namei_join in Hf by (done || apply version_h_plain).
  rewrite (namei_step_name _ _ _ version_h_plain) in Hf.
  destruct (namei fs wd d) as [q| | |]; try done. eauto.
Qed.

(** X9. A regular file anywhere on the include-directory path, as the
    directory itself or where one of its parents should be, makes every
    run fail, and such a run changes no regular file and removes
    nothing. *)
Theorem file_in_the_way_fails (w : world) (s : state) :
  blocked (namei (fs s) (cwd w) (include_dir w)) ->
  fst (get_version w s) <> Normal tt /\
  only_adds_dirs (fs s) (fs (snd (get_version w s))).
Proof.
  intros Hb.
  destruct (get_version_effect w s)
    as [[Hr Ha]|(v & fs1 & f & content & _ & H1 & H2 & H3 & H4 & _)]; [done|].
  exfalso.
  assert (Hk : keeps_kinds (fs s) (fs (snd (get_version w s)))).
  { rewrite H3. by apply written_keeps_kinds. }
  assert (Hd : include_dir w <> []).
  { intros Hnil. by rewrite Hnil in Hb. }
  apply (namei_blocked _ _ _ _ Hk) in Hb.
  apply opened_in_include_dir in H4 as [q Hq]; [|done].
  by rewrite Hq in Hb.
Qed.


(** X11. Running again with the same inputs after a run that succeeded
    succeeds again and leaves the file system exactly as the first run
    left it. *)
Theorem rerun_changes_nothing (w : world) (s s' : state) :
  get_version w s = (Normal tt, s') ->
  exists s'', get_version w s' = (Normal tt, s'') /\ fs s'' = fs s'.
Proof.
  intros Hrun.
  destruct (get_version_effect w s)
    as [[Hr _]|(v & fs1 & f & content & Hv & _ & _ & H3 & H4 & H5)];
    [by rewrite Hrun in Hr|].
  rewrite Hrun in H3, H4, H5. cbn [fst snd] in H3, H4, H5.
  destruct (encode (text_encoding w) (header_content v)) as [bytes|] eqn:Hb;
    [|by destruct H5]. destruct H5 as (_ & -> & _).
  assert (Hdir : isdir (fs s') (cwd w) (include_dir w) = true).
  { revert Hrun. unfold get_version, mbind, M_bind.
    destruct (version w s) as [[v'|e|c] s1]; try done.
    by intros (_ & _ & Hdir & _)%emit_normal. }
  assert (Hf : fs s' !! f = Some (File bytes))
    by by rewrite H3, lookup_insert_eq.
  rewrite (version_any_state w s s') in Hv.
  unfold get_version, mbind, M_bind.
  destruct (version w s') as [[v'|e|c] s1] eqn:Hv'; try done.
  cbn in Hv. injection Hv as ->.
  apply version_fs in Hv'.
  unfold emit. unfold mbind at 1, M_bind at 1. rewrite Hv', Hdir. cbn [negb].
  unfold open_w, write, print, mbind, M_bind. rewrite Hv', H4, Hb.
  cbn [fs]. rewrite lookup_insert_eq. eexists. split; [done|].
  cbn [fs app]. by rewrite insert_insert_eq, insert_id.
Qed.



(** X13. When the output path names a directory, a run that resolves a
    version fails, and nothing is made or written: it ends with
    [IsADirectoryError] from [open], or, when the include-directory
    setting is empty, with [FileNotFoundError] from [os.makedirs] before
    [open] is reached. *)
Theorem version_h_is_a_directory (w : world) (s : state) v s1 :
  isdir (fs s) (cwd w) (version_file_path w) = true ->
  version w s = (Normal v, s1) ->
  get_version w s
  = (Raise (if bool_decide (include_dir w = []) then FileNotFoundError
            else IsADirectoryError), s1) /\
  fs s1 = fs s.
Proof.
  intros Hp Hv. pose proof (version_fs _ _ _ _ Hv) as Hfs.
  split; [|done].
  unfold get_version, mbind, M_bind. rewrite Hv.
  unfold emit. unfold mbind at 1, M_bind at 1. rewrite Hfs.
  case_bool_decide as Hd.
  { rewrite Hd.
    replace (isdir (fs s) (cwd w) []) with false by done. cbn [negb].
    pose proof (makedirs_empty (stack_room w) (cwd w) s1) as He.
    destruct (makedirs (S (stack_room w)) (cwd w) [] s1) as [r s2] eqn:E.
    cbn [fst] in He. subst r.
    apply makedirs_frame in E as E'. revert E. cbn [makedirs].
    unfold mkdir. by intros [= <-]. }
  assert (isdir (fs s) (cwd w) (include_dir w) = true) as ->.
  { unfold isdir in *. unfold version_file_path in *.
    destruct (namei (fs s) (cwd w) (join (include_dir w) (lit "version.h")))
      as [q| | |] eqn:Hq; [|done..].
    apply namei_at_dir in Hq as [Hr Hq].
    rewrite (namei_admitted _ _ _ (refusal_join _ _ version_h_plain Hr)).
    rewrite walk_join in Hq by (done || apply version_h_plain).
    rewrite (namei_step_name _ _ _ version_h_plain) in Hq.
    by destruct (walk (fs s) (cwd w) (include_dir w)). }
  cbn [negb]. unfold open_w, mbind, M_bind. rewrite Hfs.
  unfold isdir in Hp. by destruct (namei (fs s) (cwd w) (version_file_path w)).
Qed.

(** An exception ends a run after the line of its mode: the script
    prints nothing more. *)
Lemma raise_output (w : world) (s : state) (e : exn) :
  fst (get_version w s) = Raise e ->
  stdout (snd (get_version w s)) = stdout s ++ [mode_line w].
Proof.
  unfold get_version, mbind, M_bind.
  destruct (version w s) as [[v|e'|c] s1] eqn:Hv; cbn [fst snd].
  - destruct (version_normal _ _ _ _ Hv) as [_ Hout].
    destruct (emit w v s1) as [r s'] eqn:He. cbn [fst snd]. intros ->.
    apply emit_effect in He
      as [(_ & -> & _)|(fs1 & f & content & _ & _ & _ & _ & H5)]; [done|].
    destruct (encode (text_encoding w) (header_content v));
      destruct H5 as (Hr & _ & Ho); [done|]. by rewrite Ho.
  - intros _. revert Hv. unfold mode_line. run_script.
    destruct (is_ci w); [|done].
    destruct (git_describe w) as [out|e0]; cbn.
    + destruct (decode_utf8 (strip out)); [done|]. by intros [= _ <-].
    + destruct e0; cbn; try done; by intros [= _ <-].
  - done.
Qed.

(** A walk that ends at a directory has met no name beyond NAME_MAX. *)
Lemma walk_dir_names fs cs st q :
  fold_left (namei_step fs) cs st = AtDir q ->
  Forall (fun c => name_too_long c = false) cs.
Proof.
  revert st. induction cs as [|c cs IH]; intros st; [constructor|].
  cbn [fold_left]. intros H. constructor; [|by eapply IH].
  assert (Hd : at_dir (namei_step fs st c) = true).
  { apply (walk_at_dir fs cs). by rewrite H. }
  destruct st as [a| | |]; try (by apply namei_step_at_dir in Hd).
  revert Hd. cbn [namei_step].
  destruct (bool_decide (c = []) || bool_decide (c = lit ".")) eqn:E1.
  { intros _. apply orb_prop in E1 as [->%bool_decide_eq_true
                                      | ->%bool_decide_eq_true];
      by apply name_too_long_ascii. }
  destruct (bool_decide (c = lit "..")) eqn:E2.
  { intros _. apply bool_decide_eq_true in E2 as ->.
    by apply name_too_long_ascii. }
  destruct (name_too_long c); [|by intros _].
  cbn [at_dir]. intros Hd. discriminate Hd.
Qed.

(** X17. When Python or the kernel refuses the output path (it has a
    null character, the file-system encoding has no bytes for it, or it
    is beyond PATH_MAX), or when a name on the include-directory path is
    beyond NAME_MAX, no run succeeds and no file is written: all a run
    may do is add directories. *)
Theorem refused_path_fails (w : world) (s : state) :
  refusal (version_file_path w) <> None \/
  Exists (fun c => name_too_long c = true) (components (include_dir w)) ->
  fst (get_version w s) <> Normal tt /\
  only_adds_dirs (fs s) (fs (snd (get_version w s))).
Proof.
  intros Hbad.
  destruct (get_version_effect w s)
    as [[Hr Ha]|(v & fs1 & f & content & _ & _ & _ & _ & H4 & _)]; [done|].
  exfalso.
  pose proof (namei_walk (fs (snd (get_version w s))) (cwd w)
                (version_file_path w)) as Hw.
  rewrite H4 in Hw. destruct Hw as [Hr _].
  destruct Hbad as [Hbad|Hbad]; [done|].
  assert (Hd : include_dir w <> []).
  { intros Hnil. rewrite Hnil in Hbad. cbn [components] in Hbad.
    apply Exists_cons in Hbad as [Hbad|Hbad]; [done|].
    by apply Exists_nil in Hbad. }
  apply opened_in_include_dir in H4 as [q Hq]; [|done].
  apply namei_at_dir in Hq as [_ Hq].
  rewrite walk_nonempty in Hq by done.
  apply walk_dir_names in Hq.
  induction Hq as [|c cs Hc Hcs IH]; inversion Hbad; subst; [congruence|auto].
Qed.


(** X15. Every run first prints the line of its mode, after what was
    printed before.  A run that succeeds prints one more line, the last:
    the confirmation, which names the output path and the version that is
    in the header. *)
Theorem run_output (w : world) (s : state) :
  (exists rest,
     stdout (snd (get_version w s)) = stdout s ++ mode_line w :: rest) /\
  (forall s', get_version w s = (Normal tt, s') ->
     exists v bytes,
       stdout s' = stdout s ++ [mode_line w; confirmation w v] /\
       encode (text_encoding w) (header_content v) = Some bytes /\
       read_file (fs s') (cwd w) (version_file_path w) = Some bytes).
Proof.
  split.
  - destruct (get_version w s) as [[[]|e|c] s'] eqn:Hrun.
    + destruct (get_version_effect w s)
        as [[Hr _]|(v & fs1 & f & content & _ & _ & _ & _ & _ & H5)];
        [by rewrite Hrun in Hr|].
      rewrite Hrun in H5. cbn [fst snd] in *.
      destruct (encode (text_encoding w) (header_content v));
        destruct H5 as (Hr & _ & Ho); [eauto|done].
    + pose proof (raise_output w s e) as Ho. rewrite Hrun in Ho.
      cbn [fst snd] in *. rewrite Ho by done. by exists [].
    + destruct (version_stdout w s) as [rest Hrest].
      revert Hrun. unfold get_version, mbind, M_bind.
      destruct (version w s) as [[v|e|c'] s1] eqn:Hv; cbn [fst snd] in *.
      * intros He. by destruct (emit_not_exit w v s1 c); rewrite He.
      * done.
      * intros [= <- <-]. eauto.
  - intros s' Hrun.
    destruct (get_version_effect w s)
      as [[Hr _]|(v & fs1 & f & content & Hv & _ & _ & _ & _ & H5)];
      [by rewrite Hrun in Hr|].
    rewrite Hrun in H5. cbn [fst snd] in H5.
    destruct (encode (text_encoding w) (header_content v)) as [bytes|] eqn:Hb;
      destruct H5 as (Hr & _ & Ho); [|done].
    exists v, bytes. split; [done|]. split; [done|].
    revert Hrun Hv. unfold get_version, mbind, M_bind.
    destruct (version w s) as [[v'|e|c] s1]; try done.
    intros (_ & _ & _ & b & Hb' & Hfile)%emit_normal [= ->]. congruence.
Qed.

(** ** Further properties: absolute include directories *)

Lemma namei_absolute fs wd wd' p :
  startswith_sep p = true -> namei fs wd p = namei fs wd' p.
Proof. intros Hp. unfold namei, walk, namei_start. by rewrite Hp. Qed.

Lemma startswith_sep_no_sep p :
  startswith_sep p = true -> no_sep p = false.
Proof.
  destruct p as [|c p]; [done|]. cbn. intros ->. done.
Qed.

(** The head of the split of an absolute path is absolute. *)
Lemma split_absolute p h t :
  startswith_sep p = true -> split p = (h, t) -> startswith_sep h = true.
Proof.
  intros Hp. destruct (split_spec p) as [[Hns _]|(h0 & t0 & -> & _ & ->)].
  { rewrite startswith_sep_no_sep in Hns; done. }
  intros [= <- _].
  destruct (forallb (N.eqb SEP) h0) eqn:Hall.
  - destruct h0; [done|]. by rewrite startswith_sep_app in Hp |- *.
  - assert (Hne : rstrip_by (N.eqb SEP) h0 <> []).
    { intros Hnil%rstrip_by_all. congruence. }
    destruct (rstrip_by_app (N.eqb SEP) h0) as (r & Hh0 & _).
    rewrite Hh0, <- app_assoc in Hp. by rewrite startswith_sep_app in Hp.
Qed.

Lemma mkdir_absolute wd wd' p s :
  startswith_sep p = true -> mkdir wd p s = mkdir wd' p s.
Proof. intros Hp. unfold mkdir. by rewrite (namei_absolute _ wd wd'). Qed.

Lemma makedirs_absolute fuel wd wd' name s :
  startswith_sep name = true ->
  makedirs fuel wd name s = makedirs fuel wd' name s.
Proof.
  revert name s. induction fuel as [|fuel IH]; intros name s Hn; [done|].
  cbn [makedirs]. destruct (split name) as [h t] eqn:Hs.
  pose proof (split_absolute _ _ _ Hn Hs) as Hh.
  assert (Hh' : startswith_sep
            (fst (if bool_decide (t = []) then split h else (h, t))) = true).
  { destruct (bool_decide (t = [])); [|done].
    destruct (split h) as [h1 t1] eqn:Hs1. by eapply split_absolute. }
  destruct (if bool_decide (t = []) then split h else (h, t)) as [h' t'].
  cbn [fst] in Hh'.
  destruct (negb (bool_decide (h' = [])) && negb (bool_decide (t' = [])));
    [|by apply mkdir_absolute].
  unfold exists_ at 1. rewrite (namei_absolute _ wd wd' h') by done.
  fold (exists_ (fs s) wd' h').
  destruct (exists_ (fs s) wd' h'); [by apply mkdir_absolute|].
  unfold mbind, M_bind, try_except. rewrite (IH h' s Hh').
  destruct (makedirs fuel wd' h' s) as [[[]|e|c] s1]; try done;
    try (destruct e; try done);
    (destruct (bool_decide (t' = lit ".")); [done|by apply mkdir_absolute]).
Qed.

Lemma join_absolute d v :
  startswith_sep d = true -> startswith_sep (join d v) = true.
Proof.
  intros Hd. unfold join. destruct (startswith_sep v) eqn:Hv; [done|].
  assert (d <> []) by (by destruct d).
  destruct (bool_decide (d = []) || endswith_sep d);
    by rewrite startswith_sep_app.
Qed.

(** X16. With an absolute include directory, which is what PlatformIO
    passes, the working directory plays no part in a local build, whose
    version does not come from git: run from any other directory, the
    script ends the same way and leaves the same state.  The same holds
    of a CI build as long as git, which runs in the working directory,
    answers the same. *)
Theorem absolute_include_dir_ignores_cwd (w : world) (s : state)
    (wd' : list str) (g : call_result) :
  is_ci w = false \/ g = git_describe w ->
  startswith_sep (include_dir w) = true ->
  get_version (moved w wd' g) s = get_version w s.
Proof.
  intros Hg Hd. unfold get_version, mbind, M_bind.
  assert (Hv : version (moved w wd' g) s = version w s).
  { destruct Hg as [Hci| ->]; [|done].
    by rewrite (version_local (moved w wd' g) s), (version_local w s). }
  rewrite Hv.
  destruct (version w s) as [[v|e|c] s1]; try done.
  pose proof (join_absolute _ (lit "version.h") Hd) as Hp.
  fold (version_file_path w) in Hp.
  unfold emit.
  change (include_dir (moved w wd' g)) with (include_dir w).
  change (version_file_path (moved w wd' g)) with (version_file_path w).
  change (cwd (moved w wd' g)) with wd'.
  change (stack_room (moved w wd' g)) with (stack_room w).
  change (text_encoding (moved w wd' g)) with (text_encoding w).
  set (rest := fun wd : list str =>
    open_w wd (version_file_path w) ≫= (fun f =>
    write (text_encoding w) f (header_content v) ≫= (fun _ =>
    print (lit "Generated " ++ version_file_path w
           ++ lit " with FIRMWARE_VERSION: " ++ v)))).
  change (((fun s => if negb (isdir (fs s) wd' (include_dir w))
             then makedirs (S (stack_room w)) wd' (include_dir w) s
             else (Normal tt, s)) ≫= (fun _ => rest wd')) s1
          = ((fun s => if negb (isdir (fs s) (cwd w) (include_dir w))
             then makedirs (S (stack_room w)) (cwd w) (include_dir w) s
             else (Normal tt, s)) ≫= (fun _ => rest (cwd w))) s1).
  assert (Hrest : forall s2, rest wd' s2 = rest (cwd w) s2).
  { intros s2. unfold rest, open_w, mbind, M_bind.
    by rewrite (namei_absolute _ wd' (cwd w) (version_file_path w)). }
  unfold mbind, M_bind, isdir.
  rewrite (namei_absolute _ wd' (cwd w) (include_dir w)) by done.
  rewrite (makedirs_absolute _ wd' (cwd w)) by done.
  destruct (if negb _ then _ else _) as [[[]|e|c] s2]; try done.
Qed.

(** X14. When the include directory is missing, its path being made of
    plain names within NAME_MAX, with no regular file on the way, in a
    file system where every entry is in a directory; when the output path
    is one that Python and the kernel accept (no null character, bytes in
    the file-system encoding, within PATH_MAX), the interpreter stack has
    room for one call of [os.makedirs] per component of the path, and the
    locale can encode the header: then a run that resolves a version
    succeeds, the directory is made together with its missing parents,
    and the header is in it. *)
Theorem missing_include_dir_is_made (w : world) (s : state) v s1 bytes :
  well_formed (fs s) -> dir_at (fs s) (cwd w) = true ->
  simple_path (include_dir w) ->
  creatable (namei (fs s) (cwd w) (include_dir w)) ->
  refusal (version_file_path w) = None ->
  (length (components (include_dir w)) <= S (stack_room w))%nat ->
  version w s = (Normal v, s1) ->
  encode (text_encoding w) (header_content v) = Some bytes ->
  exists s', get_version w s = (Normal tt, s') /\
    isdir (fs s') (cwd w) (include_dir w) = true /\
    (forall pre post, pre <> [] -> include_dir w = pre ++ [SEP] ++ post ->
       isdir (fs s') (cwd w) pre = true) /\
    read_file (fs s') (cwd w) (version_file_path w) = Some bytes.
Proof.
  intros Hwf Hwd Hd Hc Hr Hroom Hv Hbytes.
  destruct (get_version_creates w s v s1 Hwf Hwd Hd Hc Hr Hroom Hv bytes Hbytes)
    as (s' & Hrun & Hdir & Hfile).
  exists s'. repeat split; try done.
  intros pre post Hpre Heq. rewrite Heq in Hdir. by apply isdir_prefix in Hdir.
Qed.

End Script.

(** * Sample runs *)

(** The sample table has what the development asks of the Unicode one. *)
Lemma sample_lower_nonempty c : 128 <= c -> sample_lower c <> [].
Proof.
  intros _. unfold sample_lower.
  destruct (c =? 304); [done|]. by destruct (c =? 8490).
Qed.

Lemma sample_lower_ascii c d :
  128 <= c -> In d (sample_lower c) -> d < 128 ->
  (c = 304 /\ d = 105) \/ (c = 8490 /\ d = 107).
Proof.
  intros Hc Hin Hd. unfold sample_lower in Hin.
  destruct (N.eqb_spec c 304) as [->|_].
  { left. destruct Hin as [<-|[<-|[]]]; [done|lia]. }
  destruct (N.eqb_spec c 8490) as [->|_].
  { right. by destruct Hin as [<-|[]]. }
  destruct Hin as [<-|[]]. lia.
Qed.

Lemma ci_mode_iff_witness :
  (forall c, 128 <= c -> sample_lower c <> []) /\
  (forall c d, 128 <= c -> In d (sample_lower c) -> d < 128 ->
     (c = 304 /\ d = 105) \/ (c = 8490 /\ d = 107)) /\
  environ tagged_world !! lit "CI" = Some (lit "TrUe") /\
  is_ci sample_lower tagged_world = true /\
  environ local_world_later !! lit "CI" = Some (lit "1") /\
  is_ci sample_lower local_world_later = false /\
  environ local_world !! lit "CI" = None /\
  is_ci sample_lower local_world = false.
Proof.
  split; [exact sample_lower_nonempty|].
  split; [exact sample_lower_ascii|].
  split; [reflexivity|].
  split.
  { apply (proj1 (ci_mode_iff sample_lower sample_lower_nonempty
                    sample_lower_ascii tagged_world)).
    exists (lit "TrUe"). split; [reflexivity|].
    change (lit "TrUe") with [84; 114; 85; 101].
    change (lit "true") with [116; 114; 117; 101].
    repeat (constructor; [unfold same_letter; lia|]).
    constructor. }
  split; [reflexivity|].
  split.
  { apply (proj2 (ci_mode_iff sample_lower sample_lower_nonempty
                    sample_lower_ascii local_world_later)).
    intros v Hv. vm_compute in Hv. injection Hv as <-.
    intros H. inversion H as [|c d a b Hcd Hab]; subst.
    inversion Hab. }
  split; [reflexivity|].
  apply (proj2 (ci_mode_iff sample_lower sample_lower_nonempty
                  sample_lower_ascii local_world)).
  intros v Hv. vm_compute in Hv. discriminate Hv.
Defined.

Lemma ci_version_is_trimmed_tag_witness :
  is_ci sample_lower tagged_world = true /\
  git_describe tagged_world
    = Returned [x76; x31; x2e; x32; x2e; x33; x0a]%byte /\
  decode_utf8 [x76; x31; x2e; x32; x2e; x33; x0a]%byte
    = Some (lit "v1.2.3" ++ NL) /\
  exists s', version sample_lower tagged_world built_project
             = (Normal (lit "v1.2.3"), s') /\
             trimming (lit "v1.2.3" ++ NL) (lit "v1.2.3") /\
             fs s' = fs built_project.
Proof.
  split; [vm_compute; reflexivity|].
  split; [reflexivity|].
  split; [vm_compute; reflexivity|].
  destruct (ci_version_is_trimmed_tag sample_lower tagged_world built_project
              [x76; x31; x2e; x32; x2e; x33; x0a]%byte (lit "v1.2.3" ++ NL))
    as (v & s' & Hv & Htrim & Hfs).
  - vm_compute; reflexivity.
  - reflexivity.
  - vm_compute; reflexivity.
  - assert (Hc : fst (version sample_lower tagged_world built_project)
                 = Normal (lit "v1.2.3")) by (vm_compute; reflexivity).
    rewrite Hv in Hc. cbn [fst] in Hc. injection Hc as Hc.
    rewrite Hc in Hv, Htrim. exists s'.
    split; [exact Hv|]. split; [exact Htrim|exact Hfs].
Defined.



Lemma local_version_format_witness :
  is_ci sample_lower local_world = false /\
  valid_datetime (clock local_world) = true /\
  1000 <= year (clock local_world) /\
  exists s', version sample_lower local_world fresh_project
             = (Normal (lit "dev-20251017-023223"), s') /\
             fullmatch dev_pattern (lit "dev-20251017-023223") = true.
Proof.
  split; [vm_compute; reflexivity|].
  split; [vm_compute; reflexivity|].
  split; [vm_compute; discriminate|].
  destruct (local_version_format sample_lower local_world fresh_project)
    as (v & s' & Y & Mo & D & H & Mi & S & Hv & _ & _ & _ & _ & _ & _ & _ & Hm).
  - vm_compute; reflexivity.
  - vm_compute; reflexivity.
  - vm_compute; discriminate.
  - assert (Hc : fst (version sample_lower local_world fresh_project)
                 = Normal (lit "dev-20251017-023223"))
      by (vm_compute; reflexivity).
    rewrite Hv in Hc. cbn [fst] in Hc. injection Hc as Hc.
    rewrite Hc in Hv, Hm. exists s'. split; [exact Hv|exact Hm].
Defined.

Lemma header_written_witness :
  get_version sample_lower UTF8 local_world fresh_project
    = (Normal tt, snd (get_version sample_lower UTF8 local_world fresh_project)) /\
  exists s1,
    version sample_lower local_world fresh_project
      = (Normal (lit "dev-20251017-023223"), s1) /\
    isdir UTF8 (fs (snd (get_version sample_lower UTF8 local_world fresh_project)))
      (cwd local_world) (lit "build/gen") = true /\
    read_file UTF8 (fs (snd (get_version sample_lower UTF8 local_world fresh_project)))
      (cwd local_world) (lit "build/gen/include/version.h")
    = Some (ascii_bytes (header_content (lit "dev-20251017-023223"))).
Proof.
  split; [vm_compute; reflexivity|].
  destruct (header_written sample_lower UTF8 local_world fresh_project
              (snd (get_version sample_lower UTF8 local_world fresh_project)))
    as (v & s1 & bytes & Hv & _ & _ & _ & Hpre & Hbytes & Hfile).
  - vm_compute; reflexivity.
  - assert (Hc : fst (version sample_lower local_world fresh_project)
                 = Normal (lit "dev-20251017-023223"))
      by (vm_compute; reflexivity).
    rewrite Hv in Hc. cbn [fst] in Hc. injection Hc as Hc.
    rewrite Hc in Hv, Hbytes.
    assert (Hb : encode (text_encoding local_world)
                   (header_content (lit "dev-20251017-023223"))
                 = Some (ascii_bytes
                           (header_content (lit "dev-20251017-023223"))))
      by (vm_compute; reflexivity).
    rewrite Hbytes in Hb. injection Hb as Hb. rewrite Hb in Hfile.
    exists s1. split; [exact Hv|]. split; [|exact Hfile].
    apply (Hpre (lit "build/gen") (lit "include")).
    + vm_compute. discriminate.
    + vm_compute; reflexivity.
Defined.

Lemma abort_writes_nothing_witness :
  is_ci sample_lower untagged_world = true /\
  exists s', get_version sample_lower UTF8 untagged_world built_project
             = (Exit 1, s') /\
    fs s' = fs built_project /\
    read_file UTF8 (fs s') (cwd untagged_world) (version_file_path untagged_world)
    = read_file UTF8 (fs built_project) (cwd untagged_world)
        (version_file_path untagged_world).
Proof.
  split; [vm_compute; reflexivity|].
  apply (abort_writes_nothing sample_lower UTF8 untagged_world built_project).
  - vm_compute; reflexivity.
  - left. eexists _, _. reflexivity.
Defined.

Lemma local_versions_monotone_witness :
  is_ci sample_lower local_world = false /\
  valid_datetime sample_clock = true /\
  valid_datetime sample_clock_next = true /\
  1000 <= year sample_clock /\ 1000 <= year sample_clock_next /\
  not_earlier sample_clock_next sample_clock /\
  to_second sample_clock <> to_second sample_clock_next /\
  exists s1' s2',
    version sample_lower local_world fresh_project
      = (Normal (lit "dev-20251017-023223"), s1') /\
    version sample_lower (with_clock local_world sample_clock_next)
      built_project = (Normal (lit "dev-20251017-023224"), s2') /\
    lex_lt (lit "dev-20251017-023223") (lit "dev-20251017-023224").
Proof.
  split; [vm_compute; reflexivity|].
  split; [vm_compute; reflexivity|].
  split; [vm_compute; reflexivity|].
  split; [vm_compute; discriminate|].
  split; [vm_compute; discriminate|].
  split; [vm_compute; discriminate|].
  split; [vm_compute; discriminate|].
  destruct (local_versions_monotone sample_lower local_world
              (with_clock local_world sample_clock_next)
              fresh_project built_project)
    as (v1 & v2 & s1' & s2' & Hv1 & Hv2 & _ & _ & Hlt).
  - vm_compute; reflexivity.
  - vm_compute; reflexivity.
  - vm_compute; reflexivity.
  - vm_compute; reflexivity.
  - vm_compute; discriminate.
  - vm_compute; discriminate.
  - vm_compute; discriminate.
  - assert (Hc1 : fst (version sample_lower local_world fresh_project)
                  = Normal (lit "dev-20251017-023223"))
      by (vm_compute; reflexivity).
    assert (Hc2 : fst (version sample_lower
                         (with_clock local_world sample_clock_next)
                         built_project)
                  = Normal (lit "dev-20251017-023224"))
      by (vm_compute; reflexivity).
    rewrite Hv1 in Hc1. rewrite Hv2 in Hc2. cbn [fst] in Hc1, Hc2.
    injection Hc1 as Hc1. injection Hc2 as Hc2.
    rewrite Hc1 in Hv1, Hlt. rewrite Hc2 in Hv2, Hlt.
    exists s1', s2'. split; [exact Hv1|]. split; [exact Hv2|].
    apply Hlt. vm_compute; discriminate.
Defined.

Lemma same_inputs_same_header_witness :
  environ local_world !! lit "CI" = environ local_world_elsewhere !! lit "CI" /\
  construction_vars local_world !! lit "PROJECT_INCLUDE_DIR"
  = construction_vars local_world_elsewhere !! lit "PROJECT_INCLUDE_DIR" /\
  clock local_world = clock local_world_elsewhere /\
  git_describe local_world = git_describe local_world_elsewhere /\
  text_encoding local_world = text_encoding local_world_elsewhere /\
  version_file_path local_world = version_file_path local_world_elsewhere /\
  fst (version sample_lower local_world fresh_project)
  = fst (version sample_lower local_world_elsewhere other_project) /\
  read_file UTF8
    (fs (snd (get_version sample_lower UTF8 local_world fresh_project)))
    (cwd local_world) (version_file_path local_world)
  = Some (ascii_bytes (header_content (lit "dev-20251017-023223"))) /\
  read_file UTF8
    (fs (snd (get_version sample_lower UTF8 local_world_elsewhere other_project)))
    (cwd local_world_elsewhere) (version_file_path local_world_elsewhere)
  = Some (ascii_bytes (header_content (lit "dev-20251017-023223"))).
Proof.
  split; [vm_compute; reflexivity|].
  split; [vm_compute; reflexivity|].
  split; [reflexivity|]. split; [reflexivity|]. split; [reflexivity|].
  destruct (same_inputs_same_header sample_lower UTF8 local_world
              local_world_elsewhere fresh_project other_project)
    as (Hpath & Hv & Hsame).
  - vm_compute; reflexivity.
  - vm_compute; reflexivity.
  - reflexivity.
  - reflexivity.
  - reflexivity.
  - split; [exact Hpath|]. split; [exact Hv|].
    destruct (Hsame
                (snd (get_version sample_lower UTF8 local_world fresh_project))
                (snd (get_version sample_lower UTF8 local_world_elsewhere
                        other_project)))
      as (v & bytes & Hv1 & Hbytes & H1 & H2).
    + vm_compute; reflexivity.
    + vm_compute; reflexivity.
    + assert (Hc : fst (version sample_lower local_world fresh_project)
                   = Normal (lit "dev-20251017-023223"))
        by (vm_compute; reflexivity).
      rewrite Hv1 in Hc. injection Hc as Hc. rewrite Hc in Hbytes.
      assert (Hb : encode (text_encoding local_world)
                     (header_content (lit "dev-20251017-023223"))
                   = Some (ascii_bytes
                             (header_content (lit "dev-20251017-023223"))))
        by (vm_compute; reflexivity).
      rewrite Hbytes in Hb. injection Hb as Hb. rewrite Hb in H1, H2.
      split; [exact H1|exact H2].
Defined.

(** C9 as stated does not hold: with the same value of CI, the same
    include directory, the same clock and the same answer of git, a build
    in a UTF-8 locale and one in a Latin-1 locale both succeed and leave
    different bytes in version.h; in an ASCII locale the build fails and
    leaves the file empty. *)
Lemma other_locale_other_bytes :
  environ accented_world !! lit "CI"
  = environ accented_world_latin1 !! lit "CI" /\
  construction_vars accented_world !! lit "PROJECT_INCLUDE_DIR"
  = construction_vars accented_world_latin1 !! lit "PROJECT_INCLUDE_DIR" /\
  clock accented_world = clock accented_world_latin1 /\
  git_describe accented_world = git_describe accented_world_latin1 /\
  version_file_path accented_world = version_file_path accented_world_latin1 /\
  fst (get_version sample_lower UTF8 accented_world built_project) = Normal tt /\
  fst (get_version sample_lower Latin1 accented_world_latin1 built_project)
  = Normal tt /\
  read_file UTF8
    (fs (snd (get_version sample_lower UTF8 accented_world built_project)))
    project_dir (lit "include/version.h")
  = Some (ascii_bytes (lit "#pragma once" ++ NL ++ NL ++
                       lit "#define FIRMWARE_VERSION " ++ DQ ++ lit "v1")
          ++ [xc3; xa9]%byte ++ ascii_bytes (DQ ++ NL)) /\
  read_file Latin1
    (fs (snd (get_version sample_lower Latin1 accented_world_latin1 built_project)))
    project_dir (lit "include/version.h")
  = Some (ascii_bytes (lit "#pragma once" ++ NL ++ NL ++
                       lit "#define FIRMWARE_VERSION " ++ DQ ++ lit "v1")
          ++ [xe9]%byte ++ ascii_bytes (DQ ++ NL)) /\
  read_file UTF8
    (fs (snd (get_version sample_lower UTF8 accented_world built_project)))
    project_dir (lit "include/version.h")
  <> read_file Latin1
       (fs (snd (get_version sample_lower Latin1 accented_world_latin1
                   built_project)))
       project_dir (lit "include/version.h") /\
  get_version sample_lower ASCII accented_world_ascii built_project
  = (Raise UnicodeEncodeError,
     {| fs := <[project_dir ++ [lit "include"; lit "version.h"] := File []]>
                (fs built_project);
        stdout := [lit "CI environment detected. Getting version from git tag."] |}).
Proof.
  repeat split; try (vm_compute; reflexivity).
  vm_compute. discriminate.
Qed.

Lemma include_dir_is_a_file_witness :
  exists_ UTF8 (fs blocked_project) (cwd local_world_later)
    (include_dir local_world_later) = true /\
  isdir UTF8 (fs blocked_project) (cwd local_world_later)
    (include_dir local_world_later) = false /\
  fst (get_version sample_lower UTF8 local_world_later blocked_project)
    <> Normal tt /\
  fs (snd (get_version sample_lower UTF8 local_world_later blocked_project))
    = fs blocked_project.
Proof.
  split; [vm_compute; reflexivity|].
  split; [vm_compute; reflexivity|].
  destruct (include_dir_is_a_file sample_lower UTF8 local_world_later
              blocked_project) as (_ & Hfail & Hfs & _).
  - vm_compute; reflexivity.
  - vm_compute; reflexivity.
  - split; [exact Hfail|exact Hfs].
Defined.

(** C8 at two local builds within one second, the second reading later
    than the first: the two versions are the same, where the claim, and
    the comment of line 37, want them different. *)
Lemma same_second_same_version :
  is_ci sample_lower local_world = false /\
  is_ci sample_lower local_world_later = false /\
  clock local_world = sample_clock /\
  clock local_world_later = sample_clock_later /\
  sample_clock <> sample_clock_later /\
  not_earlier sample_clock_later sample_clock /\
  fst (version sample_lower local_world fresh_project)
  = Normal (lit "dev-20251017-023223") /\
  fst (version sample_lower local_world_later fresh_project)
  = Normal (lit "dev-20251017-023223").
Proof.
  repeat split; try (vm_compute; reflexivity); vm_compute; discriminate.
Qed.

(** A second build replaces an earlier, longer header in full. *)
Example overwrite_longer_header :
  read_file UTF8 (fs built_project) project_dir (lit "include/version.h")
    = Some (ascii_bytes (header_content (lit "v0.9.0-rc1-with-a-long-name"))) /\
  get_version sample_lower UTF8 tagged_world built_project
    = (Normal tt, snd (get_version sample_lower UTF8 tagged_world built_project)) /\
  read_file UTF8 (fs (snd (get_version sample_lower UTF8 tagged_world built_project)))
    project_dir (lit "include/version.h")
    = Some (ascii_bytes (header_content (lit "v1.2.3"))).
Proof. repeat split; vm_compute; reflexivity. Qed.

(** The header of the tag v1.2.3, character by character. *)
Example header_of_tag :
  header_content (lit "v1.2.3")
  = lit "#pragma once" ++ [10; 10]
    ++ lit "#define FIRMWARE_VERSION " ++ [34] ++ lit "v1.2.3" ++ [34; 10].
Proof. vm_compute; reflexivity. Qed.

(** The example of the comment of line 40. *)
Example dev_version_sample :
  dev_version sample_clock = lit "dev-20251017-023223".
Proof. vm_compute; reflexivity. Qed.

(** A tag that is not UTF-8 ends the run with an exception, not with
    [env.Exit]. *)
Example undecodable_tag :
  fst (get_version sample_lower UTF8 garbled_world built_project)
  = Raise UnicodeDecodeError.
Proof. vm_compute; reflexivity. Qed.

(** One second later the version is strictly greater. *)
Example next_second_greater :
  not_earlier sample_clock_next sample_clock /\
  lex_lt (dev_version sample_clock) (dev_version sample_clock_next).
Proof. split; [vm_compute; discriminate|vm_compute; reflexivity]. Qed.

(** * Sample runs of the further properties *)

Lemma undecodable_output_raises_witness :
  is_ci sample_lower garbled_world = true /\
  decode_utf8 [x76; xff; x0a]%byte = None /\
  get_version sample_lower UTF8 garbled_world built_project
  = (Raise UnicodeDecodeError,
     {| fs := fs built_project;
        stdout := stdout built_project
                  ++ [mode_line sample_lower garbled_world] |}).
Proof.
  split; [vm_compute; reflexivity|]. split; [vm_compute; reflexivity|].
  apply (undecodable_output_raises sample_lower UTF8 garbled_world built_project
           [x76; xff; x0a]%byte).
  - vm_compute; reflexivity.
  - reflexivity.
  - vm_compute; reflexivity.
Defined.

Lemma uncaught_git_error_propagates_witness :
  is_ci sample_lower denied_world = true /\
  caught PermissionError = false /\
  get_version sample_lower UTF8 denied_world built_project
  = (Raise PermissionError,
     {| fs := fs built_project;
        stdout := stdout built_project
                  ++ [mode_line sample_lower denied_world] |}).
Proof.
  split; [vm_compute; reflexivity|]. split; [reflexivity|].
  apply (uncaught_git_error_propagates sample_lower UTF8 denied_world
           built_project PermissionError).
  - vm_compute; reflexivity.
  - reflexivity.
  - reflexivity.
Defined.

Lemma local_mode_ignores_git_witness :
  is_ci sample_lower local_world = false /\
  get_version sample_lower UTF8
    (with_git local_world (Returned [x76; x31]%byte)) fresh_project
  = get_version sample_lower UTF8 local_world fresh_project.
Proof.
  split; [vm_compute; reflexivity|].
  apply (local_mode_ignores_git sample_lower UTF8 local_world fresh_project
           (Returned [x76; x31]%byte)).
  vm_compute; reflexivity.
Defined.

Lemma ci_mode_ignores_clock_witness :
  is_ci sample_lower tagged_world = true /\
  get_version sample_lower UTF8 (with_clock tagged_world sample_clock_next)
    built_project
  = get_version sample_lower UTF8 tagged_world built_project.
Proof.
  split; [vm_compute; reflexivity|].
  apply (ci_mode_ignores_clock sample_lower UTF8 tagged_world built_project
           sample_clock_next).
  vm_compute; reflexivity.
Defined.

Lemma ci_success_has_tag_witness :
  is_ci sample_lower tagged_world = true /\
  get_version sample_lower UTF8 tagged_world built_project
  = (Normal tt, snd (get_version sample_lower UTF8 tagged_world built_project)) /\
  exists out v bytes,
    git_describe tagged_world = Returned out /\
    decode_utf8 (strip out) = Some v /\
    encode (text_encoding tagged_world) (header_content v) = Some bytes /\
    read_file UTF8
      (fs (snd (get_version sample_lower UTF8 tagged_world built_project)))
      (cwd tagged_world) (version_file_path tagged_world)
    = Some bytes.
Proof.
  split; [vm_compute; reflexivity|].
  split; [vm_compute; reflexivity|].
  apply (ci_success_has_tag sample_lower UTF8 tagged_world built_project
           (snd (get_version sample_lower UTF8 tagged_world built_project))).
  - vm_compute; reflexivity.
  - vm_compute; reflexivity.
Defined.

Lemma blank_output_gives_empty_version_witness :
  is_ci sample_lower blank_world = true /\
  fst (version sample_lower blank_world built_project) = Normal [].
Proof.
  split; [vm_compute; reflexivity|].
  apply (blank_output_gives_empty_version sample_lower UTF8 blank_world
           built_project [x20; x0a]%byte).
  - vm_compute; reflexivity.
  - reflexivity.
  - vm_compute; reflexivity.
Defined.

Lemma header_content_inj_witness :
  header_content (lit "v1.2.3") = header_content ([118] ++ lit "1.2.3") /\
  lit "v1.2.3" = [118] ++ lit "1.2.3".
Proof.
  split; [vm_compute; reflexivity|].
  apply (header_content_inj (lit "v1.2.3") ([118] ++ lit "1.2.3")).
  vm_compute; reflexivity.
Defined.

Lemma empty_include_dir_fails_witness :
  include_dir empty_dir_world = [] /\
  fst (get_version sample_lower UTF8 empty_dir_world built_project)
  = Raise FileNotFoundError.
Proof.
  split; [vm_compute; reflexivity|].
  destruct (empty_include_dir_fails sample_lower UTF8 empty_dir_world built_project
              (dev_version sample_clock)
              (snd (version sample_lower empty_dir_world built_project)))
    as [Hrun _].
  - vm_compute; reflexivity.
  - vm_compute; reflexivity.
  - rewrite Hrun. reflexivity.
Defined.

Lemma file_in_the_way_fails_witness :
  namei UTF8 (fs blocked_project) (cwd below_file_world)
    (include_dir below_file_world) = Stuck ENOTDIR /\
  fst (get_version sample_lower UTF8 below_file_world blocked_project)
  <> Normal tt.
Proof.
  split; [vm_compute; reflexivity|].
  apply (file_in_the_way_fails sample_lower UTF8 below_file_world blocked_project).
  vm_compute. exact I.
Defined.

Lemma rerun_changes_nothing_witness :
  get_version sample_lower UTF8 local_world fresh_project
  = (Normal tt, snd (get_version sample_lower UTF8 local_world fresh_project)) /\
  exists s'',
    get_version sample_lower UTF8 local_world
      (snd (get_version sample_lower UTF8 local_world fresh_project))
    = (Normal tt, s'') /\
    fs s'' = fs (snd (get_version sample_lower UTF8 local_world fresh_project)).
Proof.
  split; [vm_compute; reflexivity|].
  apply (rerun_changes_nothing sample_lower UTF8 local_world fresh_project).
  vm_compute; reflexivity.
Defined.


Lemma version_h_is_a_directory_witness :
  isdir UTF8 (fs odd_project) (cwd tagged_world) (version_file_path tagged_world)
  = true /\
  fst (get_version sample_lower UTF8 tagged_world odd_project)
  = Raise IsADirectoryError /\
  include_dir empty_dir_world = [] /\
  isdir UTF8 (fs odd_root_project) (cwd empty_dir_world)
    (version_file_path empty_dir_world) = true /\
  fst (get_version sample_lower UTF8 empty_dir_world odd_root_project)
  = Raise FileNotFoundError.
Proof.
  split; [vm_compute; reflexivity|].
  split.
  { destruct (version_h_is_a_directory sample_lower UTF8 tagged_world odd_project
                (lit "v1.2.3")
                (snd (version sample_lower tagged_world odd_project)))
      as [Hrun _].
    - vm_compute; reflexivity.
    - vm_compute; reflexivity.
    - rewrite Hrun. reflexivity. }
  split; [vm_compute; reflexivity|].
  split; [vm_compute; reflexivity|].
  destruct (version_h_is_a_directory sample_lower UTF8 empty_dir_world
              odd_root_project (dev_version sample_clock)
              (snd (version sample_lower empty_dir_world odd_root_project)))
    as [Hrun _].
  - vm_compute; reflexivity.
  - vm_compute; reflexivity.
  - rewrite Hrun. reflexivity.
Defined.

(** A header the locale cannot encode: [open] has emptied version.h
    before [write] raises. *)
Example unencodable_header_empties_file :
  read_file UTF8 (fs built_project) project_dir (lit "include/version.h")
    = Some (ascii_bytes (header_content (lit "v0.9.0-rc1-with-a-long-name"))) /\
  fst (get_version sample_lower ASCII accented_world_ascii built_project)
    = Raise UnicodeEncodeError /\
  read_file ASCII
    (fs (snd (get_version sample_lower ASCII accented_world_ascii built_project)))
    project_dir (lit "include/version.h")
    = Some [].
Proof. repeat split; vm_compute; reflexivity. Qed.

Lemma fresh_project_well_formed : well_formed (fs fresh_project).
Proof.
  intros p x [n Hn]. unfold fresh_project, project_dir in *. cbn [fs] in *.
  apply lookup_insert_Some in Hn as [[Hk _]|[_ Hn]].
  - destruct p as [|a [|b p]]; cbn [app] in Hk; simplify_eq. reflexivity.
  - apply lookup_singleton_Some in Hn as [Hk _].
    destruct p as [|a [|b [|c p]]]; cbn [app] in Hk; simplify_eq.
    vm_compute; reflexivity.
Qed.

Lemma build_gen_include_simple : simple_path UTF8 (lit "build/gen/include").
Proof.
  change (simple_path UTF8
    ((lit "build" ++ SEP :: lit "gen") ++ SEP :: lit "include")).
  repeat first [apply simple_cons | apply simple_name]; by vm_compute.
Qed.

Lemma missing_include_dir_is_made_witness :
  well_formed (fs fresh_project) /\
  simple_path UTF8 (include_dir local_world) /\
  creatable (namei UTF8 (fs fresh_project) (cwd local_world)
               (include_dir local_world)) /\
  refusal UTF8 (version_file_path local_world) = None /\
  (length (components (include_dir local_world))
   <= S (stack_room local_world))%nat /\
  exists s',
    get_version sample_lower UTF8 local_world fresh_project = (Normal tt, s') /\
    isdir UTF8 (fs s') (cwd local_world) (include_dir local_world) = true /\
    isdir UTF8 (fs s') (cwd local_world) (lit "build") = true /\
    read_file UTF8 (fs s') (cwd local_world) (version_file_path local_world)
    = Some (ascii_bytes (header_content (lit "dev-20251017-023223"))).
Proof.
  split; [exact fresh_project_well_formed|].
  split; [exact build_gen_include_simple|].
  split; [vm_compute; exact I|].
  split; [vm_compute; reflexivity|].
  split; [vm_compute; lia|].
  destruct (missing_include_dir_is_made sample_lower UTF8 local_world fresh_project
              (lit "dev-20251017-023223")
              (snd (version sample_lower local_world fresh_project))
              (ascii_bytes (header_content (lit "dev-20251017-023223"))))
    as (s' & Hrun & Hdir & Hpre & Hfile).
  - exact fresh_project_well_formed.
  - vm_compute; reflexivity.
  - exact build_gen_include_simple.
  - vm_compute; exact I.
  - vm_compute; reflexivity.
  - vm_compute; lia.
  - vm_compute; reflexivity.
  - vm_compute; reflexivity.
  - exists s'. split; [exact Hrun|]. split; [exact Hdir|].
    split; [|exact Hfile].
    apply (Hpre (lit "build") (lit "gen/include")).
    + vm_compute. discriminate.
    + vm_compute; reflexivity.
Defined.

Lemma absolute_include_dir_ignores_cwd_witness :
  is_ci sample_lower absolute_world = false /\
  startswith_sep (include_dir absolute_world) = true /\
  get_version sample_lower UTF8
    (moved absolute_world [lit "tmp"] (Failed PermissionError)) fresh_project
  = get_version sample_lower UTF8 absolute_world fresh_project /\
  is_ci sample_lower absolute_tagged_world = true /\
  startswith_sep (include_dir absolute_tagged_world) = true /\
  get_version sample_lower UTF8
    (moved absolute_tagged_world [lit "tmp"]
       (git_describe absolute_tagged_world)) fresh_project
  = get_version sample_lower UTF8 absolute_tagged_world fresh_project.
Proof.
  split; [vm_compute; reflexivity|].
  split; [vm_compute; reflexivity|].
  split.
  { apply (absolute_include_dir_ignores_cwd sample_lower UTF8 absolute_world
             fresh_project [lit "tmp"] (Failed PermissionError)).
    - left. vm_compute; reflexivity.
    - vm_compute; reflexivity. }
  split; [vm_compute; reflexivity|].
  split; [vm_compute; reflexivity|].
  apply (absolute_include_dir_ignores_cwd sample_lower UTF8 absolute_tagged_world
           fresh_project [lit "tmp"] (git_describe absolute_tagged_world)).
  - right. reflexivity.
  - vm_compute; reflexivity.
Defined.

Lemma refused_path_fails_witness :
  refusal UTF8 (version_file_path null_dir_world) = Some NullCharacter /\
  fst (get_version sample_lower UTF8 null_dir_world fresh_project)
  = Raise ValueError /\
  fs (snd (get_version sample_lower UTF8 null_dir_world fresh_project))
  = fs fresh_project /\
  name_too_long UTF8 (include_dir long_name_world) = true /\
  fst (get_version sample_lower UTF8 long_name_world fresh_project)
  = Raise OSError_ENAMETOOLONG /\
  fst (get_version sample_lower UTF8 long_name_world fresh_project)
  <> Normal tt.
Proof.
  split; [vm_compute; reflexivity|].
  split; [vm_compute; reflexivity|].
  split; [vm_compute; reflexivity|].
  split; [vm_compute; reflexivity|].
  split; [vm_compute; reflexivity|].
  apply (refused_path_fails sample_lower UTF8 long_name_world fresh_project).
  right. apply Exists_cons_hd. vm_compute; reflexivity.
Defined.

(** A path deeper than the stack has room: [os.makedirs] gives up with
    [RecursionError] before it has made anything. *)
Example deep_path_recursion_error :
  get_version sample_lower UTF8 shallow_stack_world fresh_project
  = (Raise RecursionError,
     {| fs := fs fresh_project;
        stdout := [lit "Local build detected. Creating dev version string."] |}).
Proof. vm_compute; reflexivity. Qed.

Lemma header_encodes_witness :
  version sample_lower local_world fresh_project
  = (Normal (lit "dev-20251017-023223"),
     snd (version sample_lower local_world fresh_project)) /\
  is_ci sample_lower local_world = false /\
  encode Latin1 (header_content (lit "dev-20251017-023223"))
  = Some (ascii_bytes (header_content (lit "dev-20251017-023223"))) /\
  version sample_lower accented_world built_project
  = (Normal [118; 49; 233],
     snd (version sample_lower accented_world built_project)) /\
  text_encoding accented_world = UTF8 /\
  is_Some (encode UTF8 (header_content [118; 49; 233])).
Proof.
  split; [vm_compute; reflexivity|].
  split; [vm_compute; reflexivity|].
  split.
  { destruct (header_encodes sample_lower local_world fresh_project
                (lit "dev-20251017-023223")
                (snd (version sample_lower local_world fresh_project)))
      as [Hlocal _].
    - vm_compute; reflexivity.
    - apply Hlocal. vm_compute; reflexivity. }
  split; [vm_compute; reflexivity|].
  split; [reflexivity|].
  destruct (header_encodes sample_lower accented_world built_project
              [118; 49; 233]
              (snd (version sample_lower accented_world built_project)))
    as [_ Hutf8].
  - vm_compute; reflexivity.
  - apply Hutf8. reflexivity.
Defined.

Lemma utf8_header_has_git_bytes_witness :
  is_ci sample_lower accented_world = true /\
  text_encoding accented_world = UTF8 /\
  git_describe accented_world = Returned [x76; x31; xc3; xa9; x0a]%byte /\
  strip [x76; x31; xc3; xa9; x0a]%byte = [x76; x31; xc3; xa9]%byte /\
  read_file UTF8
    (fs (snd (get_version sample_lower UTF8 accented_world built_project)))
    (cwd accented_world) (version_file_path accented_world)
  = Some (ascii_bytes (lit "#pragma once" ++ NL ++ NL ++
                       lit "#define FIRMWARE_VERSION " ++ DQ)
          ++ [x76; x31; xc3; xa9]%byte ++ ascii_bytes (DQ ++ NL)).
Proof.
  split; [vm_compute; reflexivity|].
  split; [reflexivity|].
  split; [reflexivity|].
  split; [vm_compute; reflexivity|].
  destruct (utf8_header_has_git_bytes sample_lower UTF8 accented_world
              built_project
              (snd (get_version sample_lower UTF8 accented_world
                      built_project)))
    as (out & Hg & Hfile).
  - vm_compute; reflexivity.
  - reflexivity.
  - vm_compute; reflexivity.
  - injection Hg as Hg. rewrite <- Hg in Hfile. exact Hfile.
Defined.

(** The code points of the four lengths of UTF-8, there and back. *)
Example utf8_sample :
  encode UTF8 [65; 233; 8364; 128512]
  = Some [x41; xc3; xa9; xe2; x82; xac; xf0; x9f; x98; x80]%byte /\
  decode_utf8 [x41; xc3; xa9; xe2; x82; xac; xf0; x9f; x98; x80]%byte
  = Some [65; 233; 8364; 128512] /\
  encode UTF8 [55296] = None /\
  encode Latin1 [8364] = None /\
  encode ASCII [233] = None.
Proof. repeat split; vm_compute; reflexivity. Qed.
